(** * Nexus reconciliation engine (src/engine.js) and its command line
    (src/cli.js): shallow embedding

    The development follows engine.js and cli.js function by function.  The
    layers:

    - [exn], [result]: JavaScript exceptions as an error monad.
    - [value]: the values a YAML or JSON document holds.  The manifest is
      such a value, as yaml.load returns it, and the engine reads it
      dynamically: a property read is [get] (a name written in the source,
      which no built-in prototype has), [read_of] (the same, on a value that
      may be null or undefined) or [index] (a computed name, looked up along
      the prototype chain).
    - [Display], [Platform], [FS]: String on values, the Node.js built-ins
      the engine calls (path, crypto, net, Number, JSON, strings as code
      units, the member names of the built-in prototypes) and the file
      system they act on.
    - [Yaml]: js-yaml's load, for loadManifest.
    - [Args.t], [Process]: the parsed command line, and what a run of it
      acts on (files, environment, clock, console, exit code).

    An object is the list of its own enumerable properties in the order
    Object.keys gives them, read by own property ([obj_get]). *)

From Stdlib Require Import ZArith Ascii String List Lia.
From Stdlib Require Import DecimalString DecimalZ DecimalPos Sorted.
From stdpp Require Import base option list strings gmap.

Open Scope string_scope.
Open Scope list_scope.

(** ** Exceptions and results *)

(** What a JavaScript [throw] carries.  [Error] is the only class engine.js
    throws itself; the others are raised by the language or inside Node.js
    built-ins. *)
Inductive exn :=
| Error (message : string)
| TypeError (message : string)
| RangeError (message : string)
| SystemError (code : string) (path : string).

Inductive result (A : Type) :=
| Return (a : A)
| Throw (e : exn).
Arguments Return {A} a.
Arguments Throw {A} e.

#[global] Instance result_ret : MRet result := @Return.
#[global] Instance result_bind : MBind result := λ A B f m,
  match m with
  | Return a => f a
  | Throw e => Throw e
  end.

#[global] Instance result_fmap : FMap result := λ A B f m,
  match m with
  | Return a => Return (f a)
  | Throw e => Throw e
  end.

(** [for (const x of xs) body], the loop state threaded through the body. *)
Fixpoint for_of {A S : Type} (xs : list A) (body : S → A → result S) (s : S)
  : result S :=
  match xs with
  | [] => Return s
  | x :: xs' => s' ← body s x; for_of xs' body s'
  end.

(** The messages of the errors engine.js throws. *)
Definition IntentNotFound (intentName : string) : exn :=
  Error ("Intent not found: " +:+ intentName).
Definition NoIntents : exn :=
  Error "No intents defined in manifest".
Definition IntentHasNoDesired (intentName : string) : exn :=
  Error ("Intent has no desired services: " +:+ intentName).
Definition ServiceNotFound (serviceName : string) : exn :=
  Error ("Service not found: " +:+ serviceName).
Definition StateNotFound (serviceName stateId : string) : exn :=
  Error ("State not found: " +:+ serviceName +:+ "." +:+ stateId).
Definition InvalidStateFile (absolutePath : string) : exn :=
  Error ("Invalid state file: " +:+ absolutePath).

(** ** JavaScript values *)

(** Numbers: the non-finite doubles and the integer-valued finite ones. *)
Inductive num :=
| NaN
| Infinity (negative : bool)
| Finite (z : Z).

(** The values of a document.  [VObj props] lists the own enumerable
    properties of an object in the order Object.keys, Object.entries and
    JSON.stringify go through them (JavaScript puts the names that are
    array indices first, in ascending order, and the other names after them
    in the order they were added). *)
#[local] Unset Elimination Schemes.
Inductive value :=
| VUndefined
| VNull
| VBool (b : bool)
| VNum (n : num)
| VStr (s : string)
| VArr (items : list value)
| VObj (props : list (string * value)).
#[local] Set Elimination Schemes.

(** An object used as a map from property names, in enumeration order. *)
Definition obj (A : Type) : Type := list (string * A).

Fixpoint obj_get {A : Type} (o : obj A) (k : string) : option A :=
  match o with
  | [] => None
  | (k', a) :: o' => if decide (k' = k) then Some a else obj_get o' k
  end.

(** [o[k] = a] for a name that is not an array index: an existing property
    keeps its place, a new one goes last. *)
Fixpoint obj_set {A : Type} (o : obj A) (k : string) (a : A) : obj A :=
  match o with
  | [] => [(k, a)]
  | (k', a') :: o' =>
      if decide (k' = k) then (k, a) :: o' else (k', a') :: obj_set o' k a
  end.

(** ToBoolean. *)
Definition truthy (v : value) : bool :=
  match v with
  | VUndefined | VNull => false
  | VBool b => b
  | VNum NaN => false
  | VNum (Infinity _) => true
  | VNum (Finite z) => negb (z =? 0)%Z
  | VStr s => negb (String.eqb s EmptyString)
  | VArr _ | VObj _ => true
  end.

Definition nullish (v : value) : bool :=
  match v with
  | VUndefined | VNull => true
  | _ => false
  end.

(** [v.k] on a value that is neither null nor undefined, for the property
    names the source writes out (intents, desired, states, type, root,
    from, keys, observations, ...): the own property of an object, undefined
    on anything else.  None of these names is a member of a built-in
    prototype, an index, or the length of an array or a string; the one
    name an array inherits, keys, is read only to be tested with
    Array.isArray, which the inherited function fails as undefined does. *)
Definition get (v : value) (k : string) : value :=
  match v with
  | VObj props => default VUndefined (obj_get props k)
  | _ => VUndefined
  end.

(** The TypeError of reading a property of null or undefined.  The message
    stands for Node's, which quotes the name and tells null from
    undefined; nothing proved below depends on its text. *)
Definition cannot_read (k : string) : exn :=
  TypeError ("Cannot read properties of null or undefined, reading " +:+ k).

(** [v.k] for such a name on any value: reading a property of null or
    undefined throws. *)
Definition read_of (v : value) (k : string) : result value :=
  if nullish v then Throw (cannot_read k) else Return (get v k).

(** [a || b] on values. *)
Definition or_else (a b : value) : value := if truthy a then a else b.

(** [s || d] on an optional string: the empty string is falsy. *)
Definition str_or (s : option string) (d : string) : string :=
  match s with
  | Some s' => if String.eqb s' EmptyString then d else s'
  | None => d
  end.

Definition Number_isFinite (n : num) : bool :=
  match n with
  | Finite _ => true
  | _ => false
  end.

(** The values JSON has a text for: no undefined inside, finite numbers,
    distinct property names. *)
Fixpoint json_value (v : value) : bool :=
  match v with
  | VUndefined => false
  | VNum n => match n with Finite _ => true | _ => false end
  | VArr items => forallb json_value items
  | VObj props =>
      bool_decide (NoDup props.*1)
      && forallb (λ p : string * value, json_value p.2) props
  | _ => true
  end.

(** A count or an index in decimal, as a template literal and an array
    index write it. *)
Definition decimal (n : nat) : string := NilZero.string_of_uint (Nat.to_uint n).

(** String(v): what a template literal, a computed property name and the
    default sort order make of a value. *)
Class Display := {
  ToString : value → string;
  ToString_string : ∀ s, ToString (VStr s) = s;
}.

(** ** The platform *)

(** How [socket.connect(port, host, callback)] ends for checkPort: the
    callback runs, an "error" or a "timeout" event fires, or the call itself
    throws (Node.js rejects a port outside 0..65535 on the spot). *)
Inductive connect_outcome :=
| Connected
| ErrorEvent
| TimeoutEvent
| ConnectThrows (e : exn).

(** The prototypes a value other than a plain object has before
    Object.prototype. *)
Inductive builtin :=
| ArrayPrototype
| StringPrototype
| NumberPrototype
| BooleanPrototype.

(** The Node.js built-ins engine.js and cli.js call, on the arguments they
    can give them.  The path functions are the ones on strings; a non-string
    argument never reaches them ([path_arg]).  A string is a sequence of
    UTF-16 code units: [code_units] gives them, [String_fromCharCode] the
    string of one unit, [code_points] the strings a [for ... of] over a
    string yields.  [members_of] lists the names of the members of a
    built-in prototype, which depend on the version of Node.js. *)
Class Platform := {
  path_resolve : string → string;
  path_resolve2 : string → string → string;
  path_join : string → string → string;
  path_dirname : string → string;
  sha256_hex : string → string;
  Number : value → num;
  socket_connect : value → num → Z → connect_outcome;
  JSON_stringify : value → option string;
  JSON_parse : string → option value;
  code_units : string → list N;
  String_fromCharCode : N → string;
  code_points : string → list string;
  members_of : builtin → list string;
}.

(** path.join and path.resolve validate their arguments: anything but a
    string is a TypeError (ERR_INVALID_ARG_TYPE), whose message is cut
    short here. *)
Definition path_arg (v : value) : result string :=
  match v with
  | VStr s => Return s
  | _ => Throw (TypeError "The path argument must be of type string")
  end.

(** The file system: what is at an absolute POSIX path.  The directories
    above a path that is there are there as well. *)
Inductive node :=
| File (content : string)
| Directory.

Abbreviation FS := (gmap string node).

(** The directories above a path, outermost first: the path up to each "/"
    but a leading one.  The root is not among them. *)
Fixpoint above_from (done rest : string) : list string :=
  match rest with
  | EmptyString => []
  | String c rest' =>
      (if bool_decide (c = "/"%char) && negb (String.eqb done EmptyString)
       then [done] else [])
      ++ above_from (done +:+ String c EmptyString) rest'
  end.

Definition above (p : string) : list string := above_from EmptyString p.

Definition fs_existsSync (fs : FS) (p : string) : bool :=
  bool_decide (is_Some (fs !! p)).

Definition fs_readFileSync (fs : FS) (p : string) : result string :=
  match fs !! p with
  | Some (File content) => Return content
  | Some Directory => Throw (SystemError "EISDIR" p)
  | None => Throw (SystemError "ENOENT" p)
  end.

(** One step of a recursive mkdir of [dir], at [d]: a directory that is
    there is left alone, a missing one is made, a file in the way is an
    error. *)
Definition make_directory (dir : string) (fs : FS) (d : string) : result FS :=
  match fs !! d with
  | Some Directory => Return fs
  | Some (File _) =>
      Throw (SystemError (if String.eqb d dir then "EEXIST" else "ENOTDIR") dir)
  | None => Return (<[d := Directory]> fs)
  end.

(** [fs.mkdirSync(dir, { recursive: true })]: every missing directory on
    the way to [dir] is made, from the outermost in. *)
Definition fs_mkdirSync (fs : FS) (dir : string) : result FS :=
  for_of (above dir ++ [dir]) (make_directory dir) fs.

(** What stops the way down the directories [dirs]: one that is missing,
    or a file. *)
Fixpoint blocked (fs : FS) (dirs : list string) : option string :=
  match dirs with
  | [] => None
  | d :: dirs' =>
      match fs !! d with
      | Some Directory => blocked fs dirs'
      | Some (File _) => Some "ENOTDIR"
      | None => Some "ENOENT"
      end
  end.

(** [fs.writeFileSync(p, data)]; [None] is the undefined that JSON.stringify
    returns for a value without a JSON text.  The file is made or replaced
    in a directory that is there. *)
Definition fs_writeFileSync (fs : FS) (p : string) (data : option string)
  : result FS :=
  match data with
  | None => Throw (TypeError "The data argument must be of type string")
  | Some text =>
      match blocked fs (above p) with
      | Some code => Throw (SystemError code p)
      | None =>
          match fs !! p with
          | Some Directory => Throw (SystemError "EISDIR" p)
          | _ => Return (<[p := File text]> fs)
          end
      end
  end.

(** ** Objects, read dynamically *)

(** The member names of Object.prototype, which every object inherits. *)
Definition Object_prototype : list string :=
  ["constructor"; "__defineGetter__"; "__defineSetter__"; "hasOwnProperty";
   "__lookupGetter__"; "__lookupSetter__"; "isPrototypeOf";
   "propertyIsEnumerable"; "toString"; "valueOf"; "__proto__"; "toLocaleString"].

(** What [v[k]] gives for a computed name: a value of the document, or a
    member of a built-in prototype (a function, or for __proto__ the
    prototype itself).  Such a member is truthy, and has no property named
    desired, states or type. *)
Inductive member :=
| Data (v : value)
| Builtin.

Definition truthy_member (m : member) : bool :=
  match m with
  | Data v => truthy v
  | Builtin => true
  end.

Section Objects.
Context `{platform : Platform}.

(** [Object.entries(v)] for a value that is neither null nor undefined: the
    own enumerable properties, which for an array are its items and for a
    string its code units, under their indices. *)
Definition Object_entries (v : value) : obj value :=
  match v with
  | VObj props => props
  | VArr items => imap (λ i item, (decimal i, item)) items
  | VStr s => imap (λ i unit, (decimal i, VStr (String_fromCharCode unit))) (code_units s)
  | _ => []
  end.

Definition Object_keys (v : value) : list string := (Object_entries v).*1.

(** The own [length] of an array or a string. *)
Definition own_length (v : value) : option nat :=
  match v with
  | VArr items => Some (length items)
  | VStr s => Some (length (code_units s))
  | _ => None
  end.

(** Whether the prototype chain of a value has a member of that name. *)
Definition inherited (v : value) (k : string) : bool :=
  bool_decide (k ∈ match v with
                   | VArr _ => members_of ArrayPrototype
                   | VStr _ => members_of StringPrototype
                   | VNum _ => members_of NumberPrototype
                   | VBool _ => members_of BooleanPrototype
                   | _ => []
                   end ++ Object_prototype).

(** [v[k]]: the own property when there is one, else what the prototype
    chain has under the name, else undefined; a TypeError on null and
    undefined. *)
Definition index (v : value) (k : string) : result member :=
  if nullish v then Throw (cannot_read k)
  else match obj_get (Object_entries v) k with
       | Some x => Return (Data x)
       | None =>
           match own_length v with
           | Some n =>
               if String.eqb k "length" then Return (Data (VNum (Finite (Z.of_nat n))))
               else if inherited v k then Return Builtin
               else Return (Data VUndefined)
           | None =>
               if inherited v k then Return Builtin else Return (Data VUndefined)
           end
       end.

(** What a [for ... of] goes through: the items of an array, the code
    points of a string; nothing else among the values is iterable. *)
Definition iterate (v : value) : result (list value) :=
  match v with
  | VArr items => Return items
  | VStr s => Return (VStr <$> code_points s)
  | _ => Throw (TypeError "The value is not iterable")
  end.

End Objects.
(** ** resolveIntentName *)

Section Engine.
Context `{platform : Platform} `{display : Display}.

(** [manifest] is the document and [intentName] whatever the caller passes
    (cli.js passes null, undefined or a string).  The names under
    [manifest.intents] are looked up with [index], so a name counts when the
    lookup gives something truthy. *)
Definition resolveIntentName (manifest intentName : value) : result value :=
  declared ← read_of manifest "intents";
  let intents := Object_keys (or_else declared (VObj [])) in
  if truthy intentName then
    intent ← index declared (ToString intentName);
    if negb (truthy_member intent) then Throw (IntentNotFound (ToString intentName))
    else Return intentName
  else
    let defaultIntent := get manifest "defaultIntent" in
    chosen ← (if truthy defaultIntent
              then truthy_member <$> index declared (ToString defaultIntent)
              else Return false);
    if (chosen : bool) then Return defaultIntent
    else
      feature ← read_of declared "feature";
      if truthy feature then Return (VStr "feature")
      else match intents with
           | first :: _ => Return (VStr first)
           | [] => Throw NoIntents
           end.

(** ** buildPlan *)

Record PlanItem := {
  serviceName : string;
  stateId : value;
  type : value;
  config : value;
  service : value;
}.

(** [intent.desired.services] as the loop of buildPlan goes through it, or
    what is thrown before the loop. *)
Definition desired_services (manifest intentName : value) : result (obj value) :=
  intents ← read_of manifest "intents";
  intent ← index intents (ToString intentName);
  match intent with
  | Builtin =>
      (* a member of a built-in prototype: truthy, without a desired *)
      Throw (IntentHasNoDesired (ToString intentName))
  | Data intent =>
      if negb (truthy intent)
         || negb (truthy (get intent "desired"))
         || negb (truthy (get (get intent "desired") "services"))
      then Throw (IntentHasNoDesired (ToString intentName))
      else Return (Object_entries (get (get intent "desired") "services"))
  end.

(** The inner loop body: one state of one service, which is truthy.
    [service.states && service.states[stateId]]. *)
Definition plan_state (serviceName : string) (service : value)
    (plan : list PlanItem) (stateId : value) : result (list PlanItem) :=
  let states := get service "states" in
  state ← (if truthy states then index states (ToString stateId)
           else Return (Data states));
  match state with
  | Builtin =>
      (* a member of a built-in prototype: truthy, without a type *)
      Throw (StateNotFound serviceName (ToString stateId))
  | Data state =>
      if negb (truthy state) || negb (truthy (get state "type"))
      then Throw (StateNotFound serviceName (ToString stateId))
      else Return (plan ++ [{| serviceName := serviceName;
                               stateId := stateId;
                               type := get state "type";
                               config := state;
                               service := service |}])
  end.

(** [Array.isArray(desired.states) ? desired.states : []]. *)
Definition state_ids (desired : value) : result (list value) :=
  wanted ← read_of desired "states";
  Return (match wanted with VArr items => items | _ => [] end).

(** The outer loop body: one entry of [intent.desired.services]. *)
Definition plan_service (manifest : value) (plan : list PlanItem)
    (entry : string * value) : result (list PlanItem) :=
  let '(serviceName, desired) := entry in
  services ← read_of manifest "services";
  service ← index services serviceName;
  match service with
  | Builtin =>
      (* a member of a built-in prototype: truthy, without states, so the
         first state asked of it is not found *)
      stateIds ← state_ids desired;
      for_of stateIds
        (λ plan stateId, Throw (StateNotFound serviceName (ToString stateId))) plan
  | Data service =>
      if negb (truthy service) then Throw (ServiceNotFound serviceName)
      else
        stateIds ← state_ids desired;
        for_of stateIds (plan_state serviceName service) plan
  end.

Definition buildPlan (manifest intentName : value) : result (list PlanItem) :=
  entries ← desired_services manifest intentName;
  for_of entries (plan_service manifest) [].

(** ** buildGraph and addEdge *)

(** [to] is what the manifest requires: any item of a requires.services
    array, or the provider of an env binding. *)
Record GraphEdge := { from : string; to : value; reason : string }.

(** [s.includes(c)] and [s.split(c)[0]] for a one-character separator. *)
Fixpoint includes (s : string) (c : ascii) : bool :=
  match s with
  | EmptyString => false
  | String a s' => if decide (a = c) then true else includes s' c
  end.

Fixpoint split_first (s : string) (c : ascii) : string :=
  match s with
  | EmptyString => EmptyString
  | String a s' => if decide (a = c) then EmptyString else String a (split_first s' c)
  end.

Definition edge_key (from : string) (to : value) (reason : string) : string :=
  from +:+ "->" +:+ ToString to +:+ ":" +:+ reason.

(** The two arrays-by-reference of the source, [edges] and [seen], are the
    state the function returns. *)
Definition addEdge (st : list GraphEdge * gset string) (from : string) (to : value)
    (reason : string) : list GraphEdge * gset string :=
  let '(edges, seen) := st in
  let key := edge_key from to reason in
  if decide (key ∈ seen) then (edges, seen)
  else (edges ++ [{| from := from; to := to; reason := reason |}], {[key]} ∪ seen).

(** [(service.requires && service.requires.services) || []] and
    [(service.consumes && service.consumes.env) || {}]. *)
Definition requires_of (service : value) : result value :=
  declared ← read_of service "requires";
  Return (or_else (if truthy declared then get declared "services" else declared)
            (VArr [])).

Definition consumes_of (service : value) : value :=
  let declared := get service "consumes" in
  or_else (if truthy declared then get declared "env" else declared) (VObj []).

(** The second inner loop body: one env binding. *)
Definition graph_binding (serviceName : string) (st : list GraphEdge * gset string)
    (entry : string * value) : list GraphEdge * gset string :=
  let '(varName, binding) := entry in
  let source := if truthy binding then get binding "from" else binding in
  match source with
  | VStr source =>
      if includes source "."
      then addEdge st serviceName (VStr (split_first source ".")) ("consumes " +:+ varName)
      else st
  | _ => st
  end.

(** The outer loop body: one entry of [manifest.services]. *)
Definition graph_service (st : list GraphEdge * gset string)
    (entry : string * value) : result (list GraphEdge * gset string) :=
  let '(serviceName, service) := entry in
  requires ← requires_of service;
  required ← iterate requires;
  let st := fold_left (λ st required, addEdge st serviceName required "requires")
              required st in
  Return (fold_left (graph_binding serviceName) (Object_entries (consumes_of service)) st).

Definition buildGraph (manifest : value) : result (list GraphEdge) :=
  services ← read_of manifest "services";
  st ← for_of (Object_entries (or_else services (VObj []))) graph_service ([], ∅);
  Return st.1.

(** ** observeState and validatePlan *)

Definition hashFile (fs : FS) (filePath : string) : result string :=
  data ← fs_readFileSync fs filePath;
  Return ("sha256:" +:+ sha256_hex data).

Definition checkPort (host : value) (port : num) (timeoutMs : Z) : result bool :=
  match socket_connect host port timeoutMs with
  | Connected => Return true
  | ErrorEvent | TimeoutEvent => Return false
  | ConnectThrows e => Throw e
  end.

Record Observation := { status : string; evidence : obj value }.

(** [type === s]. *)
Definition is_str (v : value) (s : string) : bool :=
  match v with
  | VStr t => String.eqb t s
  | _ => false
  end.

(** The body of observeState from [const type = item.type] on, where
    [resolvedRoot] is known. *)
Definition observe_in (fs : FS) (item : PlanItem) (resolvedRoot : string)
  : result Observation :=
  let type := type item in
  if is_str type "package.deps" then
    declared ← read_of (config item) "lockfile";
    lockfile ← path_arg (or_else declared (VStr "package-lock.json"));
    let lockfilePath := path_join resolvedRoot lockfile in
    if negb (fs_existsSync fs lockfilePath) then
      Return {| status := "missing";
                evidence := [("lockfile", VStr lockfilePath); ("exists", VBool false)] |}
    else
      checksum ← hashFile fs lockfilePath;
      Return {| status := "healthy";
                evidence := [("lockfile", VStr lockfilePath); ("checksum", VStr checksum)] |}
  else if is_str type "db.schema" then
    source ← read_of (config item) "source";
    if negb (truthy source) then
      Return {| status := "unknown";
                evidence := [("reason", VStr "no source defined")] |}
    else
      source ← path_arg source;
      let schemaPath := path_resolve2 resolvedRoot source in
      let exists_ := fs_existsSync fs schemaPath in
      checksum ← (if exists_ then VStr <$> hashFile fs schemaPath
                  else Return VUndefined);
      Return {| status := if exists_ then "healthy" else "missing";
                evidence := [("source", VStr schemaPath); ("exists", VBool exists_);
                             ("checksum", checksum)] |}
  else if is_str type "env.export" then
    declared ← read_of (config item) "keys";
    let keys := match declared with VArr items => items | _ => [] end in
    Return {| status := if (0 <? length keys)%nat then "healthy" else "missing";
              evidence := [("keys", VArr keys)] |}
  else if is_str type "env.inherit" then
    source ← read_of (config item) "from";
    Return {| status := if truthy source then "healthy" else "missing";
              evidence := [("from", source)] |}
  else if is_str type "process.http" then
    declared ← read_of (config item) "port";
    let port := Number declared in
    let host := or_else (get (config item) "host") (VStr "127.0.0.1") in
    if negb (Number_isFinite port) then
      Return {| status := "unknown"; evidence := [("reason", VStr "invalid port")] |}
    else
      isOpen ← checkPort host port 300;
      Return {| status := if (isOpen : bool) then "healthy" else "missing";
                evidence := [("host", host); ("port", VNum port); ("open", VBool isOpen)] |}
  else
    Return {| status := "unknown"; evidence := [("type", type)] |}.

Definition observeState (fs : FS) (item : PlanItem) (projectRoot : string)
  : result Observation :=
  declaredRoot ← read_of (service item) "root";
  serviceRoot ← path_arg (or_else declaredRoot (VStr "."));
  let resolvedRoot := path_resolve2 projectRoot serviceRoot in
  observe_in fs item resolvedRoot.

(** A result of validatePlan: [{ ...item, observation }]. *)
Record Validated := { item : PlanItem; observation : Observation }.

Definition validate_item (fs : FS) (projectRoot : string)
    (results : list Validated) (item : PlanItem) : result (list Validated) :=
  observation ← observeState fs item projectRoot;
  Return (results ++ [{| item := item; observation := observation |}]).

Definition validatePlan (fs : FS) (plan : list PlanItem) (projectRoot : string)
  : result (list Validated) :=
  for_of plan (validate_item fs projectRoot) [].

(** ** The state store *)

Definition DEFAULT_STATE_PATH : string := ".nexus/state.json".

Definition loadState (fs : FS) (statePath : string) : result value :=
  let absolutePath := path_resolve statePath in
  if negb (fs_existsSync fs absolutePath) then
    Return (VObj [("manifestHash", VNull); ("observations", VObj [])])
  else
    raw ← fs_readFileSync fs absolutePath;
    match JSON_parse raw with
    | Some state => Return state
    | None => Throw (InvalidStateFile absolutePath)
    end.

Definition writeState (fs : FS) (state : value) (statePath : string) : result FS :=
  let absolutePath := path_resolve statePath in
  let dir := path_dirname absolutePath in
  fs ← fs_mkdirSync fs dir;
  fs_writeFileSync fs absolutePath (JSON_stringify state).

(** ** updateState *)

(** The key of a result: the service name and the state ID around a colon. *)
Definition state_key (result : Validated) : string :=
  serviceName (item result) +:+ ":" +:+ ToString (stateId (item result)).

(** The body of the loop: the record stored for one result.  The key has a
    colon in it, so it is no index, no length and no member of a built-in
    prototype (their names are identifiers): what
    [existingState.observations[key]] finds is an own property. *)
Definition store_result (existingState : value) (now : string)
    (observations : obj value) (entry : Validated) : result (obj value) :=
  let key := state_key entry in
  known ← read_of existingState "observations";
  let previous := if truthy known then get known key else VNull in
  Return (obj_set observations key
    (VObj [("status", VStr (status (observation entry)));
           ("evidence", VObj (evidence (observation entry)));
           ("lastValidatedAt", VStr now);
           ("lastAppliedAt",
            if truthy previous then get previous "lastAppliedAt" else VNull)])).

(** [now] is the one reading of the clock, [new Date().toISOString()]. *)
Definition updateState (existingState : value) (results : list Validated)
    (manifestHash : value) (now : string) : result value :=
  observations ← for_of results (store_result existingState now) [];
  Return (VObj [("manifestHash", manifestHash); ("observations", VObj observations)]).

End Engine.

(** ** summarizeResults *)

Record Summary := { healthy : nat; missing : nat; unknown : nat; total : option nat }.

(** The body of the loop. *)
Definition tally (summary : Summary) (result : Validated) : Summary :=
  let status := status (observation result) in
  if String.eqb status "healthy" then
    {| healthy := healthy summary + 1; missing := missing summary;
       unknown := unknown summary; total := total summary |}
  else if String.eqb status "missing" then
    {| healthy := healthy summary; missing := missing summary + 1;
       unknown := unknown summary; total := total summary |}
  else
    {| healthy := healthy summary; missing := missing summary;
       unknown := unknown summary + 1; total := total summary |}.

Definition summarizeResults (results : list Validated) : Summary :=
  let summary :=
    fold_left tally results {| healthy := 0; missing := 0; unknown := 0; total := None |} in
  {| healthy := healthy summary; missing := missing summary;
     unknown := unknown summary; total := Some (length results) |}.

(** ** A platform to run the engine on

    An executable stand-in for Node.js, used where a statement is checked on
    a concrete input: POSIX paths without normalisation, JSON on the values
    of [value] with integer literals, strings of the first 128 characters,
    one listening port. *)

Module MiniJSON.

Definition dquote : ascii := "034"%char.
Definition newline : string := String "010"%char "".

Definition hex_digit (n : N) : ascii :=
  ascii_of_N (if (n <? 10)%N then 48 + n else 87 + n).

Definition escape (c : ascii) : string :=
  if decide (c = dquote) then String "\" (String dquote "")
  else if decide (c = "\"%char) then "\\"
  else if decide (c = "008"%char) then "\b"
  else if decide (c = "012"%char) then "\f"
  else if decide (c = "010"%char) then "\n"
  else if decide (c = "013"%char) then "\r"
  else if decide (c = "009"%char) then "\t"
  else if (N_of_ascii c <? 32)%N then
    "\u00" +:+ String (hex_digit (N_of_ascii c / 16)) (String (hex_digit (N_of_ascii c mod 16)) "")
  else String c "".

Fixpoint escape_all (s : string) : string :=
  match s with
  | EmptyString => ""
  | String c s' => escape c +:+ escape_all s'
  end.

Definition quote (s : string) : string :=
  String dquote (escape_all s +:+ String dquote "").

Definition number (n : num) : string :=
  match n with
  | Finite z => NilZero.string_of_int (Z.to_int z)
  | _ => "null"
  end.

Definition block (open close indent : string) (members : list string) : string :=
  match members with
  | [] => open +:+ close
  | _ =>
      let inner := indent +:+ "  " in
      open +:+ newline +:+ inner
        +:+ String.concat ("," +:+ newline +:+ inner) members
        +:+ newline +:+ indent +:+ close
  end.

Fixpoint stringify_at (indent : string) (v : value) : option string :=
  match v with
  | VUndefined => None
  | VNull => Some "null"
  | VBool b => Some (if b then "true" else "false")
  | VNum n => Some (number n)
  | VStr s => Some (quote s)
  | VArr items =>
      Some (block "[" "]" indent
              (map (λ item, default "null" (stringify_at (indent +:+ "  ") item)) items))
  | VObj props =>
      Some (block "{" "}" indent
              (omap (λ p, (λ text, quote p.1 +:+ ": " +:+ text)
                            <$> stringify_at (indent +:+ "  ") p.2) props))
  end.

Definition stringify (v : value) : option string := stringify_at "" v.

Definition is_ws (c : ascii) : bool :=
  bool_decide (c = " "%char ∨ c = "010"%char ∨ c = "013"%char ∨ c = "009"%char).

Fixpoint skip_ws (s : string) : string :=
  match s with
  | String c s' => if is_ws c then skip_ws s' else s
  | EmptyString => s
  end.

Fixpoint expect (word : string) (s : string) : option string :=
  match word with
  | EmptyString => Some s
  | String c word' =>
      match s with
      | String c' s' => if decide (c = c') then expect word' s' else None
      | EmptyString => None
      end
  end.

Definition unescape (e : ascii) : option ascii :=
  if decide (e = dquote) then Some dquote
  else if decide (e = "\"%char) then Some "\"%char
  else if decide (e = "/"%char) then Some "/"%char
  else if decide (e = "b"%char) then Some "008"%char
  else if decide (e = "f"%char) then Some "012"%char
  else if decide (e = "n"%char) then Some "010"%char
  else if decide (e = "r"%char) then Some "013"%char
  else if decide (e = "t"%char) then Some "009"%char
  else None.

Definition hex_value (c : ascii) : option N :=
  let n := N_of_ascii c in
  if ((48 <=? n) && (n <=? 57))%N then Some (n - 48)%N
  else if ((97 <=? n) && (n <=? 102))%N then Some (n - 87)%N
  else if ((65 <=? n) && (n <=? 70))%N then Some (n - 55)%N
  else None.

Definition cons_char (c : ascii) (r : option (string * string)) : option (string * string) :=
  match r with
  | Some (body, rest) => Some (String c body, rest)
  | None => None
  end.

(** The characters of a string literal after its opening quote. *)
Fixpoint string_body (s : string) : option (string * string) :=
  match s with
  | EmptyString => None
  | String c s' =>
      if decide (c = dquote) then Some ("", s')
      else if decide (c = "\"%char) then
        match s' with
        | String "u" (String h1 (String h2 (String h3 (String h4 s'')))) =>
            match hex_value h1, hex_value h2, hex_value h3, hex_value h4 with
            | Some a, Some b, Some c, Some d =>
                let code := (((a * 16 + b) * 16 + c) * 16 + d)%N in
                if (code <? 128)%N then cons_char (ascii_of_N code) (string_body s'')
                else None
            | _, _, _, _ => None
            end
        | String e s'' =>
            match unescape e with
            | Some c' => cons_char c' (string_body s'')
            | None => None
            end
        | EmptyString => None
        end
      else if (N_of_ascii c <? 32)%N then None
      else cons_char c (string_body s')
  end.

Definition is_digit (c : ascii) : bool :=
  ((48 <=? N_of_ascii c) && (N_of_ascii c <=? 57))%N.

Fixpoint digits (s : string) : string * string :=
  match s with
  | String c s' =>
      if is_digit c then let '(d, rest) := digits s' in (String c d, rest) else ("", s)
  | EmptyString => ("", s)
  end.

(** An integer literal; a fraction or an exponent is not read. *)
Definition integer (token : string) : option Z :=
  match NilZero.int_of_string token with
  | Some i =>
      let z := Z.of_int i in
      if String.eqb (NilZero.string_of_int (Z.to_int z)) token then Some z
      else if String.eqb token "-0" then Some 0%Z
      else None
  | None => None
  end.

(** What may follow a number: not a digit, and not the start of a fraction
    or an exponent. *)
Definition ends_number (rest : string) : bool :=
  match rest with
  | String c _ =>
      negb (is_digit c)
      && negb (bool_decide (c = "."%char ∨ c = "e"%char ∨ c = "E"%char))
  | EmptyString => true
  end.

Definition number_literal (s : string) : option (value * string) :=
  let '(sign, s1) :=
    match s with
    | String c s' => if decide (c = "-"%char) then ("-", s') else (EmptyString, s)
    | EmptyString => (EmptyString, s)
    end in
  let '(d, rest) := digits s1 in
  if ends_number rest
  then (λ z, (VNum (Finite z), rest)) <$> integer (sign +:+ d)
  else None.

Fixpoint value_at (fuel : nat) (s : string) : option (value * string) :=
  match fuel with
  | O => None
  | S fuel' =>
      match skip_ws s with
      | EmptyString => None
      | String c rest as s0 =>
          if decide (c = "n"%char) then (λ r, (VNull, r)) <$> expect "ull" rest
          else if decide (c = "t"%char) then (λ r, (VBool true, r)) <$> expect "rue" rest
          else if decide (c = "f"%char) then (λ r, (VBool false, r)) <$> expect "alse" rest
          else if decide (c = dquote) then
            match string_body rest with
            | Some (body, r) => Some (VStr body, r)
            | None => None
            end
          else if decide (c = "["%char) then
            match skip_ws rest with
            | String c' r =>
                if decide (c' = "]"%char) then Some (VArr [], r)
                else
                  match elements_at fuel' (String c' r) with
                  | Some (items, r') => Some (VArr items, r')
                  | None => None
                  end
            | EmptyString => None
            end
          else if decide (c = "{"%char) then
            match skip_ws rest with
            | String c' r =>
                if decide (c' = "}"%char) then Some (VObj [], r)
                else
                  match members_at fuel' (String c' r) [] with
                  | Some (props, r') => Some (VObj props, r')
                  | None => None
                  end
            | EmptyString => None
            end
          else number_literal s0
      end
  end
with elements_at (fuel : nat) (s : string) : option (list value * string) :=
  match fuel with
  | O => None
  | S fuel' =>
      match value_at fuel' s with
      | Some (v, r) =>
          match skip_ws r with
          | String c r' =>
              if decide (c = ","%char) then
                match elements_at fuel' r' with
                | Some (vs, r'') => Some (v :: vs, r'')
                | None => None
                end
              else if decide (c = "]"%char) then Some ([v], r')
              else None
          | EmptyString => None
          end
      | None => None
      end
  end
with members_at (fuel : nat) (s : string) (acc : obj value)
  : option (obj value * string) :=
  match fuel with
  | O => None
  | S fuel' =>
      match skip_ws s with
      | String c r0 =>
          if decide (c = dquote) then
            match string_body r0 with
            | Some (k, r1) =>
                match skip_ws r1 with
                | String c1 r2 =>
                    if decide (c1 = ":"%char) then
                      match value_at fuel' r2 with
                      | Some (v, r3) =>
                          match skip_ws r3 with
                          | String c3 r4 =>
                              if decide (c3 = ","%char)
                              then members_at fuel' r4 (obj_set acc k v)
                              else if decide (c3 = "}"%char)
                              then Some (obj_set acc k v, r4)
                              else None
                          | EmptyString => None
                          end
                      | None => None
                      end
                    else None
                | EmptyString => None
                end
            | None => None
            end
          else None
      | EmptyString => None
      end
  end.

Definition parse (text : string) : option value :=
  match value_at (String.length text) text with
  | Some (v, rest) => if String.eqb (skip_ws rest) "" then Some v else None
  | None => None
  end.

(** The text of a value in an array: undefined is written null. *)
Definition text_at (indent : string) (v : value) : string :=
  default "null" (stringify_at indent v).

Fixpoint all_ws (s : string) : bool :=
  match s with
  | String c s' => is_ws c && all_ws s'
  | EmptyString => true
  end.

(** The fuel that reading a value back takes. *)
Fixpoint weight (v : value) : nat :=
  match v with
  | VArr items => S (list_sum (map (λ item, S (weight item)) items))
  | VObj props => S (list_sum (map (λ p : string * value, S (weight p.2)) props))
  | _ => 1
  end.

(** The first character of a text tells what it is the text of. *)
Definition starts_value (text : string) : Prop :=
  ∃ c t, text = String c t ∧ is_ws c = false ∧ c ≠ "]"%char ∧ c ≠ "}"%char.

(** The text of a property in an object. *)
Definition member_text (inner : string) (p : string * value) : string :=
  quote p.1 +:+ ": " +:+ text_at inner p.2.

(** Reading back the text of a value gives the value. *)
Definition reads_back (v : value) : Prop :=
  json_value v = true →
  ∀ indent rest fuel,
    all_ws indent = true → ends_number rest = true → (weight v ≤ fuel)%nat →
    value_at fuel (text_at indent v +:+ rest) = Some (v, rest).

End MiniJSON.

Definition absolute (p : string) : bool := String.prefix "/" p.

Fixpoint parent (p : string) : option string :=
  match p with
  | EmptyString => None
  | String c p' =>
      match parent p' with
      | Some d => Some (String c d)
      | None => if decide (c = "/"%char) then Some "" else None
      end
  end.

Definition posix_resolve2 (base p : string) : string :=
  if absolute p then p else base +:+ "/" +:+ p.

Definition posix_dirname (p : string) : string :=
  match parent p with
  | Some EmptyString => "/"
  | Some d => d
  | None => "."
  end.

Definition to_number (v : value) : num :=
  match v with
  | VNum n => n
  | VUndefined => NaN
  | VNull => Finite 0
  | VBool b => Finite (if b then 1 else 0)
  | VStr s =>
      if String.eqb s "" then Finite 0
      else match NilZero.int_of_string s with
           | Some i => Finite (Z.of_int i)
           | None => NaN
           end
  | VArr _ | VObj _ => NaN
  end.

(** Port 4001 has a listener; a port outside 0..65535 is refused by
    socket.connect itself. *)
Definition connect_4001 (host : value) (port : num) (timeoutMs : Z)
  : connect_outcome :=
  match port with
  | Finite z =>
      if bool_decide (0 ≤ z < 65536)%Z
      then if bool_decide (z = 4001%Z) then Connected else ErrorEvent
      else ConnectThrows (RangeError "Port should be >= 0 and < 65536")
  | _ => ErrorEvent
  end.

(** Strings of the first 128 characters: a code unit and a code point per
    character. *)
Definition ascii_units (s : string) : list N :=
  N_of_ascii <$> list_ascii_of_string s.

Definition one_character (c : ascii) : string := String c EmptyString.

Definition ascii_points (s : string) : list string :=
  one_character <$> list_ascii_of_string s.

Definition prototype_members (prototype : builtin) : list string :=
  match prototype with
  | ArrayPrototype =>
      ["constructor"; "at"; "concat"; "copyWithin"; "fill"; "find"; "findIndex";
       "findLast"; "findLastIndex"; "lastIndexOf"; "pop"; "push"; "reverse";
       "shift"; "unshift"; "slice"; "sort"; "splice"; "includes"; "indexOf";
       "join"; "keys"; "entries"; "values"; "forEach"; "filter"; "flat";
       "flatMap"; "map"; "every"; "some"; "reduce"; "reduceRight";
       "toLocaleString"; "toString"]
  | StringPrototype =>
      ["constructor"; "at"; "charAt"; "charCodeAt"; "codePointAt"; "concat";
       "endsWith"; "includes"; "indexOf"; "lastIndexOf"; "localeCompare";
       "match"; "matchAll"; "normalize"; "padEnd"; "padStart"; "repeat";
       "replace"; "replaceAll"; "search"; "slice"; "split"; "substr";
       "substring"; "startsWith"; "toString"; "trim"; "trimStart"; "trimEnd";
       "toLocaleLowerCase"; "toLocaleUpperCase"; "toLowerCase"; "toUpperCase";
       "valueOf"]
  | NumberPrototype =>
      ["constructor"; "toExponential"; "toFixed"; "toPrecision"; "toString";
       "valueOf"; "toLocaleString"]
  | BooleanPrototype => ["constructor"; "toString"; "valueOf"]
  end.

Definition demo : Platform := {|
  path_resolve := posix_resolve2 "/work";
  path_resolve2 := posix_resolve2;
  path_join := λ a b, a +:+ "/" +:+ b;
  path_dirname := posix_dirname;
  sha256_hex := λ data, "digest-of-" +:+ data;
  Number := to_number;
  socket_connect := connect_4001;
  JSON_stringify := MiniJSON.stringify;
  JSON_parse := MiniJSON.parse;
  code_units := ascii_units;
  String_fromCharCode := λ unit, one_character (ascii_of_N unit);
  code_points := ascii_points;
  members_of := prototype_members;
|}.

(** String on values, with the integers in decimal. *)
Fixpoint text_of (v : value) : string :=
  match v with
  | VUndefined => "undefined"
  | VNull => "null"
  | VBool b => if b then "true" else "false"
  | VNum n =>
      match n with
      | NaN => "NaN"
      | Infinity negative => if negative then "-Infinity" else "Infinity"
      | Finite z => NilZero.string_of_int (Z.to_int z)
      end
  | VStr s => s
  | VArr items =>
      String.concat ","
        (map (λ item, match item with
                      | VUndefined | VNull => EmptyString
                      | _ => text_of item
                      end) items)
  | VObj _ => "[object Object]"
  end.

Definition demo_display : Display :=
  {| ToString := text_of; ToString_string := λ s, eq_refl |}.

(** ** loadManifest and hashString *)

(** js-yaml's [load]: the value of a YAML text, or what it throws on a text
    that is not YAML. *)
Class Yaml := { yaml_load : string → result value }.

(** The [typeof] operator. *)
Definition typeof (v : value) : string :=
  match v with
  | VUndefined => "undefined"
  | VNull => "object"
  | VBool _ => "boolean"
  | VNum _ => "number"
  | VStr _ => "string"
  | VArr _ | VObj _ => "object"
  end.

(** What loadManifest returns. *)
Module Loaded.
Record t := {
  manifest : value;
  manifestPath : string;
  projectRoot : string;
  manifestHash : string;
}.
End Loaded.

Definition ManifestNotFound (manifestPath : string) : exn :=
  Error ("Manifest not found: " +:+ manifestPath).
Definition ManifestNotObject : exn :=
  Error "Invalid manifest: expected a YAML object".
Definition ManifestIncomplete : exn :=
  Error "Invalid manifest: missing services or intents".

Section Manifests.
Context `{platform : Platform} `{yaml : Yaml}.

Definition hashString (value : string) : string :=
  "sha256:" +:+ sha256_hex value.

(** [manifestPath] is whatever the caller passes; path.resolve refuses what
    is not a string. *)
Definition loadManifest (fs : FS) (manifestPath : value) : result Loaded.t :=
  manifestPath ← path_arg manifestPath;
  let absolutePath := path_resolve manifestPath in
  if negb (fs_existsSync fs absolutePath) then Throw (ManifestNotFound manifestPath)
  else
    raw ← fs_readFileSync fs absolutePath;
    manifest ← yaml_load raw;
    if negb (truthy manifest) || negb (String.eqb (typeof manifest) "object")
    then Throw ManifestNotObject
    else if negb (truthy (get manifest "services")) || negb (truthy (get manifest "intents"))
    then Throw ManifestIncomplete
    else Return {| Loaded.manifest := manifest;
                   Loaded.manifestPath := absolutePath;
                   Loaded.projectRoot := path_dirname absolutePath;
                   Loaded.manifestHash := hashString raw |}.

End Manifests.

(** ** The command line (src/cli.js) *)

(** The object parseArgs builds; [positional] is its [_] array.  The two
    options start as null and hold what the command line gives: a string, or
    undefined when the flag is the last argument. *)
Module Args.
Record t := {
  positional : list string;
  manifest : value;
  intent : value;
  json : bool;
  help : bool;
}.
End Args.

Definition set_help (args : Args.t) : Args.t :=
  {| Args.positional := Args.positional args; Args.manifest := Args.manifest args;
     Args.intent := Args.intent args; Args.json := Args.json args; Args.help := true |}.

Definition set_json (args : Args.t) : Args.t :=
  {| Args.positional := Args.positional args; Args.manifest := Args.manifest args;
     Args.intent := Args.intent args; Args.json := true; Args.help := Args.help args |}.

Definition set_manifest (args : Args.t) (v : value) : Args.t :=
  {| Args.positional := Args.positional args; Args.manifest := v;
     Args.intent := Args.intent args; Args.json := Args.json args;
     Args.help := Args.help args |}.

Definition set_intent (args : Args.t) (v : value) : Args.t :=
  {| Args.positional := Args.positional args; Args.manifest := Args.manifest args;
     Args.intent := v; Args.json := Args.json args; Args.help := Args.help args |}.

(** [args._.push(arg)]. *)
Definition push_positional (args : Args.t) (arg : string) : Args.t :=
  {| Args.positional := Args.positional args ++ [arg]; Args.manifest := Args.manifest args;
     Args.intent := Args.intent args; Args.json := Args.json args;
     Args.help := Args.help args |}.

(** [s.startsWith(prefix)]. *)
Definition startsWith (s prefix : string) : bool := String.prefix prefix s.

(** [s.split(c)] for a one-character separator: never empty. *)
Fixpoint split (s : string) (c : ascii) : list string :=
  match s with
  | EmptyString => [EmptyString]
  | String a s' =>
      if decide (a = c) then EmptyString :: split s' c
      else match split s' c with
           | piece :: pieces => String a piece :: pieces
           | [] => [String a EmptyString]
           end
  end.

(** [xs[i]] on an array of strings: undefined past the end. *)
Definition at_index (xs : list string) (i : nat) : value :=
  match xs !! i with
  | Some s => VStr s
  | None => VUndefined
  end.

(** The loop of parseArgs from one index on: [argv] is what is left of the
    command line there.  A flag that takes a value reads the next argument,
    whatever it is, and steps over it. *)
Fixpoint parse_from (args : Args.t) (argv : list string) : Args.t :=
  match argv with
  | [] => args
  | arg :: rest =>
      if String.eqb arg "--help" || String.eqb arg "-h" then
        parse_from (set_help args) rest
      else if String.eqb arg "--json" then
        parse_from (set_json args) rest
      else if String.eqb arg "--manifest" || String.eqb arg "-m" then
        match rest with
        | next :: rest' => parse_from (set_manifest args (VStr next)) rest'
        | [] => set_manifest args VUndefined
        end
      else if startsWith arg "--manifest=" then
        parse_from (set_manifest args (at_index (split arg "=") 1)) rest
      else if String.eqb arg "--intent" || String.eqb arg "-i" then
        match rest with
        | next :: rest' => parse_from (set_intent args (VStr next)) rest'
        | [] => set_intent args VUndefined
        end
      else if startsWith arg "--intent=" then
        parse_from (set_intent args (at_index (split arg "=") 1)) rest
      else
        parse_from (push_positional args arg) rest
  end.

Definition parseArgs (argv : list string) : Args.t :=
  parse_from {| Args.positional := []; Args.manifest := VNull; Args.intent := VNull;
                Args.json := false; Args.help := false |} argv.

(** [process.env.NAME]. *)
Definition env_var (env : gmap string string) (name : string) : value :=
  match env !! name with
  | Some s => VStr s
  | None => VUndefined
  end.

Definition resolveManifestPath (env : gmap string string) (args : Args.t) : value :=
  or_else (or_else (Args.manifest args) (env_var env "NEXUS_MANIFEST")) (VStr "nexus.yaml").

(** What a run of the command line acts on: the file system, the
    environment, the clock as [new Date().toISOString()] reads it, the lines
    console.log has written (oldest first) and process.exitCode. *)
Record Process := {
  files : FS;
  env : gmap string string;
  clock : string;
  stdout : list string;
  exitCode : option Z;
}.

Definition console_log (line : string) (p : Process) : Process :=
  {| files := files p; env := env p; clock := clock p;
     stdout := stdout p ++ [line]; exitCode := exitCode p |}.

Definition set_files (fs : FS) (p : Process) : Process :=
  {| files := fs; env := env p; clock := clock p;
     stdout := stdout p; exitCode := exitCode p |}.

Definition set_exitCode (code : Z) (p : Process) : Process :=
  {| files := files p; env := env p; clock := clock p;
     stdout := stdout p; exitCode := Some code |}.

Definition help_text : list string :=
  ["Usage: nexus <command> [options]";
   "";
   "Commands:";
   "  status            Show desired vs observed state";
   "  graph             Show dependency graph";
   "  dev               Resolve and persist local state";
   "  sync              Align local state to manifest";
   "";
   "Options:";
   "  -m, --manifest    Path to nexus.yaml";
   "  -i, --intent      Intent name to resolve";
   "  --json            JSON output";
   "  -h, --help        Show help";
   "";
   "Environment:";
   "  NEXUS_MANIFEST    Default manifest path"].

Definition printHelp (p : Process) : Process :=
  fold_left (λ p line, console_log line p) help_text p.

Definition printSummary (summary : Summary) (p : Process) : Process :=
  console_log ("Healthy: " +:+ decimal (healthy summary)
               +:+ ", Missing: " +:+ decimal (missing summary)
               +:+ ", Unknown: " +:+ decimal (unknown summary)) p.

(** SameValueZero, the test a Set uses.  It is equality of content on
    undefined, null, booleans, numbers and strings; an array or an object is
    told from another by content too, where JavaScript goes by identity. *)
Fixpoint same_value (a b : value) : bool :=
  match a, b with
  | VUndefined, VUndefined => true
  | VNull, VNull => true
  | VBool x, VBool y => Bool.eqb x y
  | VNum x, VNum y =>
      match x, y with
      | NaN, NaN => true
      | Infinity s, Infinity t => Bool.eqb s t
      | Finite z, Finite w => (z =? w)%Z
      | _, _ => false
      end
  | VStr x, VStr y => String.eqb x y
  | VArr xs, VArr ys =>
      (fix all2 (xs ys : list value) : bool :=
         match xs, ys with
         | [], [] => true
         | x :: xs', y :: ys' => same_value x y && all2 xs' ys'
         | _, _ => false
         end) xs ys
  | VObj ps, VObj qs =>
      (fix all2 (ps qs : list (string * value)) : bool :=
         match ps, qs with
         | [], [] => true
         | (k, x) :: ps', (l, y) :: qs' => String.eqb k l && same_value x y && all2 ps' qs'
         | _, _ => false
         end) ps qs
  | _, _ => false
  end.

(** [set.add(x)] on a Set in insertion order. *)
Definition Set_add (set : list value) (x : value) : list value :=
  if existsb (same_value x) set then set else set ++ [x].

(** The < operator on strings, on their code units: the first unit that
    differs decides, and a proper prefix comes first. *)
Fixpoint units_before (us vs : list N) : bool :=
  match us, vs with
  | _, [] => false
  | [], _ :: _ => true
  | u :: us', v :: vs' =>
      if (u <? v)%N then true
      else if (v <? u)%N then false
      else units_before us' vs'
  end.

Section Printing.
Context `{platform : Platform} `{display : Display}.

Definition printResults (results : list Validated) (p : Process) : Process :=
  match results with
  | [] => console_log "No states resolved." p
  | _ =>
      fold_left (λ p result,
        let key := serviceName (item result) +:+ ":" +:+ ToString (stateId (item result)) in
        let status := status (observation result) in
        console_log (key +:+ " [" +:+ ToString (type (item result)) +:+ "] -> " +:+ status) p)
        results p
  end.

(** The default order of Array.prototype.sort: undefined last, the rest by
    their strings, compared code unit by code unit.  [sorts_after x y] is
    SortCompare(x, y) > 0. *)
Definition sorts_after (x y : value) : bool :=
  match x, y with
  | VUndefined, _ => match y with VUndefined => false | _ => true end
  | _, VUndefined => false
  | _, _ => units_before (code_units (ToString y)) (code_units (ToString x))
  end.

(** The sort is stable: an element goes after the ones it does not have to
    precede. *)
Fixpoint insert_sorted (x : value) (sorted : list value) : list value :=
  match sorted with
  | [] => [x]
  | y :: sorted' =>
      if sorts_after y x then x :: y :: sorted' else y :: insert_sorted x sorted'
  end.

Definition Array_sort (xs : list value) : list value :=
  fold_left (λ sorted x, insert_sorted x sorted) xs [].

Definition listPendingTypes (results : list Validated) : list value :=
  let types :=
    fold_left (λ types result,
      if negb (String.eqb (status (observation result)) "healthy")
      then Set_add types (type (item result))
      else types) results [] in
  Array_sort types.

End Printing.

Definition formatResultJson (result : Validated) : value :=
  VObj [("service", VStr (serviceName (item result)));
        ("state", stateId (item result));
        ("type", type (item result));
        ("status", VStr (status (observation result)));
        ("evidence", VObj (evidence (observation result)))].

(** A count as a JavaScript number. *)
Definition count (n : nat) : value := VNum (Finite (Z.of_nat n)).

(** The summary and an edge as the objects they are, for JSON.stringify. *)
Definition summary_value (summary : Summary) : value :=
  VObj [("healthy", count (healthy summary));
        ("missing", count (missing summary));
        ("unknown", count (unknown summary));
        ("total", match total summary with Some n => count n | None => VUndefined end)].

Definition edge_value (edge : GraphEdge) : value :=
  VObj [("from", VStr (from edge)); ("to", to edge); ("reason", VStr (reason edge))].

Definition UnknownCommand (command : string) : exn :=
  Error ("Unknown command: " +:+ command).

Section CommandLine.
Context `{platform : Platform} `{yaml : Yaml} `{display : Display}.

(** console.log writes "undefined" for the undefined that JSON.stringify
    returns on a value without a JSON text. *)
Definition printJson (payload : value) (p : Process) : Process :=
  console_log (default "undefined" (JSON_stringify payload)) p.

(** In each handler every step that can throw comes before the first line
    is written, so a thrown exception leaves nothing on stdout. *)
Definition handleStatus (args : Args.t) (p : Process) : result Process :=
  let manifestPath := resolveManifestPath (env p) args in
  loaded ← loadManifest (files p) manifestPath;
  let manifest := Loaded.manifest loaded in
  let manifestHash := Loaded.manifestHash loaded in
  intentName ← resolveIntentName manifest (Args.intent args);
  plan ← buildPlan manifest intentName;
  results ← validatePlan (files p) plan (Loaded.projectRoot loaded);
  let summary := summarizeResults results in
  state ← loadState (files p) DEFAULT_STATE_PATH;
  stateHash ← read_of state "manifestHash";
  let stale :=
    if truthy stateHash then VBool (negb (is_str stateHash manifestHash)) else stateHash in
  resolved ← path_resolve <$> path_arg manifestPath;
  if Args.json args then
    Return (printJson
      (VObj [("manifest", VStr resolved);
             ("intent", intentName);
             ("manifestHash", VStr manifestHash);
             ("stateHash", or_else stateHash VNull);
             ("stateStale", stale);
             ("summary", summary_value summary);
             ("results", VArr (formatResultJson <$> results))]) p)
  else
    let p := console_log ("Nexus status (intent: " +:+ ToString intentName +:+ ")") p in
    let p := console_log ("Manifest: " +:+ resolved) p in
    let p := console_log ("Manifest hash: " +:+ manifestHash) p in
    let p :=
      if truthy stateHash
      then console_log ("State: " +:+ DEFAULT_STATE_PATH
                        +:+ (if truthy stale then " (stale)" else "")) p
      else console_log ("State: " +:+ DEFAULT_STATE_PATH +:+ " (missing)") p in
    let p := console_log "" p in
    let p := printResults results p in
    let p := console_log "" p in
    Return (printSummary summary p).

Definition handleGraph (args : Args.t) (p : Process) : result Process :=
  let manifestPath := resolveManifestPath (env p) args in
  loaded ← loadManifest (files p) manifestPath;
  edges ← buildGraph (Loaded.manifest loaded);
  if Args.json args then
    Return (printJson (VObj [("edges", VArr (edge_value <$> edges))]) p)
  else
    let p := console_log "Nexus graph" p in
    match edges with
    | [] => Return (console_log "No edges found." p)
    | _ =>
        Return (fold_left (λ p edge,
                  console_log (from edge +:+ " -> " +:+ ToString (to edge)
                               +:+ " (" +:+ reason edge +:+ ")") p) edges p)
    end.

Definition handleLifecycle (args : Args.t) (mode : string) (p : Process)
  : result Process :=
  let manifestPath := resolveManifestPath (env p) args in
  loaded ← loadManifest (files p) manifestPath;
  let manifest := Loaded.manifest loaded in
  let manifestHash := Loaded.manifestHash loaded in
  intentName ← resolveIntentName manifest (Args.intent args);
  plan ← buildPlan manifest intentName;
  results ← validatePlan (files p) plan (Loaded.projectRoot loaded);
  let summary := summarizeResults results in
  state ← loadState (files p) DEFAULT_STATE_PATH;
  nextState ← updateState state results (VStr manifestHash) (clock p);
  written ← writeState (files p) nextState DEFAULT_STATE_PATH;
  let p := set_files written p in
  if Args.json args then
    Return (printJson
      (VObj [("mode", VStr mode);
             ("intent", intentName);
             ("summary", summary_value summary);
             ("results", VArr (formatResultJson <$> results));
             ("state", VStr DEFAULT_STATE_PATH)]) p)
  else
    let p := console_log ("Nexus " +:+ mode +:+ " (intent: " +:+ ToString intentName +:+ ")") p in
    let p := console_log ("Resolved " +:+ decimal (length results) +:+ " states.") p in
    let p := printSummary summary p in
    let pending := missing summary + unknown summary in
    let p :=
      if (0 <? pending)%nat then
        let types := listPendingTypes results in
        let p := console_log "" p in
        let p := console_log "No reconcilers registered for:" p in
        let p := fold_left (λ p type, console_log ("- " +:+ ToString type) p) types p in
        let p := console_log "Use plugins to reconcile missing states." p in
        set_exitCode 1 p
      else p in
    let p := console_log "" p in
    Return (console_log ("State saved to " +:+ DEFAULT_STATE_PATH) p).

Definition run (argv : list string) (p : Process) : result Process :=
  let args := parseArgs argv in
  let command := str_or (head (Args.positional args)) "help" in
  if Args.help args || String.eqb command "help" || String.eqb command "--help" then
    Return (printHelp p)
  else if String.eqb command "status" then handleStatus args p
  else if String.eqb command "graph" then handleGraph args p
  else if String.eqb command "dev" || String.eqb command "sync" then
    handleLifecycle args command p
  else Throw (UnknownCommand command).

End CommandLine.

(** ** What the specification says, in its own words *)

(** Intent resolution as section 4.3 words it: a supplied name is taken iff
    declared; without one, the explicit defaultIntent, else "feature", else
    the first declared intent, else NoIntents.  Declared is: a name of the
    intents map. *)
Definition intents_of (manifest : value) : obj value :=
  match get manifest "intents" with
  | VObj declared => declared
  | _ => []
  end.

Definition declares (manifest : value) (name : string) : bool :=
  bool_decide (is_Some (obj_get (intents_of manifest) name)).

Definition resolveIntentName_spec (manifest intentName : value) : result value :=
  match intentName with
  | VStr name =>
      if declares manifest name then Return intentName
      else Throw (IntentNotFound name)
  | _ =>
      if negb (nullish (get manifest "defaultIntent"))
      then Return (get manifest "defaultIntent")
      else if declares manifest "feature" then Return (VStr "feature")
      else match (intents_of manifest).*1 with
           | first :: _ => Return (VStr first)
           | [] => Throw NoIntents
           end
  end.

(** ** The engine, in words *)

(** What [map[name]] finds in a map of the manifest, as a test: a name the
    map declares with a truthy body, or a member name of Object.prototype
    that the map does not declare. *)
Definition found (declared : obj value) (name : string) : bool :=
  match obj_get declared name with
  | Some body => truthy body
  | None => bool_decide (name ∈ Object_prototype)
  end.

(** Where resolveIntentName goes when no name is supplied and the default
    is passed over: "feature", else the first name of the map. *)
Definition first_choice (declared : obj value) : result value :=
  if found declared "feature" then Return (VStr "feature")
  else match declared.*1 with
       | first :: _ => Return (VStr first)
       | [] => Throw NoIntents
       end.

(** The number of results whose status passes [test]. *)
Definition count_status (test : string → bool) (results : list Validated) : nat :=
  length (List.filter (λ result, test (status (observation result))) results).

(** The three buckets of summarizeResults, as tests on a status. *)
Definition is_healthy (s : string) : bool := String.eqb s "healthy".
Definition is_missing (s : string) : bool := String.eqb s "missing".
Definition is_other (s : string) : bool := negb (is_healthy s) && negb (is_missing s).

(** The state IDs an entry of [intent.desired.services] lists. *)
Definition wanted_ids (desired : value) : list value :=
  match get desired "states" with
  | VArr items => items
  | _ => []
  end.

Section Words.
Context `{platform : Platform} `{display : Display}.

(** What a service has under a state ID, when it is a value of the
    document. *)
Definition state_of (service stateId : value) : value :=
  match index (get service "states") (ToString stateId) with
  | Return (Data state) => state
  | _ => VUndefined
  end.

(** Whether a state of a service resolves: the service has states, and what
    it has under the ID is truthy, with a truthy type. *)
Definition state_ok (service : value) (stateId : value) : bool :=
  truthy (get service "states")
  && truthy (state_of service stateId)
  && truthy (get (state_of service stateId) "type").

(** The plan item of a state that resolves. *)
Definition item_of (serviceName : string) (service stateId : value) : PlanItem :=
  {| serviceName := serviceName;
     stateId := stateId;
     type := get (state_of service stateId) "type";
     config := state_of service stateId;
     service := service |}.

(** The same for the service a services map declares under a name; a name
    the map does not declare has no state. *)
Definition state_found (declared : obj value) (serviceName : string)
    (stateId : value) : bool :=
  match obj_get declared serviceName with
  | Some service => state_ok service stateId
  | None => false
  end.

(** Whether an entry of [intent.desired.services] resolves in a services
    map: its service is found, the entry is not null, and each state it
    lists resolves. *)
Definition entry_ok (declared : obj value) (entry : string * value) : bool :=
  found declared entry.1
  && negb (nullish entry.2)
  && forallb (state_found declared entry.1) (wanted_ids entry.2).

(** The (service, state) pairs an intent asks for, in order, and the pair
    of a plan item. *)
Definition asked (entries : obj value) : list (string * value) :=
  flat_map (λ entry : string * value, (λ stateId, (entry.1, stateId)) <$> wanted_ids entry.2)
    entries.

Definition asked_of (item : PlanItem) : string * value :=
  (serviceName item, stateId item).

(** The same pairs with the state ID as the property name it is used as. *)
Definition obligations (entries : obj value) : list (string * string) :=
  flat_map (λ entry : string * value,
              (λ stateId, (entry.1, ToString stateId)) <$> wanted_ids entry.2)
    entries.

Definition obligation (item : PlanItem) : string * string :=
  (serviceName item, ToString (stateId item)).

(** A plan item that resolves in a services map: its service is the one the
    map declares under its name, its config what that service has under its
    state ID, its type the type of that state, and truthy. *)
Definition resolves (declared : obj value) (item : PlanItem) : Prop :=
  obj_get declared (serviceName item) = Some (service item)
  ∧ index (get (service item) "states") (ToString (stateId item))
    = Return (Data (config item))
  ∧ type item = get (config item) "type"
  ∧ truthy (type item) = true.

(** The key addEdge gives an edge, and what links [edges] and [seen]
    throughout buildGraph: [seen] holds the keys of [edges], each once. *)
Definition key_of_edge (edge : GraphEdge) : string :=
  edge_key (from edge) (to edge) (reason edge).

Definition seen_tracks_edges (st : list GraphEdge * gset string) : Prop :=
  (∀ key, key ∈ st.2 ↔ key ∈ key_of_edge <$> st.1) ∧ NoDup (key_of_edge <$> st.1).

(** The entries buildGraph goes through. *)
Definition service_entries (manifest : value) : obj value :=
  Object_entries (or_else (get manifest "services") (VObj [])).

(** What a service requires, as the loop of buildGraph goes through it:
    the items of an array or the code points of a string.  Anything else
    that is truthy stops buildGraph, and so does a service that is null. *)
Definition required_of (service : value) : option (list value) :=
  let declared := get service "requires" in
  match or_else (if truthy declared then get declared "services" else declared) (VArr []) with
  | VArr items => Some items
  | VStr s => Some (VStr <$> code_points s)
  | _ => None
  end.

Definition graph_ready (entry : string * value) : bool :=
  negb (nullish entry.2) && bool_decide (is_Some (required_of entry.2)).

(** The provider an env binding names: the text before the first dot of a
    [from] that is a string with a dot in it. *)
Definition provider_of (binding : value) : option string :=
  match (if truthy binding then get binding "from" else binding) with
  | VStr source => if includes source "." then Some (split_first source ".") else None
  | _ => None
  end.

(** The edges a service declares, in the order buildGraph meets them, and
    those of a whole manifest. *)
Definition candidates_of (entry : string * value) : list GraphEdge :=
  ((λ required, {| from := entry.1; to := required; reason := "requires" |})
     <$> default [] (required_of entry.2))
  ++ omap (λ consumed : string * value,
             (λ provider, {| from := entry.1; to := VStr provider;
                             reason := "consumes " +:+ consumed.1 |})
               <$> provider_of consumed.2)
       (Object_entries (consumes_of entry.2)).

Definition edge_candidates (manifest : value) : list GraphEdge :=
  flat_map candidates_of (service_entries manifest).

(** addEdge on an edge. *)
Definition add_edge (st : list GraphEdge * gset string) (edge : GraphEdge)
  : list GraphEdge * gset string :=
  addEdge st (from edge) (to edge) (reason edge).

(** Names that keep the key of an edge readable: no ">" in the source, and
    a target that is a string without ":". *)
Definition plain_names (edge : GraphEdge) : Prop :=
  includes (from edge) ">" = false
  ∧ ∃ target, to edge = VStr target ∧ includes target ":" = false.

(** [item.service.root || "."]. *)
Definition service_root (item : PlanItem) : value :=
  or_else (get (service item) "root") (VStr ".").

(** The property of the config that the observer of a type reads first. *)
Definition reads (type : value) : option string :=
  if is_str type "package.deps" then Some "lockfile"
  else if is_str type "db.schema" then Some "source"
  else if is_str type "env.export" then Some "keys"
  else if is_str type "env.inherit" then Some "from"
  else if is_str type "process.http" then Some "port"
  else None.

(** The value an observer hands to path.join or path.resolve: the lockfile
    of package.deps, with its default, and the source of db.schema when it
    is set. *)
Definition path_value (item : PlanItem) : option value :=
  if is_str (type item) "package.deps"
  then Some (or_else (get (config item) "lockfile") (VStr "package-lock.json"))
  else if is_str (type item) "db.schema"
  then (if truthy (get (config item) "source") then Some (get (config item) "source")
        else None)
  else None.

(** The path an observer looks at, under the resolved root of the
    service. *)
Definition observed_path (item : PlanItem) (resolvedRoot : string) : option string :=
  match path_value item with
  | Some (VStr s) =>
      Some (if is_str (type item) "package.deps"
            then path_join resolvedRoot s
            else path_resolve2 resolvedRoot s)
  | _ => None
  end.

(** When the observer of an item throws, and what: a config that is null
    or undefined, a lockfile or source that is set to something other than
    a string, a directory where the file is looked for, a finite port that
    socket.connect refuses. *)
Inductive fails_in (fs : FS) (item : PlanItem) (resolvedRoot : string) : exn → Prop :=
| fails_config (k : string) :
    reads (type item) = Some k →
    nullish (config item) = true →
    fails_in fs item resolvedRoot (cannot_read k)
| fails_path (v : value) (e : exn) :
    nullish (config item) = false →
    path_value item = Some v →
    path_arg v = Throw e →
    fails_in fs item resolvedRoot e
| fails_directory (p : string) :
    nullish (config item) = false →
    observed_path item resolvedRoot = Some p →
    fs !! p = Some Directory →
    fails_in fs item resolvedRoot (SystemError "EISDIR" p)
| fails_connect (e : exn) :
    nullish (config item) = false →
    is_str (type item) "process.http" = true →
    Number_isFinite (Number (get (config item) "port")) = true →
    socket_connect (or_else (get (config item) "host") (VStr "127.0.0.1"))
      (Number (get (config item) "port")) 300 = ConnectThrows e →
    fails_in fs item resolvedRoot e.

(** When observeState throws, and what: a service that is null or
    undefined, a root that is set to something other than a string, or what
    the observer of the item throws. *)
Inductive fails (fs : FS) (item : PlanItem) (projectRoot : string) : exn → Prop :=
| fails_service :
    nullish (service item) = true →
    fails fs item projectRoot (cannot_read "root")
| fails_root (e : exn) :
    nullish (service item) = false →
    path_arg (service_root item) = Throw e →
    fails fs item projectRoot e
| fails_observer (r : string) (e : exn) :
    nullish (service item) = false →
    service_root item = VStr r →
    fails_in fs item (path_resolve2 projectRoot r) e →
    fails fs item projectRoot e.

(** The last result of the list that has the key. *)
Fixpoint last_with_key (results : list Validated) (key : string) : option Validated :=
  match results with
  | [] => None
  | result :: rest =>
      match last_with_key rest key with
      | Some later => Some later
      | None => if decide (state_key result = key) then Some result else None
      end
  end.

End Words.

(** The persisted key of an obligation. *)
Definition key_of (pair : string * string) : string := pair.1 +:+ ":" +:+ pair.2.

(** [previous.observations[key]], where [previous] is an object. *)
Definition previous_record (existingState : value) (key : string) : value :=
  get (get existingState "observations") key.

(** The lastAppliedAt that updateState writes under a key. *)
Definition carried (existingState : value) (key : string) : value :=
  let known := get existingState "observations" in
  let previous := if truthy known then get known key else VNull in
  if truthy previous then get previous "lastAppliedAt" else VNull.

Section Records.
Context `{display : Display}.

(** The whole record updateState writes for a result. *)
Definition record_of (existingState : value) (now : string) (entry : Validated) : value :=
  VObj [("status", VStr (status (observation entry)));
        ("evidence", VObj (evidence (observation entry)));
        ("lastValidatedAt", VStr now);
        ("lastAppliedAt", carried existingState (state_key entry))].

End Records.

Section Durability.
Context `{platform : Platform}.

(** What the state store asks of the platform: JSON.parse gives back every
    JSON value from the text JSON.stringify wrote for it. *)
Definition JSON_round_trips : Prop :=
  ∀ v, json_value v = true →
       ∃ text, JSON_stringify v = Some text ∧ JSON_parse text = Some v.

(** Where writeState can write: path.dirname names the directory that holds
    the file, no directory on the way to the file is a file, and the file is
    not a directory. *)
Definition writable (fs : FS) (statePath : string) : Prop :=
  let absolutePath := path_resolve statePath in
  let dir := path_dirname absolutePath in
  above absolutePath = above dir ++ [dir]
  ∧ (∀ d content, d ∈ above absolutePath → fs !! d ≠ Some (File content))
  ∧ fs !! absolutePath ≠ Some Directory.

End Durability.

(** ** Concrete inputs *)

(** A file in a file system, with the directories above it. *)
Definition with_file (p content : string) (fs : FS) : FS :=
  <[p := File content]> (foldr (λ d fs, <[d := Directory]> fs) fs (above p)).

Definition with_directory (p : string) (fs : FS) : FS :=
  <[p := Directory]> (foldr (λ d fs, <[d := Directory]> fs) fs (above p)).

(** A state file as the engine writes it, with one healthy record. *)
Definition state_on_disk : value :=
  VObj [("manifestHash", VStr "sha256:0f");
        ("observations",
         VObj [("api:deps",
                VObj [("status", VStr "healthy");
                      ("evidence", VObj [("lockfile", VStr "/work/services/api/pnpm-lock.yaml");
                                         ("checksum", VStr "sha256:aa")]);
                      ("lastValidatedAt", VStr "2026-02-01T12:10:05.000Z");
                      ("lastAppliedAt", VStr "2026-02-01T12:09:42.000Z")]);
               ("api:gone",
                VObj [("status", VStr "missing");
                      ("evidence", VObj []);
                      ("lastValidatedAt", VStr "2026-02-01T12:10:05.000Z");
                      ("lastAppliedAt", VNull)])])].

(** An entry of desired.services, and an intent that has them. *)
Definition wants (stateIds : list string) : value :=
  VObj [("states", VArr (VStr <$> stateIds))].

Definition intent_on (entries : obj value) : value :=
  VObj [("desired", VObj [("services", VObj entries)])].

(** defaultIntent names an intent that is not declared. *)
Definition dangling_default : value :=
  VObj [("defaultIntent", VStr "ghost");
        ("intents", VObj [("dev", intent_on [])]);
        ("services", VObj [])].

(** defaultIntent is not declared either, but is a member name of
    Object.prototype. *)
Definition inherited_default : value :=
  VObj [("defaultIntent", VStr "constructor");
        ("intents", VObj [("dev", intent_on [])]);
        ("services", VObj [])].

Definition deps_state : value :=
  VObj [("type", VStr "package.deps"); ("lockfile", VStr "pnpm-lock.yaml")].

Definition schema_state : value :=
  VObj [("type", VStr "db.schema"); ("source", VStr "prisma/schema.prisma")].

Definition api_service : value :=
  VObj [("root", VStr "services/api");
        ("states", VObj [("deps", deps_state); ("schema", schema_state)])].

Definition manifest_with (entries : obj value) : value :=
  VObj [("intents", VObj [("dev", intent_on entries)]);
        ("services", VObj [("api", api_service)])].

(** The intent names a declared service, then one that is not declared. *)
Definition ghost_service : value :=
  manifest_with [("api", wants ["deps"]); ("ghost", wants ["deps"])].

(** The same, but the declared service is asked for a state it lacks. *)
Definition ghost_after_lost_state : value :=
  manifest_with [("api", wants ["nope"]); ("ghost", wants ["deps"])].

(** The intent lists one state twice. *)
Definition repeated_state : value :=
  manifest_with [("api", wants ["deps"; "deps"])].

Definition two_states : value :=
  manifest_with [("api", wants ["deps"; "schema"])].

(** A project directory: the lockfile and the schema of "api" are there. *)
Definition disk : FS :=
  with_file "/work/services/api/pnpm-lock.yaml" "lockfileVersion: 9"
    (with_file "/work/services/api/prisma/schema.prisma" "model User {}" ∅).

(** The plan items of "api", and what they observe on [disk]. *)
Definition deps_item : PlanItem :=
  {| serviceName := "api"; stateId := VStr "deps"; type := VStr "package.deps";
     config := deps_state; service := api_service |}.

Definition schema_item : PlanItem :=
  {| serviceName := "api"; stateId := VStr "schema"; type := VStr "db.schema";
     config := schema_state; service := api_service |}.

Definition deps_healthy : Validated :=
  {| item := deps_item;
     observation :=
       {| status := "healthy";
          evidence := [("lockfile", VStr "/work/services/api/pnpm-lock.yaml");
                       ("checksum", VStr "sha256:digest-of-lockfileVersion: 9")] |} |}.

Definition schema_healthy : Validated :=
  {| item := schema_item;
     observation :=
       {| status := "healthy";
          evidence := [("source", VStr "/work/services/api/prisma/schema.prisma");
                       ("exists", VBool true);
                       ("checksum", VStr "sha256:digest-of-model User {}")] |} |}.

(** The schema path of "api" holds a directory. *)
Definition disk_schema_directory : FS :=
  with_directory "/work/services/api/prisma/schema.prisma" ∅.

(** The lockfile path of "api" holds a directory. *)
Definition disk_lockfile_directory : FS :=
  with_directory "/work/services/api/pnpm-lock.yaml" ∅.

(** The schema of a service whose root the manifest gives as a number
    ([root: 2024] in YAML). *)
Definition numbered_root_item : PlanItem :=
  {| serviceName := "api"; stateId := VStr "schema"; type := VStr "db.schema";
     config := schema_state;
     service := VObj [("root", VNum (Finite 2024));
                      ("states", VObj [("schema", schema_state)])] |}.

(** A manifest with such a service. *)
Definition numbered_root : value :=
  VObj [("intents", VObj [("dev", intent_on [("api", wants ["schema"])])]);
        ("services",
         VObj [("api", VObj [("root", VNum (Finite 2024));
                             ("states", VObj [("schema", schema_state)])])])].

(** Two services whose requires edges are different triples under one
    key: a -> "b->c" and "a->b" -> c. *)
Definition requiring (names : list string) : value :=
  VObj [("requires", VObj [("services", VArr (VStr <$> names))])].

Definition colliding_edges : value :=
  VObj [("intents", VObj []);
        ("services", VObj [("a", requiring ["b->c"]); ("a->b", requiring ["c"])])].

(** What observeState returns for the schema of "api" when the file is not
    there, the state updateState builds from it, and that state after
    JSON.stringify and JSON.parse. *)
Definition schema_missing : Validated :=
  {| item := schema_item;
     observation :=
       {| status := "missing";
          evidence := [("source", VStr "/work/services/api/prisma/schema.prisma");
                       ("exists", VBool false);
                       ("checksum", VUndefined)] |} |}.

Definition state_to_write : value :=
  VObj [("manifestHash", VStr "sha256:1c");
        ("observations",
         VObj [("api:schema",
                VObj [("status", VStr "missing");
                      ("evidence",
                       VObj [("source", VStr "/work/services/api/prisma/schema.prisma");
                             ("exists", VBool false);
                             ("checksum", VUndefined)]);
                      ("lastValidatedAt", VStr "2026-02-02T08:00:00.000Z");
                      ("lastAppliedAt", VNull)])])].

Definition state_read_back : value :=
  VObj [("manifestHash", VStr "sha256:1c");
        ("observations",
         VObj [("api:schema",
                VObj [("status", VStr "missing");
                      ("evidence",
                       VObj [("source", VStr "/work/services/api/prisma/schema.prisma");
                             ("exists", VBool false)]);
                      ("lastValidatedAt", VStr "2026-02-02T08:00:00.000Z");
                      ("lastAppliedAt", VNull)])])].

Definition disk_after (written : result FS) : FS :=
  match written with
  | Return fs => fs
  | Throw _ => ∅
  end.

(** A state file that holds the JSON text null. *)
Definition disk_null_state : FS :=
  with_file "/work/.nexus/state.json" "null" ∅.

(** ** The command line, in words *)

(** The flags that read the next argument as their value. *)
Definition takes_value (arg : string) : bool :=
  String.eqb arg "--manifest" || String.eqb arg "-m"
  || String.eqb arg "--intent" || String.eqb arg "-i".

(** The arguments parseArgs recognises as options. *)
Definition is_option (arg : string) : bool :=
  String.eqb arg "--help" || String.eqb arg "-h" || String.eqb arg "--json"
  || takes_value arg
  || startsWith arg "--manifest=" || startsWith arg "--intent=".

(** Whether a command line ends in a flag that still waits for its value. *)
Fixpoint dangling (argv : list string) : bool :=
  match argv with
  | [] => false
  | arg :: rest =>
      if takes_value arg
      then match rest with
           | [] => true
           | _ :: rest' => dangling rest'
           end
      else dangling rest
  end.

(** The ways to give the manifest option. *)
Definition gives_manifest (arg : string) : Prop :=
  arg = "--manifest" ∨ arg = "-m" ∨ startsWith arg "--manifest=" = true.

Definition gives_intent (arg : string) : Prop :=
  arg = "--intent" ∨ arg = "-i" ∨ startsWith arg "--intent=" = true.

(** ** The default sort order, in words *)

Section Order.
Context `{platform : Platform}.

(** The order of the sort on strings: [a] is not after [b], by their code
    units. *)
Definition not_after (a b : string) : Prop :=
  units_before (code_units b) (code_units a) = false.

End Order.

(** ** The persisted state, in words *)

(** A state none of whose records has been applied: every record under
    observations has a null lastAppliedAt. *)
Definition unapplied (state : value) : Prop :=
  ∀ key, truthy (previous_record state key) = true →
         get (previous_record state key) "lastAppliedAt" = VNull.

(** What JSON keeps of a value: a property whose value is undefined is
    left out, an undefined item of an array and a number that is not finite
    become null. *)
Fixpoint kept (v : value) : value :=
  match v with
  | VNum n => match n with Finite _ => v | _ => VNull end
  | VArr items =>
      VArr (map (λ item, match item with VUndefined => VNull | _ => kept item end) items)
  | VObj props =>
      VObj (omap (λ p : string * value,
                    match p.2 with
                    | VUndefined => None
                    | _ => Some (p.1, kept p.2)
                    end) props)
  | _ => v
  end.

(** Property names are distinct in every object of a value, as they are in
    every JavaScript object. *)
Fixpoint distinct_keys (v : value) : bool :=
  match v with
  | VArr items => forallb distinct_keys items
  | VObj props =>
      bool_decide (NoDup props.*1)
      && forallb (λ p : string * value, distinct_keys p.2) props
  | _ => true
  end.

Section Kept.
Context `{platform : Platform}.

(** What the state store asks of the platform for any value: JSON.parse
    reads from the text of JSON.stringify what JSON keeps of the value. *)
Definition JSON_reads_kept : Prop :=
  ∀ v, v ≠ VUndefined → distinct_keys v = true →
       ∃ text, JSON_stringify v = Some text ∧ JSON_parse text = Some (kept v).

End Kept.

(** ** The handlers, in words *)

(** A process after writing to the console only: same files, environment,
    clock and exit code. *)
Definition same_but_stdout (p p' : Process) : Prop :=
  files p' = files p ∧ env p' = env p ∧ clock p' = clock p ∧ exitCode p' = exitCode p.

(** The command run dispatches on: the first positional argument, "help"
    when there is none or it is empty. *)
Definition command_of (argv : list string) : string :=
  str_or (head (Args.positional (parseArgs argv))) "help".

(** Whether every result is healthy. *)
Definition all_healthy (results : list Validated) : bool :=
  forallb (λ result, String.eqb (status (observation result)) "healthy") results.

(** ** A command line to run

    An executable stand-in for js-yaml on manifests written in the JSON
    subset of YAML, and a project to run the command line in. *)

Definition demo_yaml : Yaml :=
  {| yaml_load := λ text,
       match MiniJSON.parse text with
       | Some document => Return document
       | None => Throw (Error "YAMLException")
       end |}.

(** A manifest: "api" with its lockfile and schema, "web" that requires it
    and reads its URL, and one intent that wants the two states of "api". *)
Definition manifest_document : value :=
  VObj [("defaultIntent", VStr "dev");
        ("intents",
         VObj [("dev",
                VObj [("desired",
                       VObj [("services",
                              VObj [("api",
                                     VObj [("states",
                                            VArr [VStr "deps"; VStr "schema"])])])])])]);
        ("services",
         VObj [("api",
                VObj [("root", VStr "services/api");
                      ("states",
                       VObj [("deps", VObj [("type", VStr "package.deps");
                                            ("lockfile", VStr "pnpm-lock.yaml")]);
                             ("schema", VObj [("type", VStr "db.schema");
                                              ("source", VStr "prisma/schema.prisma")])])]);
               ("web",
                VObj [("requires", VObj [("services", VArr [VStr "api"; VStr "api"])]);
                      ("consumes",
                       VObj [("env",
                              VObj [("API_URL", VObj [("from", VStr "api.url")]);
                                    ("MODE", VObj [("from", VStr "local")])])])])])].

Definition manifest_text : string :=
  default EmptyString (MiniJSON.stringify manifest_document).

(** The project directory with the manifest in it; the schema of "api" is
    not there. *)
Definition project : FS :=
  with_file "/work/nexus.yaml" manifest_text
    (with_file "/work/services/api/pnpm-lock.yaml" "lockfileVersion: 9" ∅).

Definition at_rest (fs : FS) : Process :=
  {| files := fs; env := ∅; clock := "2026-02-02T08:00:00.000Z";
     stdout := []; exitCode := None |}.

Definition after (run : result Process) : Process :=
  match run with
  | Return p => p
  | Throw _ => at_rest ∅
  end.

(** A result per type, all pending. *)
Definition deps_missing : Validated :=
  {| item := deps_item;
     observation :=
       {| status := "missing";
          evidence := [("lockfile", VStr "/work/services/api/pnpm-lock.yaml");
                       ("exists", VBool false)] |} |}.

(** Items of the types that read no file. *)
Definition export_item : PlanItem :=
  {| serviceName := "api"; stateId := VStr "env"; type := VStr "env.export";
     config := VObj [("type", VStr "env.export"); ("keys", VArr [VStr "API_URL"])];
     service := api_service |}.

Definition http_item : PlanItem :=
  {| serviceName := "api"; stateId := VStr "http"; type := VStr "process.http";
     config := VObj [("type", VStr "process.http"); ("port", VNum (Finite 4001))];
     service := api_service |}.

(** ** Strings *)

Lemma append_empty (s : string) : EmptyString +:+ s = s.
Proof. reflexivity. Qed.

Lemma append_String (a : ascii) (s t : string) : String a s +:+ t = String a (s +:+ t).
Proof. reflexivity. Qed.

(** ** summarizeResults *)

Lemma tally_counts (result : Validated) (summary : Summary) :
  healthy (tally summary result)
    = healthy summary + count_status is_healthy [result]
  ∧ missing (tally summary result)
    = missing summary + count_status is_missing [result]
  ∧ unknown (tally summary result)
    = unknown summary + count_status is_other [result].
Proof.
  unfold tally, count_status, is_other, is_healthy, is_missing. cbn [List.filter].
  destruct (String.eqb (status (observation result)) "healthy") eqn:Eh.
  - apply String.eqb_eq in Eh. rewrite Eh. cbn. lia.
  - destruct (String.eqb (status (observation result)) "missing"); cbn; lia.
Qed.

Lemma count_status_cons test (result : Validated) results :
  count_status test (result :: results)
    = count_status test [result] + count_status test results.
Proof. unfold count_status. cbn [List.filter]. destruct (test _); reflexivity. Qed.

Lemma summarize_fold (results : list Validated) (init : Summary) :
  healthy (fold_left tally results init)
    = healthy init + count_status is_healthy results
  ∧ missing (fold_left tally results init)
    = missing init + count_status is_missing results
  ∧ unknown (fold_left tally results init)
    = unknown init + count_status is_other results.
Proof.
  revert init. induction results as [|r results IH]; intros init.
  - cbn. lia.
  - cbn [fold_left]. destruct (IH (tally init r)) as (Hh & Hm & Hu).
    destruct (tally_counts r init) as (Th & Tm & Tu).
    rewrite Hh, Hm, Hu, Th, Tm, Tu, !(count_status_cons _ r results). lia.
Qed.

Lemma count_status_partition (results : list Validated) :
  count_status is_healthy results + count_status is_missing results
    + count_status is_other results = length results.
Proof.
  induction results as [|r results IH]; [reflexivity|].
  rewrite !(count_status_cons _ r results). cbn [length].
  enough (count_status is_healthy [r] + count_status is_missing [r]
            + count_status is_other [r] = 1) by lia.
  unfold count_status, is_other, is_healthy, is_missing. cbn [List.filter].
  destruct (String.eqb (status (observation r)) "healthy") eqn:Eh.
  - apply String.eqb_eq in Eh. rewrite Eh. reflexivity.
  - destruct (String.eqb (status (observation r)) "missing"); reflexivity.
Qed.

(** C9. For every result list, whatever strings its statuses are,
    summarizeResults counts the "healthy" ones, the "missing" ones, and puts
    every other status in the unknown bucket; total is the length of the
    list, and healthy + missing + unknown = total. *)
Theorem summarizeResults_partition (results : list Validated) :
  let summary := summarizeResults results in
  healthy summary = count_status is_healthy results
  ∧ missing summary = count_status is_missing results
  ∧ unknown summary = count_status is_other results
  ∧ total summary = Some (length results)
  ∧ healthy summary + missing summary + unknown summary = length results.
Proof.
  cbv zeta. unfold summarizeResults. cbn [healthy missing unknown total].
  destruct (summarize_fold results
              {| healthy := 0; missing := 0; unknown := 0; total := None |})
    as (Hh & Hm & Hu).
  cbn [healthy missing unknown] in Hh, Hm, Hu.
  rewrite Hh, Hm, Hu. cbn [Nat.add].
  repeat split. apply count_status_partition.
Qed.

(** ** Reading a map of the manifest *)

Section Maps.
Context `{platform : Platform}.

(** A computed name in an object: the own property, else a member of
    Object.prototype, else undefined. *)
Lemma index_object (declared : obj value) (k : string) :
  index (VObj declared) k
  = Return (match obj_get declared k with
            | Some x => Data x
            | None => if bool_decide (k ∈ Object_prototype) then Builtin else Data VUndefined
            end).
Proof.
  unfold index. cbn [nullish Object_entries own_length].
  destruct (obj_get declared k); [reflexivity|].
  unfold inherited. cbn [app]. destruct (bool_decide (k ∈ Object_prototype)); reflexivity.
Qed.

Lemma found_index (declared : obj value) (k : string) :
  truthy_member <$> index (VObj declared) k = Return (found declared k).
Proof.
  rewrite index_object. unfold found. cbn.
  destruct (obj_get declared k); [reflexivity|].
  destruct (bool_decide (k ∈ Object_prototype)); reflexivity.
Qed.

Lemma found_feature (declared : obj value) :
  truthy (get (VObj declared) "feature") = found declared "feature".
Proof.
  unfold found. cbn [get]. destruct (obj_get declared "feature"); reflexivity.
Qed.

Lemma found_cases (declared : obj value) (name : string) :
  found declared name = true
  ↔ (∃ body, obj_get declared name = Some body ∧ truthy body = true)
    ∨ (obj_get declared name = None ∧ name ∈ Object_prototype).
Proof.
  unfold found. destruct (obj_get declared name) as [body|].
  - split.
    + intros Htruthy. left. exists body. split; [reflexivity|exact Htruthy].
    + intros [(body' & [= <-] & Htruthy)|[[=] _]]. exact Htruthy.
  - rewrite bool_decide_eq_true. split.
    + intros Hin. right. split; [reflexivity|exact Hin].
    + intros [(body & [=] & _)|[_ Hin]]. exact Hin.
Qed.

Lemma get_object (v : value) (k : string) (props : obj value) :
  get v k = VObj props → nullish v = false.
Proof. destruct v; cbn; congruence. Qed.

End Maps.

(** ** resolveIntentName *)

Section Resolution.
Context `{platform : Platform} `{display : Display}.

(** resolveIntentName on a manifest whose intents is a map. *)
Lemma resolveIntentName_on_map (manifest intentName : value) (declared : obj value) :
  get manifest "intents" = VObj declared →
  resolveIntentName manifest intentName =
    if truthy intentName then
      if found declared (ToString intentName) then Return intentName
      else Throw (IntentNotFound (ToString intentName))
    else
      if truthy (get manifest "defaultIntent")
         && found declared (ToString (get manifest "defaultIntent"))
      then Return (get manifest "defaultIntent")
      else first_choice declared.
Proof.
  intros Hintents. unfold resolveIntentName, read_of.
  rewrite (get_object _ _ _ Hintents), Hintents. cbn [mbind result_bind].
  destruct (truthy intentName).
  - pose proof (found_index declared (ToString intentName)) as Hfound.
    destruct (index (VObj declared) (ToString intentName)) as [intent|e];
      cbn in Hfound; [|discriminate].
    injection Hfound as Hfound. cbn [mbind result_bind]. rewrite Hfound.
    destruct (found declared (ToString intentName)); reflexivity.
  - assert (∀ chosen : bool,
      (if chosen then Return (get manifest "defaultIntent")
       else (if truthy (get (VObj declared) "feature") then Return (VStr "feature")
             else match Object_keys (or_else (VObj declared) (VObj [])) with
                  | first :: _ => Return (VStr first)
                  | [] => Throw NoIntents
                  end))
      = (if chosen then Return (get manifest "defaultIntent") else first_choice declared))
      as Hrest.
    { intros [|]; [reflexivity|]. unfold first_choice. rewrite found_feature. reflexivity. }
    destruct (truthy (get manifest "defaultIntent")); cbn [andb mbind result_bind].
    + pose proof (found_index declared (ToString (get manifest "defaultIntent"))) as Hfound.
      destruct (index (VObj declared) (ToString (get manifest "defaultIntent")))
        as [intent|e]; cbn in Hfound; [|discriminate].
      injection Hfound as Hfound. cbn [fmap result_fmap mbind result_bind].
      cbn [nullish]. rewrite Hfound. apply Hrest.
    + cbn [nullish]. apply (Hrest false).
Qed.



End Resolution.





(** ** Loops *)

Lemma for_of_app {A S : Type} (xs ys : list A) (body : S → A → result S) (s : S) :
  for_of (xs ++ ys) body s = (s' ← for_of xs body s; for_of ys body s').
Proof.
  revert s. induction xs as [|x xs IH]; intros s; [reflexivity|].
  cbn [app for_of]. destruct (body s x) as [s'|e]; cbn; [apply IH|reflexivity].
Qed.

Lemma forallb_first_false {A : Type} (f : A → bool) (xs : list A) :
  forallb f xs = false →
  ∃ pre x post, xs = pre ++ x :: post ∧ forallb f pre = true ∧ f x = false.
Proof.
  induction xs as [|x xs IH]; [discriminate|]. cbn.
  destruct (f x) eqn:Ex.
  - cbn. intros Hxs. destruct (IH Hxs) as (pre & y & post & -> & Hpre & Hy).
    exists (x :: pre), y, post. cbn. rewrite Ex, Hpre. auto.
  - intros _. exists [], x, xs. auto.
Qed.

Lemma truthy_not_nullish (v : value) : truthy v = true → nullish v = false.
Proof. destruct v; cbn; congruence. Qed.

(** ** buildPlan *)

Section Plans.
Context `{platform : Platform} `{display : Display}.

Lemma index_returns (v : value) (k : string) :
  nullish v = false → ∃ m, index v k = Return m.
Proof.
  intros Hv. unfold index. rewrite Hv.
  destruct (obj_get (Object_entries v) k); [eauto|].
  destruct (own_length v); [destruct (String.eqb k "length"); [eauto|]|];
    destruct (inherited v k); eauto.
Qed.

Lemma read_of_returns (v : value) (k : string) :
  nullish v = false → read_of v k = Return (get v k).
Proof. intros Hv. unfold read_of. rewrite Hv. reflexivity. Qed.

Lemma state_ids_returns (desired : value) :
  state_ids desired
  = if nullish desired then Throw (cannot_read "states") else Return (wanted_ids desired).
Proof. unfold state_ids, read_of, wanted_ids. destruct (nullish desired); reflexivity. Qed.

(** The inner loop body appends the item of a state that resolves and
    throws on one that does not. *)
Lemma plan_state_spec (serviceName : string) (service : value) (plan : list PlanItem)
    (stateId : value) :
  plan_state serviceName service plan stateId
  = if state_ok service stateId
    then Return (plan ++ [item_of serviceName service stateId])
    else Throw (StateNotFound serviceName (ToString stateId)).
Proof.
  unfold plan_state, state_ok, item_of, state_of.
  destruct (truthy (get service "states")) eqn:Hstates; cbn [andb].
  - destruct (index_returns (get service "states") (ToString stateId)
                (truthy_not_nullish _ Hstates)) as [[state|] ->]; cbn.
    + destruct (truthy state); cbn; [|reflexivity].
      destruct (truthy (get state "type")); reflexivity.
    + reflexivity.
  - cbn. rewrite Hstates. reflexivity.
Qed.

(** The inner loop on resolvable states appends their items, in order. *)
Lemma plan_states_ok serviceName service stateIds plan :
  forallb (state_ok service) stateIds = true →
  for_of stateIds (plan_state serviceName service) plan
  = Return (plan ++ (item_of serviceName service <$> stateIds)).
Proof.
  revert plan. induction stateIds as [|stateId stateIds IH]; intros plan Hall.
  - cbn. rewrite app_nil_r. reflexivity.
  - cbn in Hall. apply andb_true_iff in Hall as [Hok Hall].
    cbn [for_of]. rewrite plan_state_spec, Hok. cbn.
    rewrite (IH _ Hall), <- app_assoc. reflexivity.
Qed.

(** The inner loop stops at the first state that does not resolve. *)
Lemma plan_states_ko serviceName service ok stateId rest plan :
  forallb (state_ok service) ok = true →
  state_ok service stateId = false →
  for_of (ok ++ stateId :: rest) (plan_state serviceName service) plan
    = Throw (StateNotFound serviceName (ToString stateId)).
Proof.
  intros Hok Hko. rewrite for_of_app, (plan_states_ok _ _ _ _ Hok).
  cbn. rewrite plan_state_spec, Hko. reflexivity.
Qed.

Lemma plan_states_returns serviceName service stateIds plan plan' :
  for_of stateIds (plan_state serviceName service) plan = Return plan' →
  forallb (state_ok service) stateIds = true
  ∧ plan' = plan ++ (item_of serviceName service <$> stateIds).
Proof.
  destruct (forallb (state_ok service) stateIds) eqn:Hall.
  - rewrite (plan_states_ok _ _ _ _ Hall). intros [= <-]. split; reflexivity.
  - destruct (forallb_first_false _ _ Hall) as (ok & stateId & rest & -> & Hok & Hko).
    rewrite (plan_states_ko _ _ _ _ _ _ Hok Hko). discriminate.
Qed.

(** The loop on a service that is a member of a built-in prototype. *)
Lemma plan_states_builtin (serviceName : string) (stateIds : list value)
    (plan : list PlanItem) :
  for_of stateIds
    (λ (_ : list PlanItem) stateId, Throw (StateNotFound serviceName (ToString stateId)))
    plan
  = match stateIds with
    | [] => Return plan
    | stateId :: _ => Throw (StateNotFound serviceName (ToString stateId))
    end.
Proof. destruct stateIds; reflexivity. Qed.

(** Whatever the manifest, an entry that the outer loop gets through
    appends one item per state ID it lists, in order. *)
Lemma plan_service_returns (manifest : value) (plan plan' : list PlanItem)
    (entry : string * value) :
  plan_service manifest plan entry = Return plan' →
  ∃ items, plan' = plan ++ items ∧ asked_of <$> items = asked [entry].
Proof.
  destruct entry as [serviceName wanted]. unfold plan_service, asked.
  cbn [flat_map fst snd]. rewrite app_nil_r.
  destruct (read_of manifest "services") as [services|e]; [|discriminate].
  cbn [mbind result_bind].
  destruct (index services serviceName) as [[service|]|e]; [| |discriminate];
    cbn [mbind result_bind].
  - destruct (truthy service); [|discriminate]. cbn [negb].
    rewrite state_ids_returns. destruct (nullish wanted); [discriminate|].
    cbn [mbind result_bind]. intros Hloop.
    apply plan_states_returns in Hloop as [_ ->].
    eexists. split; [reflexivity|].
    rewrite <- list_fmap_compose. reflexivity.
  - rewrite state_ids_returns. destruct (nullish wanted); [discriminate|].
    cbn [mbind result_bind]. rewrite plan_states_builtin.
    destruct (wanted_ids wanted); [|discriminate].
    intros [= <-]. exists []. rewrite app_nil_r. split; reflexivity.
Qed.

Lemma asked_cons (entry : string * value) (entries : obj value) :
  asked (entry :: entries) = asked [entry] ++ asked entries.
Proof. unfold asked. cbn. rewrite app_nil_r. reflexivity. Qed.

Lemma plan_services_returns (manifest : value) (entries : obj value)
    (plan plan' : list PlanItem) :
  for_of entries (plan_service manifest) plan = Return plan' →
  ∃ items, plan' = plan ++ items ∧ asked_of <$> items = asked entries.
Proof.
  revert plan. induction entries as [|entry entries IH]; intros plan.
  - intros [= <-]. exists []. rewrite app_nil_r. split; reflexivity.
  - cbn [for_of]. destruct (plan_service manifest plan entry) as [plan1|e] eqn:Hentry;
      [|discriminate].
    cbn [mbind result_bind]. intros Hrest.
    destruct (plan_service_returns _ _ _ _ Hentry) as (items1 & -> & Hasked1).
    destruct (IH _ Hrest) as (items2 & -> & Hasked2).
    exists (items1 ++ items2). rewrite <- app_assoc. split; [reflexivity|].
    rewrite fmap_app, Hasked1, Hasked2, <- asked_cons. reflexivity.
Qed.

Lemma obligations_asked (entries : obj value) :
  obligations entries = (λ pair : string * value, (pair.1, ToString pair.2)) <$> asked entries.
Proof.
  unfold obligations, asked. induction entries as [|entry entries IH]; [reflexivity|].
  cbn [flat_map]. rewrite fmap_app, <- IH, <- list_fmap_compose. reflexivity.
Qed.

Lemma obligation_asked (items : list PlanItem) :
  obligation <$> items = (λ pair : string * value, (pair.1, ToString pair.2)) <$> (asked_of <$> items).
Proof. rewrite <- list_fmap_compose. reflexivity. Qed.

(** A plan that buildPlan returns lists what the intent asks for, in
    order. *)
Lemma buildPlan_returns (manifest intentName : value) (entries : obj value)
    (plan : list PlanItem) :
  desired_services manifest intentName = Return entries →
  buildPlan manifest intentName = Return plan →
  asked_of <$> plan = asked entries ∧ obligation <$> plan = obligations entries.
Proof.
  intros Hentries. unfold buildPlan. rewrite Hentries. cbn [mbind result_bind].
  intros Hloop. destruct (plan_services_returns _ _ _ _ Hloop) as (items & -> & Hasked).
  cbn [app]. split; [exact Hasked|].
  rewrite obligation_asked, obligations_asked, Hasked. reflexivity.
Qed.

(** *** On a services map *)

Section OnMap.
Variables (manifest : value) (declared : obj value).
Hypothesis Hservices : get manifest "services" = VObj declared.

Lemma plan_service_on_map (plan : list PlanItem) (serviceName : string) (wanted : value) :
  plan_service manifest plan (serviceName, wanted)
  = if negb (found declared serviceName) then Throw (ServiceNotFound serviceName)
    else if nullish wanted then Throw (cannot_read "states")
    else match obj_get declared serviceName with
         | Some service => for_of (wanted_ids wanted) (plan_state serviceName service) plan
         | None =>
             match wanted_ids wanted with
             | [] => Return plan
             | stateId :: _ => Throw (StateNotFound serviceName (ToString stateId))
             end
         end.
Proof.
  unfold plan_service. rewrite (read_of_returns _ _ (get_object _ _ _ Hservices)), Hservices.
  cbn [mbind result_bind]. rewrite index_object. unfold found.
  destruct (obj_get declared serviceName) as [service|]; cbn [mbind result_bind].
  - destruct (truthy service); cbn [negb]; [|reflexivity].
    rewrite state_ids_returns. destruct (nullish wanted); reflexivity.
  - destruct (bool_decide (serviceName ∈ Object_prototype)); cbn [mbind result_bind negb].
    + rewrite state_ids_returns. destruct (nullish wanted); [reflexivity|].
      cbn [mbind result_bind]. apply plan_states_builtin.
    + reflexivity.
Qed.

Lemma plan_service_ok (plan : list PlanItem) (entry : string * value) :
  entry_ok declared entry = true →
  ∃ items, plan_service manifest plan entry = Return (plan ++ items)
           ∧ Forall (resolves declared) items.
Proof.
  destruct entry as [serviceName wanted]. unfold entry_ok. cbn [fst snd].
  rewrite !andb_true_iff, negb_true_iff. intros [[Hfound Hwanted] Hall].
  rewrite plan_service_on_map, Hfound, Hwanted. cbn [negb].
  unfold state_found in Hall.
  destruct (obj_get declared serviceName) as [service|] eqn:Hget.
  - rewrite (plan_states_ok _ _ _ _ Hall). eexists. split; [reflexivity|].
    apply Forall_fmap, Forall_forall. intros stateId Hin.
    rewrite forallb_forall in Hall. apply list_elem_of_In in Hin.
    specialize (Hall _ Hin). unfold state_ok in Hall.
    rewrite !andb_true_iff in Hall. destruct Hall as [[Hstates Hstate] Htype].
    unfold resolves, item_of. simpl.
    split; [exact Hget|]. split; [|split; [reflexivity|exact Htype]].
    unfold state_of in *.
    destruct (index (get service "states") (ToString stateId)) as [[state|]|e];
      [reflexivity|discriminate|discriminate].
  - destruct (wanted_ids wanted); [|discriminate].
    exists []. rewrite app_nil_r. split; [reflexivity|constructor].
Qed.

(** What an entry that does not resolve makes the outer loop throw. *)
Lemma plan_service_ko (plan : list PlanItem) (serviceName : string) (wanted : value) :
  entry_ok declared (serviceName, wanted) = false →
  (found declared serviceName = false
   ∧ plan_service manifest plan (serviceName, wanted) = Throw (ServiceNotFound serviceName))
  ∨ (found declared serviceName = true ∧ nullish wanted = true
     ∧ plan_service manifest plan (serviceName, wanted) = Throw (cannot_read "states"))
  ∨ (∃ ok stateId rest,
       found declared serviceName = true
       ∧ wanted_ids wanted = ok ++ stateId :: rest
       ∧ forallb (state_found declared serviceName) ok = true
       ∧ state_found declared serviceName stateId = false
       ∧ plan_service manifest plan (serviceName, wanted)
           = Throw (StateNotFound serviceName (ToString stateId))).
Proof.
  unfold entry_ok. cbn [fst snd]. rewrite plan_service_on_map.
  destruct (found declared serviceName); cbn [andb negb]; [|left; auto].
  destruct (nullish wanted); cbn [andb negb]; [right; left; auto|].
  intros Hko. right. right.
  destruct (forallb_first_false _ _ Hko) as (ok & stateId & rest & Heq & Hok & Hbad).
  exists ok, stateId, rest. repeat split; try assumption.
  unfold state_found in *.
  destruct (obj_get declared serviceName) as [service|].
  - rewrite Heq. apply plan_states_ko; assumption.
  - rewrite Heq. destruct ok as [|first ok]; [reflexivity|discriminate].
Qed.

(** The outer loop on resolvable entries appends their items. *)
Lemma plan_services_ok (entries : obj value) (plan : list PlanItem) :
  forallb (entry_ok declared) entries = true →
  ∃ items, for_of entries (plan_service manifest) plan = Return (plan ++ items)
           ∧ Forall (resolves declared) items.
Proof.
  revert plan. induction entries as [|entry entries IH]; intros plan Hall.
  - exists []. rewrite app_nil_r. split; [reflexivity|constructor].
  - cbn in Hall. apply andb_true_iff in Hall as [Hok Hall].
    destruct (plan_service_ok plan entry Hok) as (items1 & H1 & Hres1).
    destruct (IH (plan ++ items1) Hall) as (items2 & H2 & Hres2).
    exists (items1 ++ items2). cbn [for_of]. rewrite H1. cbn.
    rewrite H2, <- app_assoc. split; [reflexivity|].
    apply Forall_app. split; assumption.
Qed.

(** What buildPlan does with the entries of an intent: a plan when each of
    them resolves, and else an exception. *)
Lemma buildPlan_on_map (intentName : value) (entries : obj value) :
  desired_services manifest intentName = Return entries →
  if forallb (entry_ok declared) entries
  then ∃ plan, buildPlan manifest intentName = Return plan ∧ Forall (resolves declared) plan
  else ∃ e, buildPlan manifest intentName = Throw e.
Proof.
  intros Hentries. unfold buildPlan. rewrite Hentries. cbn [mbind result_bind].
  destruct (forallb (entry_ok declared) entries) eqn:Hall.
  - destruct (plan_services_ok entries [] Hall) as (items & -> & Hres).
    exists items. split; [reflexivity|exact Hres].
  - destruct (forallb_first_false _ _ Hall)
      as (pre & [serviceName wanted] & post & -> & Hpre & Hbad).
    rewrite for_of_app.
    destruct (plan_services_ok pre [] Hpre) as (items & -> & _).
    cbn [mbind result_bind for_of].
    destruct (plan_service_ko ([] ++ items) serviceName wanted Hbad)
      as [[_ ->]|[(_ & _ & ->)|(? & ? & ? & _ & _ & _ & _ & ->)]]; eexists; reflexivity.
Qed.

End OnMap.


End Plans.



(** ** Keys *)

(** A key determines its obligation when the service name has no colon. *)
Lemma key_of_inj (s1 s2 t1 t2 : string) :
  includes s1 ":" = false → includes s2 ":" = false →
  key_of (s1, t1) = key_of (s2, t2) → (s1, t1) = (s2, t2).
Proof.
  unfold key_of. cbn [fst snd]. revert s2.
  induction s1 as [|a s1 IH]; intros [|b s2]; cbn [includes];
    repeat first [rewrite append_empty | rewrite append_String].
  - intros _ _ [= Heq]. rewrite Heq. reflexivity.
  - destruct (decide (b = ":"%char)) as [->|Hb]; [discriminate|].
    intros _ _ [= Heq _]. congruence.
  - destruct (decide (a = ":"%char)) as [->|Ha]; [discriminate|].
    intros _ _ [= Heq _]. congruence.
  - destruct (decide (a = ":"%char)); [discriminate|].
    destruct (decide (b = ":"%char)); [discriminate|].
    intros H1 H2 [= Hab Heq]. subst b.
    specialize (IH s2 H1 H2 Heq). injection IH as Hs Ht. rewrite Hs, Ht. reflexivity.
Qed.

Section Keys.
Context `{display : Display}.

Lemma obligations_service (entries : obj value) (pair : string * string) :
  pair ∈ obligations entries → pair.1 ∈ entries.*1.
Proof.
  unfold obligations. rewrite list_elem_of_In, in_flat_map.
  intros (entry & Hentry & Hpair).
  apply list_elem_of_In, list_elem_of_fmap in Hpair as (stateId & -> & _).
  cbn. apply list_elem_of_fmap. exists entry. split; [reflexivity|].
  apply list_elem_of_In. exact Hentry.
Qed.

Lemma obligations_NoDup (entries : obj value) :
  NoDup entries.*1 →
  Forall (λ entry : string * value, NoDup (ToString <$> wanted_ids entry.2)) entries →
  NoDup (obligations entries).
Proof.
  induction entries as [|entry entries IH]; intros Hkeys Hstates.
  - constructor.
  - cbn in Hkeys. apply NoDup_cons in Hkeys as [Hfresh Hkeys].
    apply Forall_cons in Hstates as [Hentry Hstates].
    unfold obligations. cbn [flat_map]. apply NoDup_app. split; [|split].
    + replace ((λ stateId, (entry.1, ToString stateId)) <$> wanted_ids entry.2)
        with ((λ name : string, (entry.1, name)) <$> (ToString <$> wanted_ids entry.2))
        by (rewrite <- list_fmap_compose; reflexivity).
      apply NoDup_fmap_2; [|exact Hentry]. intros x y [= ->]. reflexivity.
    + intros pair Hin Hin'. apply list_elem_of_fmap in Hin as (stateId & -> & _).
      apply obligations_service in Hin'. cbn in Hin'. contradiction.
    + apply IH; assumption.
Qed.

Lemma keys_NoDup (entries : obj value) :
  Forall (λ entry : string * value, includes entry.1 ":" = false) entries →
  NoDup (obligations entries) →
  NoDup (key_of <$> obligations entries).
Proof.
  intros Hcolon Hnodup. apply NoDup_fmap_2_strong; [|exact Hnodup].
  intros [s1 t1] [s2 t2] H1 H2 Hkey.
  rewrite Forall_forall in Hcolon.
  apply obligations_service in H1, H2. cbn in H1, H2.
  apply list_elem_of_fmap in H1 as (e1 & -> & He1).
  apply list_elem_of_fmap in H2 as (e2 & -> & He2).
  apply key_of_inj; [apply Hcolon, He1|apply Hcolon, He2|exact Hkey].
Qed.

End Keys.

(** ** validatePlan *)

Section Validation.
Context `{platform : Platform} `{display : Display}.

Lemma validate_item_unfold fs projectRoot results first :
  validate_item fs projectRoot results first
    = match observeState fs first projectRoot with
      | Return o => Return (results ++ [{| item := first; observation := o |}])
      | Throw e => Throw e
      end.
Proof. unfold validate_item. destruct (observeState _ _ _); reflexivity. Qed.

Lemma validate_loop fs projectRoot plan results0 :
  (∃ added,
     for_of plan (validate_item fs projectRoot) results0 = Return (results0 ++ added)
     ∧ item <$> added = plan
     ∧ Forall (λ r, observeState fs (item r) projectRoot = Return (observation r)) added)
  ∨ (∃ thrower e,
       thrower ∈ plan ∧ observeState fs thrower projectRoot = Throw e
       ∧ for_of plan (validate_item fs projectRoot) results0 = Throw e).
Proof.
  revert results0. induction plan as [|first plan IH]; intros results0.
  - left. exists []. rewrite app_nil_r. repeat split. constructor.
  - cbn [for_of]. rewrite validate_item_unfold.
    destruct (observeState fs first projectRoot) as [o|e] eqn:Eo;
      cbn [mbind result_bind].
    + destruct (IH (results0 ++ [{| item := first; observation := o |}]))
        as [(added & Hrun & Hitems & Hobs)|(thrower & e & Hin & Hthrow & Hrun)].
      * left. exists ({| item := first; observation := o |} :: added).
        rewrite Hrun, <- app_assoc. split; [reflexivity|]. split.
        -- cbn. rewrite Hitems. reflexivity.
        -- constructor; [exact Eo|exact Hobs].
      * right. exists thrower, e. split; [right; exact Hin|]. split; assumption.
    + right. exists first, e. split; [left|]. split; [exact Eo|reflexivity].
Qed.

Lemma NoDup_keys_of_plan manifest intentName entries plan (results : list Validated) :
  desired_services manifest intentName = Return entries →
  buildPlan manifest intentName = Return plan →
  item <$> results = plan →
  NoDup entries.*1 →
  Forall (λ entry : string * value, NoDup (ToString <$> wanted_ids entry.2)) entries →
  NoDup (obligation <$> plan)
  ∧ (Forall (λ entry : string * value, includes entry.1 ":" = false) entries →
     NoDup (state_key <$> results)).
Proof.
  intros Hentries Hplan Hitems Hkeys Hstates.
  destruct (buildPlan_returns _ _ _ _ Hentries Hplan) as [_ Hobs].
  pose proof (obligations_NoDup entries Hkeys Hstates) as Hnodup.
  split; [rewrite Hobs; exact Hnodup|].
  intros Hcolon.
  assert (state_key <$> results = key_of <$> obligations entries) as ->.
  { rewrite <- Hobs, <- Hitems, <- !list_fmap_compose. reflexivity. }
  apply keys_NoDup; assumption.
Qed.

(** C3, amended. For a plan that buildPlan returns, validatePlan either
    returns or rethrows what an observation threw; when it returns, there is
    exactly one result per plan item, in plan order, each carrying the
    observation of its item, so the two lengths agree.  The (service, state)
    pairs are pairwise distinct when no service's desired list repeats a
    state ID, and the "service:state" keys are pairwise distinct when, in
    addition, no desired service name contains a colon.  A state ID counts
    as the property name it is looked up under. *)
Theorem validatePlan_one_per_item (fs : FS) (manifest intentName : value)
    (entries : obj value) (plan : list PlanItem) (projectRoot : string) :
  desired_services manifest intentName = Return entries →
  buildPlan manifest intentName = Return plan →
  ((∃ results, validatePlan fs plan projectRoot = Return results)
   ∨ (∃ thrower e, thrower ∈ plan ∧ observeState fs thrower projectRoot = Throw e
                   ∧ validatePlan fs plan projectRoot = Throw e))
  ∧ ∀ results, validatePlan fs plan projectRoot = Return results →
      item <$> results = plan
      ∧ length results = length plan
      ∧ Forall (λ r, observeState fs (item r) projectRoot = Return (observation r)) results
      ∧ (NoDup entries.*1 →
         Forall (λ entry : string * value,
                   NoDup (ToString <$> wanted_ids entry.2)) entries →
         NoDup (obligation <$> plan)
         ∧ (Forall (λ entry : string * value, includes entry.1 ":" = false) entries →
            NoDup (state_key <$> results))).
Proof.
  intros Hentries Hplan. unfold validatePlan.
  destruct (validate_loop fs projectRoot plan [])
    as [(added & Hrun & Hitems & Hobs)|(thrower & e & Hin & Hthrow & Hrun)].
  - split; [left; eexists; exact Hrun|].
    intros results. rewrite Hrun. intros [= <-]. cbn [app].
    split; [exact Hitems|]. split; [rewrite <- Hitems, length_fmap; reflexivity|].
    split; [exact Hobs|].
    intros Hkeys Hstates.
    exact (NoDup_keys_of_plan _ _ _ _ _ Hentries Hplan Hitems Hkeys Hstates).
  - split; [right; exists thrower, e; auto|].
    intros results. rewrite Hrun. discriminate.
Qed.

End Validation.

(** C3, as stated, fails on the code: an intent that lists a state twice
    gives a plan with two items and two results under one key. *)
Lemma validatePlan_repeated_key :
  buildPlan (platform := demo) (display := demo_display) repeated_state (VStr "dev")
    = Return [deps_item; deps_item]
  ∧ validatePlan (platform := demo) disk [deps_item; deps_item] "/work"
      = Return [deps_healthy; deps_healthy]
  ∧ state_key (display := demo_display) <$> [deps_healthy; deps_healthy]
    = ["api:deps"; "api:deps"]
  ∧ ¬ NoDup (state_key (display := demo_display) <$> [deps_healthy; deps_healthy]).
Proof.
  split; [reflexivity|]. split; [vm_compute; reflexivity|]. split; [reflexivity|].
  intros Hnodup. apply NoDup_cons in Hnodup as [Hfresh _].
  apply Hfresh. left.
Qed.

Lemma validatePlan_one_per_item_witness :
  validatePlan (platform := demo) disk [deps_item; schema_item] "/work"
    = Return [deps_healthy; schema_healthy]
  ∧ item <$> [deps_healthy; schema_healthy] = [deps_item; schema_item]
  ∧ length [deps_healthy; schema_healthy] = length [deps_item; schema_item]
  ∧ NoDup (state_key (display := demo_display) <$> [deps_healthy; schema_healthy]).
Proof.
  destruct (validatePlan_one_per_item (platform := demo) (display := demo_display)
              disk two_states (VStr "dev")
              [("api", wants ["deps"; "schema"])] [deps_item; schema_item] "/work"
              eq_refl eq_refl) as [_ Hresults].
  assert (validatePlan (platform := demo) disk [deps_item; schema_item] "/work"
            = Return [deps_healthy; schema_healthy]) as Hrun by (vm_compute; reflexivity).
  destruct (Hresults _ Hrun) as (Hitems & Hlength & _ & Hdistinct).
  split; [exact Hrun|]. split; [exact Hitems|]. split; [exact Hlength|].
  apply Hdistinct.
  - apply (bool_decide_unpack _). vm_compute. reflexivity.
  - repeat constructor; apply (bool_decide_unpack _); vm_compute; reflexivity.
  - repeat constructor.
Defined.

(** ** observeState *)

Section Observation.
Context `{platform : Platform}.

Lemma path_arg_cases (v : value) :
  (∃ s, v = VStr s ∧ path_arg v = Return s)
  ∨ (∃ e, path_arg v = Throw e ∧ ∀ s, v ≠ VStr s).
Proof.
  destruct v; try (right; eexists; split; [reflexivity|discriminate]).
  left. eexists; split; reflexivity.
Qed.

Lemma path_arg_throws (v : value) (e : exn) :
  path_arg v = Throw e → e = TypeError "The path argument must be of type string".
Proof. destruct v; cbn; congruence. Qed.

Lemma hashFile_cases (fs : FS) (p : string) :
  (∃ content, fs !! p = Some (File content)
              ∧ hashFile fs p = Return ("sha256:" +:+ sha256_hex content))
  ∨ (∃ e, fs_readFileSync fs p = Throw e ∧ hashFile fs p = Throw e).
Proof.
  unfold hashFile, fs_readFileSync.
  destruct (fs !! p) as [[content|]|].
  - left. exists content. split; reflexivity.
  - right. eexists. split; reflexivity.
  - right. eexists. split; reflexivity.
Qed.

Lemma or_else_truthy (v : value) (s : string) :
  s ≠ EmptyString → truthy (or_else v (VStr s)) = true.
Proof.
  intros Hs. unfold or_else. destruct (truthy v) eqn:Ev; [exact Ev|].
  cbn. destruct (String.eqb_spec s EmptyString); [contradiction|reflexivity].
Qed.

Lemma is_str_unique (v : value) (s t : string) :
  is_str v s = true → s ≠ t → is_str v t = false.
Proof.
  destruct v; try discriminate. cbn.
  intros Hs Hne. apply String.eqb_eq in Hs. subst.
  apply String.eqb_neq. exact Hne.
Qed.

(** What a file observer does at the path it looks at. *)
Lemma existsSync_lookup (fs : FS) (p : string) :
  fs_existsSync fs p = match fs !! p with Some _ => true | None => false end.
Proof.
  unfold fs_existsSync. destruct (fs !! p).
  - apply bool_decide_eq_true_2. eauto.
  - apply bool_decide_eq_false_2. intros [? ?]. discriminate.
Qed.

Lemma hashFile_lookup (fs : FS) (p : string) :
  hashFile fs p = match fs !! p with
                  | Some (File content) => Return ("sha256:" +:+ sha256_hex content)
                  | Some Directory => Throw (SystemError "EISDIR" p)
                  | None => Throw (SystemError "ENOENT" p)
                  end.
Proof. unfold hashFile, fs_readFileSync. destruct (fs !! p) as [[?|]|]; reflexivity. Qed.

(** observeState, by what the service gives as its root. *)
Lemma observeState_no_service (fs : FS) (item : PlanItem) (projectRoot : string) :
  nullish (service item) = true →
  observeState fs item projectRoot = Throw (cannot_read "root").
Proof. intros Hnull. unfold observeState, read_of. rewrite Hnull. reflexivity. Qed.

Lemma observeState_rooted (fs : FS) (item : PlanItem) (projectRoot : string) :
  nullish (service item) = false →
  observeState fs item projectRoot
  = (r ← path_arg (service_root item); observe_in fs item (path_resolve2 projectRoot r)).
Proof. intros Hnull. unfold observeState, read_of. rewrite Hnull. reflexivity. Qed.

Lemma observeState_at_root (fs : FS) (item : PlanItem) (projectRoot r : string) :
  nullish (service item) = false →
  service_root item = VStr r →
  observeState fs item projectRoot = observe_in fs item (path_resolve2 projectRoot r).
Proof. intros Hnull Hroot. rewrite (observeState_rooted _ _ _ Hnull), Hroot. reflexivity. Qed.

Lemma observeState_bad_root (fs : FS) (item : PlanItem) (projectRoot : string) :
  nullish (service item) = false →
  (∀ r, service_root item ≠ VStr r) →
  observeState fs item projectRoot
  = Throw (TypeError "The path argument must be of type string").
Proof.
  intros Hnull Hroot. rewrite (observeState_rooted _ _ _ Hnull).
  destruct (service_root item) eqn:Hv; try reflexivity.
  destruct (Hroot _ eq_refl).
Qed.

(** The observer of each type. *)
Lemma observe_in_deps (fs : FS) (item : PlanItem) (resolvedRoot : string) :
  is_str (type item) "package.deps" = true →
  nullish (config item) = false →
  observe_in fs item resolvedRoot
  = (lockfile ← path_arg (or_else (get (config item) "lockfile") (VStr "package-lock.json"));
     match fs !! path_join resolvedRoot lockfile with
     | None =>
         Return {| status := "missing";
                   evidence := [("lockfile", VStr (path_join resolvedRoot lockfile));
                                ("exists", VBool false)] |}
     | Some (File content) =>
         Return {| status := "healthy";
                   evidence := [("lockfile", VStr (path_join resolvedRoot lockfile));
                                ("checksum", VStr ("sha256:" +:+ sha256_hex content))] |}
     | Some Directory => Throw (SystemError "EISDIR" (path_join resolvedRoot lockfile))
     end).
Proof.
  intros Htype Hconfig. unfold observe_in, read_of. rewrite Htype, Hconfig.
  cbn [mbind result_bind].
  destruct (path_arg _) as [lockfile|e]; [|reflexivity]. cbn [mbind result_bind].
  rewrite existsSync_lookup, hashFile_lookup.
  destruct (fs !! _) as [[content|]|]; reflexivity.
Qed.

Lemma observe_in_schema (fs : FS) (item : PlanItem) (resolvedRoot : string) :
  is_str (type item) "db.schema" = true →
  nullish (config item) = false →
  observe_in fs item resolvedRoot
  = if truthy (get (config item) "source") then
      source ← path_arg (get (config item) "source");
      match fs !! path_resolve2 resolvedRoot source with
      | None =>
          Return {| status := "missing";
                    evidence := [("source", VStr (path_resolve2 resolvedRoot source));
                                 ("exists", VBool false); ("checksum", VUndefined)] |}
      | Some (File content) =>
          Return {| status := "healthy";
                    evidence := [("source", VStr (path_resolve2 resolvedRoot source));
                                 ("exists", VBool true);
                                 ("checksum", VStr ("sha256:" +:+ sha256_hex content))] |}
      | Some Directory => Throw (SystemError "EISDIR" (path_resolve2 resolvedRoot source))
      end
    else Return {| status := "unknown"; evidence := [("reason", VStr "no source defined")] |}.
Proof.
  intros Htype Hconfig. unfold observe_in, read_of.
  rewrite (is_str_unique _ _ "package.deps" Htype) by discriminate.
  rewrite Htype, Hconfig. cbn [mbind result_bind].
  destruct (truthy (get (config item) "source")); cbn [negb]; [|reflexivity].
  destruct (path_arg _) as [source|e]; [|reflexivity]. cbn [mbind result_bind].
  rewrite existsSync_lookup, hashFile_lookup.
  destruct (fs !! _) as [[content|]|]; reflexivity.
Qed.

Lemma observe_in_http (fs : FS) (item : PlanItem) (resolvedRoot : string) :
  is_str (type item) "process.http" = true →
  nullish (config item) = false →
  let port := Number (get (config item) "port") in
  let host := or_else (get (config item) "host") (VStr "127.0.0.1") in
  observe_in fs item resolvedRoot
  = if Number_isFinite port then
      match socket_connect host port 300 with
      | Connected =>
          Return {| status := "healthy";
                    evidence := [("host", host); ("port", VNum port); ("open", VBool true)] |}
      | ErrorEvent | TimeoutEvent =>
          Return {| status := "missing";
                    evidence := [("host", host); ("port", VNum port); ("open", VBool false)] |}
      | ConnectThrows e => Throw e
      end
    else Return {| status := "unknown"; evidence := [("reason", VStr "invalid port")] |}.
Proof.
  intros Htype Hconfig. cbv zeta. unfold observe_in, read_of.
  rewrite (is_str_unique _ _ "package.deps" Htype) by discriminate.
  rewrite (is_str_unique _ _ "db.schema" Htype) by discriminate.
  rewrite (is_str_unique _ _ "env.export" Htype) by discriminate.
  rewrite (is_str_unique _ _ "env.inherit" Htype) by discriminate.
  rewrite Htype, Hconfig. cbn [mbind result_bind].
  destruct (Number_isFinite _); cbn [negb]; [|reflexivity].
  unfold checkPort. destruct (socket_connect _ _ _); reflexivity.
Qed.

(** The observers that read the config only. *)
Lemma observe_in_other (fs : FS) (item : PlanItem) (resolvedRoot : string) :
  is_str (type item) "package.deps" = false →
  is_str (type item) "db.schema" = false →
  is_str (type item) "process.http" = false →
  observe_in fs item resolvedRoot
  = if is_str (type item) "env.export" then
      if nullish (config item) then Throw (cannot_read "keys")
      else
        let keys := match get (config item) "keys" with VArr items => items | _ => [] end in
        Return {| status := if (0 <? length keys)%nat then "healthy" else "missing";
                  evidence := [("keys", VArr keys)] |}
    else if is_str (type item) "env.inherit" then
      if nullish (config item) then Throw (cannot_read "from")
      else Return {| status := if truthy (get (config item) "from")
                               then "healthy" else "missing";
                     evidence := [("from", get (config item) "from")] |}
    else Return {| status := "unknown"; evidence := [("type", type item)] |}.
Proof.
  intros Hdeps Hschema Hhttp. unfold observe_in, read_of. rewrite Hdeps, Hschema, Hhttp.
  destruct (is_str (type item) "env.export").
  { destruct (nullish (config item)); reflexivity. }
  destruct (is_str (type item) "env.inherit").
  { destruct (nullish (config item)); reflexivity. }
  reflexivity.
Qed.

Lemma observe_in_no_config (fs : FS) (item : PlanItem) (resolvedRoot : string) (k : string) :
  reads (type item) = Some k →
  nullish (config item) = true →
  observe_in fs item resolvedRoot = Throw (cannot_read k).
Proof.
  unfold reads, observe_in, read_of. intros Hreads Hconfig. rewrite Hconfig.
  repeat (destruct (is_str (type item) _);
          [injection Hreads as <-; reflexivity|]).
  discriminate.
Qed.

Lemma path_value_deps (item : PlanItem) :
  is_str (type item) "package.deps" = true →
  path_value item = Some (or_else (get (config item) "lockfile") (VStr "package-lock.json")).
Proof. intros Htype. unfold path_value. rewrite Htype. reflexivity. Qed.

Lemma path_value_schema (item : PlanItem) :
  is_str (type item) "db.schema" = true →
  path_value item = if truthy (get (config item) "source")
                    then Some (get (config item) "source") else None.
Proof.
  intros Htype. unfold path_value.
  rewrite (is_str_unique _ _ "package.deps" Htype) by discriminate.
  rewrite Htype. reflexivity.
Qed.

Lemma path_value_other (item : PlanItem) :
  is_str (type item) "package.deps" = false →
  is_str (type item) "db.schema" = false →
  path_value item = None.
Proof. intros Hdeps Hschema. unfold path_value. rewrite Hdeps, Hschema. reflexivity. Qed.

Lemma reads_none (item : PlanItem) :
  reads (type item) = None →
  is_str (type item) "package.deps" = false
  ∧ is_str (type item) "db.schema" = false
  ∧ is_str (type item) "env.export" = false
  ∧ is_str (type item) "env.inherit" = false
  ∧ is_str (type item) "process.http" = false.
Proof.
  unfold reads.
  repeat (destruct (is_str (type item) _); [discriminate|]). auto.
Qed.

Ltac no_fault :=
  let Hf := fresh "Hf" in
  intros Hf; inversion Hf; subst; congruence.

(** The observer of an item throws exactly on the faults of [fails_in], and
    what it returns has one of the three statuses. *)
Lemma observe_in_outcome (fs : FS) (item : PlanItem) (resolvedRoot : string) :
  (∀ e, observe_in fs item resolvedRoot = Throw e ↔ fails_in fs item resolvedRoot e)
  ∧ (∀ observation, observe_in fs item resolvedRoot = Return observation →
       status observation ∈ ["healthy"; "missing"; "unknown"]).
Proof.
  destruct (nullish (config item)) eqn:Hconfig.
  { destruct (reads (type item)) as [k|] eqn:Hreads.
    - rewrite (observe_in_no_config _ _ _ _ Hreads Hconfig).
      split; [|discriminate]. intros e. split.
      + intros [= <-]. apply (fails_config _ _ _ _ Hreads Hconfig).
      + intros Hf. inversion Hf; subst; congruence.
    - destruct (reads_none _ Hreads) as (Hdeps & Hschema & Hexport & Hinherit & Hhttp).
      rewrite (observe_in_other _ _ _ Hdeps Hschema Hhttp), Hexport, Hinherit.
      split.
      + intros e. split; [discriminate|no_fault].
      + intros observation [= <-]. cbn. set_solver. }
  destruct (is_str (type item) "package.deps") eqn:Hdeps.
  { pose proof (path_value_deps _ Hdeps) as Hvalue.
    pose proof (is_str_unique _ _ "process.http" Hdeps ltac:(discriminate)) as Hhttp.
    assert (observed_path item resolvedRoot
            = match or_else (get (config item) "lockfile") (VStr "package-lock.json") with
              | VStr s => Some (path_join resolvedRoot s)
              | _ => None
              end) as Hpath.
    { unfold observed_path. rewrite Hvalue, Hdeps. reflexivity. }
    rewrite (observe_in_deps _ _ _ Hdeps Hconfig).
    destruct (path_arg_cases (or_else (get (config item) "lockfile")
                                (VStr "package-lock.json")))
      as [(lockfile & Hlockfile & Harg)|(e0 & Harg & Hnot)];
      rewrite Harg; cbn [mbind result_bind].
    - rewrite Hlockfile in Hpath, Hvalue.
      destruct (fs !! path_join resolvedRoot lockfile) as [[content|]|] eqn:Hlookup.
      + split; [intros e; split; [discriminate|no_fault]|].
        intros observation [= <-]. cbn. set_solver.
      + split; [|discriminate]. intros e. split.
        * intros [= <-]. apply (fails_directory _ _ _ _ Hconfig Hpath Hlookup).
        * intros Hf. inversion Hf; subst; congruence.
      + split; [intros e; split; [discriminate|no_fault]|].
        intros observation [= <-]. cbn. set_solver.
    - assert (observed_path item resolvedRoot = None) as Hnone.
      { rewrite Hpath.
        destruct (or_else (get (config item) "lockfile") (VStr "package-lock.json"));
          try reflexivity. destruct (Hnot _ eq_refl). }
      split; [|discriminate]. intros e. split.
      + intros [= <-]. apply (fails_path _ _ _ _ _ Hconfig Hvalue Harg).
      + intros Hf. inversion Hf; subst; congruence. }
  destruct (is_str (type item) "db.schema") eqn:Hschema.
  { pose proof (path_value_schema _ Hschema) as Hvalue.
    pose proof (is_str_unique _ _ "process.http" Hschema ltac:(discriminate)) as Hhttp.
    rewrite (observe_in_schema _ _ _ Hschema Hconfig).
    destruct (truthy (get (config item) "source")) eqn:Hsource.
    - assert (observed_path item resolvedRoot
              = match get (config item) "source" with
                | VStr s => Some (path_resolve2 resolvedRoot s)
                | _ => None
                end) as Hpath.
      { unfold observed_path. rewrite Hvalue, Hdeps. reflexivity. }
      destruct (path_arg_cases (get (config item) "source"))
        as [(source & Hstring & Harg)|(e0 & Harg & Hnot)];
        rewrite Harg; cbn [mbind result_bind].
      + rewrite Hstring in Hpath, Hvalue.
        destruct (fs !! path_resolve2 resolvedRoot source) as [[content|]|] eqn:Hlookup.
        * split; [intros e; split; [discriminate|no_fault]|].
          intros observation [= <-]. cbn. set_solver.
        * split; [|discriminate]. intros e. split.
          -- intros [= <-]. apply (fails_directory _ _ _ _ Hconfig Hpath Hlookup).
          -- intros Hf. inversion Hf; subst; congruence.
        * split; [intros e; split; [discriminate|no_fault]|].
          intros observation [= <-]. cbn. set_solver.
      + assert (observed_path item resolvedRoot = None) as Hnone.
        { rewrite Hpath. destruct (get (config item) "source"); try reflexivity.
          destruct (Hnot _ eq_refl). }
        split; [|discriminate]. intros e. split.
        * intros [= <-]. apply (fails_path _ _ _ _ _ Hconfig Hvalue Harg).
        * intros Hf. inversion Hf; subst; congruence.
    - assert (observed_path item resolvedRoot = None) as Hnone.
      { unfold observed_path. rewrite Hvalue. reflexivity. }
      split; [intros e; split; [discriminate|no_fault]|].
      intros observation [= <-]. cbn. set_solver. }
  pose proof (path_value_other _ Hdeps Hschema) as Hvalue.
  assert (observed_path item resolvedRoot = None) as Hnone.
  { unfold observed_path. rewrite Hvalue. reflexivity. }
  destruct (is_str (type item) "process.http") eqn:Hhttp.
  { pose proof (observe_in_http fs _ resolvedRoot Hhttp Hconfig) as Hbranch.
    cbv zeta in Hbranch. rewrite Hbranch.
    destruct (Number_isFinite (Number (get (config item) "port"))) eqn:Hfinite.
    - destruct (socket_connect _ _ _) as [| | |e0] eqn:Hconnect.
      + split; [intros e; split; [discriminate|no_fault]|].
        intros observation [= <-]. cbn. set_solver.
      + split; [intros e; split; [discriminate|no_fault]|].
        intros observation [= <-]. cbn. set_solver.
      + split; [intros e; split; [discriminate|no_fault]|].
        intros observation [= <-]. cbn. set_solver.
      + split; [|discriminate]. intros e. split.
        * intros [= <-]. apply (fails_connect _ _ _ _ Hconfig Hhttp Hfinite Hconnect).
        * intros Hf. inversion Hf; subst; congruence.
    - split; [intros e; split; [discriminate|no_fault]|].
      intros observation [= <-]. cbn. set_solver. }
  rewrite (observe_in_other _ _ _ Hdeps Hschema Hhttp), Hconfig.
  split.
  - intros e. split; [|no_fault].
    destruct (is_str (type item) "env.export"); [discriminate|].
    destruct (is_str (type item) "env.inherit"); discriminate.
  - intros observation.
    destruct (is_str (type item) "env.export").
    { intros [= <-]. cbn [status].
      match goal with |- context [if ?b then _ else _] => destruct b end; set_solver. }
    destruct (is_str (type item) "env.inherit").
    { intros [= <-]. cbn [status].
      match goal with |- context [if ?b then _ else _] => destruct b end; set_solver. }
    intros [= <-]. cbn. set_solver.
Qed.


End Observation.



Section Schema.
Context `{platform : Platform}.


End Schema.



(** ** Objects as maps *)

Lemma obj_get_set {A : Type} (o : obj A) (k k' : string) (a : A) :
  obj_get (obj_set o k a) k' = if decide (k = k') then Some a else obj_get o k'.
Proof.
  induction o as [|[k0 a0] o IH]; cbn.
  - destruct (decide (k = k')); reflexivity.
  - destruct (decide (k0 = k)) as [->|Hne]; cbn.
    + destruct (decide (k = k')); reflexivity.
    + rewrite IH. destruct (decide (k0 = k')) as [->|Hne'].
      * destruct (decide (k = k')); [congruence|reflexivity].
      * reflexivity.
Qed.

Lemma obj_get_is_Some {A : Type} (o : obj A) (k : string) :
  is_Some (obj_get o k) ↔ k ∈ o.*1.
Proof.
  induction o as [|[k0 a0] o IH]; cbn.
  - split; [intros [? ?]; discriminate|intros Hin; inversion Hin].
  - destruct (decide (k0 = k)) as [->|Hne].
    + split; [intros _; left|eauto].
    + rewrite IH. split; [intros Hin; right; exact Hin|].
      intros Hin. apply elem_of_cons in Hin as [Heq|Hin]; [congruence|exact Hin].
Qed.

Lemma obj_set_keys {A : Type} (o : obj A) (k : string) (a : A) :
  (obj_set o k a).*1 = if decide (k ∈ o.*1) then o.*1 else o.*1 ++ [k].
Proof.
  induction o as [|[k0 a0] o IH]; cbn.
  - destruct (decide (k ∈ [])) as [Hin|_]; [inversion Hin|reflexivity].
  - destruct (decide (k0 = k)) as [->|Hne]; cbn.
    + destruct (decide (k ∈ k :: o.*1)) as [_|Hout]; [reflexivity|].
      destruct Hout. left.
    + rewrite IH. destruct (decide (k ∈ o.*1)) as [Hin|Hout].
      * destruct (decide (k ∈ k0 :: o.*1)) as [_|Hout']; [reflexivity|].
        destruct Hout'. right. exact Hin.
      * destruct (decide (k ∈ k0 :: o.*1)) as [Hin'|_]; [|reflexivity].
        apply elem_of_cons in Hin' as [Heq|Hin']; [congruence|contradiction].
Qed.

Lemma obj_set_NoDup {A : Type} (o : obj A) (k : string) (a : A) :
  NoDup o.*1 → NoDup (obj_set o k a).*1.
Proof.
  intros Hnodup. rewrite obj_set_keys.
  destruct (decide (k ∈ o.*1)) as [_|Hout]; [exact Hnodup|].
  apply NoDup_app. split; [exact Hnodup|]. split.
  - intros x Hx Hx'. apply list_elem_of_singleton in Hx'. subst. contradiction.
  - apply NoDup_singleton.
Qed.

Lemma obj_set_fresh {A : Type} (o : obj A) (k : string) (a : A) :
  k ∉ o.*1 → obj_set o k a = o ++ [(k, a)].
Proof.
  induction o as [|[k' a'] o IH]; [reflexivity|]. cbn. intros Hfresh.
  apply not_elem_of_cons in Hfresh as [Hne Hfresh].
  destruct (decide (k' = k)); [congruence|]. rewrite IH by exact Hfresh. reflexivity.
Qed.

Lemma fold_obj_set (props acc : list (string * value)) :
  NoDup (acc.*1 ++ props.*1) →
  fold_left (λ a (p : string * value), obj_set a p.1 p.2) props acc = acc ++ props.
Proof.
  revert acc. induction props as [|[k v] props IH]; intros acc Hnodup.
  - rewrite app_nil_r. reflexivity.
  - cbn [fold_left fst snd]. cbn [fmap list_fmap fst] in Hnodup.
    rewrite obj_set_fresh.
    + rewrite IH; [rewrite <- app_assoc; reflexivity|].
      rewrite fmap_app, <- app_assoc. exact Hnodup.
    + apply NoDup_app in Hnodup as (_ & Hdisjoint & _).
      intros Hin. apply (Hdisjoint k Hin). left.
Qed.

(** ** updateState *)

Section Update.
Context `{display : Display}.

Lemma store_result_returns existingState now observations entry :
  nullish existingState = false →
  store_result existingState now observations entry
    = Return (obj_set observations (state_key entry) (record_of existingState now entry)).
Proof.
  intros Hobject. unfold store_result, read_of, record_of, carried.
  rewrite Hobject. reflexivity.
Qed.

Lemma store_loop_returns existingState now results observations :
  nullish existingState = false →
  for_of results (store_result existingState now) observations
    = Return (fold_left (λ o entry, obj_set o (state_key entry)
                                       (record_of existingState now entry))
                results observations).
Proof.
  intros Hobject. revert observations.
  induction results as [|entry results IH]; intros observations; [reflexivity|].
  cbn [for_of fold_left]. rewrite store_result_returns by exact Hobject.
  cbn [mbind result_bind]. apply IH.
Qed.

Lemma stored_lookup existingState now results observations key :
  obj_get (fold_left (λ o entry, obj_set o (state_key entry)
                                   (record_of existingState now entry))
             results observations) key
    = match last_with_key results key with
      | Some entry => Some (record_of existingState now entry)
      | None => obj_get observations key
      end.
Proof.
  revert observations. induction results as [|entry results IH]; intros observations.
  - reflexivity.
  - cbn [fold_left last_with_key]. rewrite IH.
    destruct (last_with_key results key) as [later|]; [reflexivity|].
    rewrite obj_get_set. destruct (decide (state_key entry = key)); reflexivity.
Qed.

Lemma stored_NoDup existingState now results (observations : obj value) :
  NoDup observations.*1 →
  NoDup (fold_left (λ o entry, obj_set o (state_key entry)
                                 (record_of existingState now entry))
           results observations).*1.
Proof.
  revert observations. induction results as [|entry results IH]; intros observations Hnodup.
  - exact Hnodup.
  - cbn [fold_left]. apply IH, obj_set_NoDup, Hnodup.
Qed.

Lemma last_with_key_Some results key :
  is_Some (last_with_key results key) ↔ key ∈ state_key <$> results.
Proof.
  induction results as [|entry results IH]; cbn [last_with_key fmap list_fmap].
  - split; [intros [? ?]; discriminate|intros Hin; inversion Hin].
  - destruct (last_with_key results key) as [later|].
    + split; [intros _; right; apply IH; eauto|eauto].
    + destruct (decide (state_key entry = key)) as [<-|Hne].
      * split; [intros _; left|eauto].
      * split; [intros [? ?]; discriminate|].
        intros Hin. apply elem_of_cons in Hin as [Heq|Hin]; [congruence|].
        apply IH in Hin. destruct Hin; discriminate.
Qed.

Lemma last_with_key_key results key entry :
  last_with_key results key = Some entry → entry ∈ results ∧ state_key entry = key.
Proof.
  induction results as [|first results IH]; cbn [last_with_key]; [discriminate|].
  destruct (last_with_key results key) as [later|].
  - intros [= <-]. destruct (IH eq_refl) as [Hin Hkey]. split; [right; exact Hin|exact Hkey].
  - destruct (decide (state_key first = key)); [|discriminate].
    intros [= <-]. split; [left|assumption].
Qed.

Lemma last_with_key_None results key :
  last_with_key results key = None → Forall (λ result, state_key result ≠ key) results.
Proof.
  induction results as [|first results IH]; cbn [last_with_key]; [constructor|].
  destruct (last_with_key results key) as [later|]; [discriminate|].
  destruct (decide (state_key first = key)); [discriminate|].
  intros _. constructor; [assumption|apply IH; reflexivity].
Qed.

(** The result [last_with_key] finds has no result with its key after it. *)
Lemma last_with_key_last results key entry :
  last_with_key results key = Some entry →
  ∃ before after, results = before ++ entry :: after
                  ∧ Forall (λ result, state_key result ≠ key) after.
Proof.
  induction results as [|first results IH]; cbn [last_with_key]; [discriminate|].
  destruct (last_with_key results key) as [later|] eqn:Hlater.
  - intros [= <-]. destruct (IH eq_refl) as (before & after & -> & Hafter).
    exists (first :: before), after. split; [reflexivity|exact Hafter].
  - destruct (decide (state_key first = key)); [|discriminate].
    intros [= <-]. exists [], results. split; [reflexivity|].
    apply last_with_key_None, Hlater.
Qed.

Lemma carried_existing existingState key fields :
  previous_record existingState key = VObj fields →
  carried existingState key = get (VObj fields) "lastAppliedAt".
Proof.
  unfold previous_record, carried. intros Hrecord.
  destruct (get existingState "observations") as [| | | | | |known]; try discriminate Hrecord.
  cbn [truthy]. rewrite Hrecord. reflexivity.
Qed.

Lemma carried_new existingState key :
  previous_record existingState key = VUndefined →
  carried existingState key = VNull.
Proof.
  unfold previous_record, carried. intros Hrecord.
  destruct (truthy (get existingState "observations")); [|reflexivity].
  rewrite Hrecord. reflexivity.
Qed.

(** C2, amended.  For a previous state that is not null or undefined,
    updateState returns [{ manifestHash, observations }] with the given hash
    and an observations map that has exactly one entry per key
    "service:state" of the results and no other key.  The entry of a key
    comes from the last result with that key: its status and evidence are
    that observation's, lastValidatedAt is the current time, and
    lastAppliedAt is the previous record's lastAppliedAt when the previous
    state has a record under the key, null when it has nothing there. *)
Theorem updateState_replaces_observations (existingState : value)
    (results : list Validated) (manifestHash : value) (now : string) :
  nullish existingState = false →
  ∃ observations,
    updateState existingState results manifestHash now
      = Return (VObj [("manifestHash", manifestHash); ("observations", VObj observations)])
    ∧ NoDup observations.*1
    ∧ (∀ key, key ∈ observations.*1 ↔
         ∃ result, result ∈ results
                   ∧ key = serviceName (item result) +:+ ":"
                           +:+ ToString (stateId (item result)))
    ∧ (∀ key, key ∈ observations.*1 →
       ∃ before entry after lastAppliedAt,
         results = before ++ entry :: after
         ∧ serviceName (item entry) +:+ ":" +:+ ToString (stateId (item entry)) = key
         ∧ Forall (λ later, serviceName (item later) +:+ ":"
                            +:+ ToString (stateId (item later)) ≠ key) after
         ∧ obj_get observations key
           = Some (VObj [("status", VStr (status (observation entry)));
                         ("evidence", VObj (evidence (observation entry)));
                         ("lastValidatedAt", VStr now);
                         ("lastAppliedAt", lastAppliedAt)])
         ∧ (∀ fields, previous_record existingState key = VObj fields →
                      lastAppliedAt = get (VObj fields) "lastAppliedAt")
         ∧ (previous_record existingState key = VUndefined → lastAppliedAt = VNull)).
Proof.
  intros Hobject.
  set (observations :=
         fold_left (λ o entry, obj_set o (state_key entry)
                                 (record_of existingState now entry)) results []).
  assert (∀ key, key ∈ observations.*1 ↔ key ∈ state_key <$> results) as Hkeys.
  { intros key. rewrite <- obj_get_is_Some, <- last_with_key_Some.
    unfold observations. rewrite stored_lookup.
    destruct (last_with_key results key); cbn [obj_get].
    - split; intros _; eexists; reflexivity.
    - split; intros [? ?]; discriminate. }
  exists observations. split; [|split; [|split]].
  - unfold updateState. rewrite store_loop_returns by exact Hobject. reflexivity.
  - apply stored_NoDup. constructor.
  - intros key. rewrite Hkeys, list_elem_of_fmap. split.
    + intros (result & -> & Hin). exists result. split; [exact Hin|reflexivity].
    + intros (result & Hin & ->). exists result. split; [reflexivity|exact Hin].
  - intros key Hin. apply Hkeys, last_with_key_Some in Hin as [entry Hlast].
    destruct (last_with_key_key _ _ _ Hlast) as [Hentry Hkey].
    destruct (last_with_key_last _ _ _ Hlast) as (before & after & Hsplit & Hafter).
    exists before, entry, after, (carried existingState key).
    split; [exact Hsplit|]. split; [exact Hkey|]. split; [exact Hafter|]. split; [|split].
    + unfold observations. rewrite stored_lookup, Hlast.
      unfold record_of. rewrite Hkey. reflexivity.
    + apply carried_existing.
    + apply carried_new.
Qed.

End Update.

Lemma updateState_replaces_observations_witness :
  ∃ observations,
    updateState (display := demo_display) state_on_disk [deps_healthy; schema_healthy]
      (VStr "sha256:1c") "2026-02-02T08:00:00.000Z"
      = Return (VObj [("manifestHash", VStr "sha256:1c");
                      ("observations", VObj observations)])
    ∧ NoDup observations.*1
    ∧ (∀ key, key ∈ observations.*1 ↔
         ∃ result, result ∈ [deps_healthy; schema_healthy]
                   ∧ key = serviceName (item result) +:+ ":"
                           +:+ text_of (stateId (item result)))
    ∧ (∀ key, key ∈ observations.*1 →
       ∃ before entry after lastAppliedAt,
         [deps_healthy; schema_healthy] = before ++ entry :: after
         ∧ serviceName (item entry) +:+ ":" +:+ text_of (stateId (item entry)) = key
         ∧ Forall (λ later, serviceName (item later) +:+ ":"
                            +:+ text_of (stateId (item later)) ≠ key) after
         ∧ obj_get observations key
           = Some (VObj [("status", VStr (status (observation entry)));
                         ("evidence", VObj (evidence (observation entry)));
                         ("lastValidatedAt", VStr "2026-02-02T08:00:00.000Z");
                         ("lastAppliedAt", lastAppliedAt)])
         ∧ (∀ fields, previous_record state_on_disk key = VObj fields →
                      lastAppliedAt = get (VObj fields) "lastAppliedAt")
         ∧ (previous_record state_on_disk key = VUndefined → lastAppliedAt = VNull)).
Proof.
  exact (updateState_replaces_observations (display := demo_display) state_on_disk
           [deps_healthy; schema_healthy] (VStr "sha256:1c") "2026-02-02T08:00:00.000Z"
           eq_refl).
Defined.

(** The run behind the witness: "api:gone" is dropped, "api:deps" keeps its
    lastAppliedAt, "api:schema" is new and gets null. *)
Example updateState_run :
  updateState (display := demo_display) state_on_disk [deps_healthy; schema_healthy]
    (VStr "sha256:1c") "2026-02-02T08:00:00.000Z"
  = Return
      (VObj [("manifestHash", VStr "sha256:1c");
             ("observations",
              VObj [("api:deps",
                     VObj [("status", VStr "healthy");
                           ("evidence", VObj (evidence (observation deps_healthy)));
                           ("lastValidatedAt", VStr "2026-02-02T08:00:00.000Z");
                           ("lastAppliedAt", VStr "2026-02-01T12:09:42.000Z")]);
                    ("api:schema",
                     VObj [("status", VStr "healthy");
                           ("evidence", VObj (evidence (observation schema_healthy)));
                           ("lastValidatedAt", VStr "2026-02-02T08:00:00.000Z");
                           ("lastAppliedAt", VNull)])])]).
Proof. reflexivity. Qed.

(** C2, as stated, fails on the code: the previous state that loadState
    returns for a state file holding null is null, and updateState throws on
    it as soon as there is a result. *)
Lemma updateState_null_state :
  loadState (platform := demo) disk_null_state DEFAULT_STATE_PATH = Return VNull
  ∧ updateState (display := demo_display) VNull [deps_healthy] (VStr "sha256:1c")
      "2026-02-02T08:00:00.000Z"
    = Throw (cannot_read "observations")
  ∧ ∀ next, updateState (display := demo_display) VNull [deps_healthy] (VStr "sha256:1c")
              "2026-02-02T08:00:00.000Z" ≠ Return next.
Proof.
  split; [vm_compute; reflexivity|]. split; [reflexivity|]. intros next. discriminate.
Qed.

(** ** buildGraph *)

Lemma fold_left_invariant {A B : Type} (I : A → Prop) (f : A → B → A) (xs : list B) (a : A) :
  (∀ a x, I a → I (f a x)) → I a → I (fold_left f xs a).
Proof.
  intros Hstep. revert a. induction xs as [|x xs IH]; intros a Ha; [exact Ha|].
  cbn [fold_left]. apply IH, Hstep, Ha.
Qed.

Lemma for_of_invariant {A S : Type} (I : S → Prop) (xs : list A)
    (body : S → A → result S) (s s' : S) :
  (∀ s x s', I s → body s x = Return s' → I s') →
  I s → for_of xs body s = Return s' → I s'.
Proof.
  intros Hstep. revert s. induction xs as [|x xs IH]; intros s Hs; cbn [for_of].
  - intros [= <-]. exact Hs.
  - destruct (body s x) as [s1|e] eqn:Hbody; [|discriminate]. cbn [mbind result_bind].
    apply IH. exact (Hstep _ _ _ Hs Hbody).
Qed.

Section Graph.
Context `{platform : Platform} `{display : Display}.

Lemma addEdge_tracks st source target why :
  seen_tracks_edges st → seen_tracks_edges (addEdge st source target why).
Proof.
  destruct st as [edges seen]. unfold seen_tracks_edges, addEdge. cbn [fst snd].
  intros [Hseen Hnodup].
  destruct (decide (edge_key source target why ∈ seen)) as [Hin|Hout]; cbn [fst snd].
  - split; assumption.
  - rewrite fmap_app. cbn [fmap list_fmap]. unfold key_of_edge at 2 4. cbn [from to reason].
    split.
    + intros key. rewrite elem_of_union, elem_of_singleton, elem_of_app,
        list_elem_of_singleton, Hseen. tauto.
    + apply NoDup_app. split; [exact Hnodup|]. split; [|apply NoDup_singleton].
      intros key Hkey Hkey'. apply list_elem_of_singleton in Hkey'. subst key.
      apply Hout, Hseen, Hkey.
Qed.

Lemma graph_binding_tracks serviceName st entry :
  seen_tracks_edges st → seen_tracks_edges (graph_binding serviceName st entry).
Proof.
  destruct entry as [varName binding]. unfold graph_binding. intros Hst.
  destruct (if truthy binding then get binding "from" else binding); try exact Hst.
  destruct (includes s "."); [apply addEdge_tracks|]; exact Hst.
Qed.

Lemma graph_service_tracks st st' entry :
  seen_tracks_edges st → graph_service st entry = Return st' → seen_tracks_edges st'.
Proof.
  destruct entry as [serviceName service]. unfold graph_service. intros Hst.
  destruct (requires_of service) as [requires|e]; [|discriminate]. cbn [mbind result_bind].
  destruct (iterate requires) as [required|e]; [|discriminate]. cbn [mbind result_bind].
  intros [= <-].
  apply fold_left_invariant; [intros; apply graph_binding_tracks; assumption|].
  apply fold_left_invariant; [|exact Hst].
  intros st' required' Hst'. apply addEdge_tracks, Hst'.
Qed.

(** Whatever the manifest, no key, and so no (from, to, reason) triple,
    occurs twice in a graph that buildGraph returns. *)
Lemma buildGraph_no_key_twice (manifest : value) (edges : list GraphEdge) :
  buildGraph manifest = Return edges →
  NoDup (key_of_edge <$> edges) ∧ NoDup edges.
Proof.
  unfold buildGraph.
  destruct (read_of manifest "services") as [services|e]; [|discriminate].
  cbn [mbind result_bind].
  destruct (for_of _ graph_service ([], ∅)) as [st|e] eqn:Hloop; [|discriminate].
  cbn [mbind result_bind]. intros [= <-].
  assert (seen_tracks_edges st) as [_ Hnodup].
  { apply (for_of_invariant seen_tracks_edges _ _ _ _
             (λ s x s', graph_service_tracks s s' x)) in Hloop; [exact Hloop|].
    split; [|constructor]. intros key. cbn. rewrite elem_of_empty, elem_of_nil. tauto. }
  split; [exact Hnodup|]. eapply NoDup_fmap_1, Hnodup.
Qed.

End Graph.

(** C5 fails on the code at [colliding_edges]: the two requires edges are
    different (from, to, reason) triples, but addEdge gives both the key
    "a->b->c:requires", and the second one is suppressed as a duplicate. *)
Theorem buildGraph_drops_distinct_edge :
  buildGraph (platform := demo) (display := demo_display) colliding_edges
    = Return [{| from := "a"; to := VStr "b->c"; reason := "requires" |}]
  ∧ edge_key (display := demo_display) "a" (VStr "b->c") "requires"
    = edge_key (display := demo_display) "a->b" (VStr "c") "requires"
  ∧ ∀ edges,
      buildGraph (platform := demo) (display := demo_display) colliding_edges
        = Return edges →
      {| from := "a->b"; to := VStr "c"; reason := "requires" |} ∉ edges.
Proof.
  assert (buildGraph (platform := demo) (display := demo_display) colliding_edges
          = Return [{| from := "a"; to := VStr "b->c"; reason := "requires" |}]) as Hgraph
    by (vm_compute; reflexivity).
  split; [exact Hgraph|]. split; [reflexivity|].
  intros edges. rewrite Hgraph. intros [= <-] Hin.
  apply list_elem_of_singleton in Hin. discriminate.
Qed.

(** ** JSON texts *)

Lemma value_induction (P : value → Prop) :
  P VUndefined → P VNull → (∀ b, P (VBool b)) → (∀ n, P (VNum n)) → (∀ s, P (VStr s)) →
  (∀ items, Forall P items → P (VArr items)) →
  (∀ props, Forall (λ p : string * value, P p.2) props → P (VObj props)) →
  ∀ v, P v.
Proof.
  intros Hundefined Hnull Hbool Hnum Hstr Harr Hobj.
  fix IH 1. intros [| |b|n|s|items|props].
  - exact Hundefined.
  - exact Hnull.
  - apply Hbool.
  - apply Hnum.
  - apply Hstr.
  - apply Harr. induction items as [|x items IHitems]; constructor; [apply IH|exact IHitems].
  - apply Hobj. induction props as [|[k x] props IHprops]; constructor;
      [apply IH|exact IHprops].
Qed.

Module JSONFacts.
Import MiniJSON.

Lemma append_assoc (s t u : string) : (s +:+ t) +:+ u = s +:+ (t +:+ u).
Proof.
  induction s as [|a s IH]; [reflexivity|].
  rewrite !append_String, IH. reflexivity.
Qed.

Lemma append_empty_r (s : string) : s +:+ EmptyString = s.
Proof. induction s as [|a s IH]; [reflexivity|]. rewrite append_String, IH. reflexivity. Qed.

Lemma length_append (s t : string) :
  String.length (s +:+ t) = String.length s + String.length t.
Proof. induction s as [|a s IH]; [reflexivity|]. rewrite append_String. cbn. rewrite IH. reflexivity. Qed.

Lemma skip_ws_ws (w s : string) : all_ws w = true → skip_ws (w +:+ s) = skip_ws s.
Proof.
  induction w as [|c w IH]; [reflexivity|]. cbn [all_ws]. intros Hw.
  apply andb_true_iff in Hw as [Hc Hw]. rewrite append_String. cbn [skip_ws].
  rewrite Hc. apply IH, Hw.
Qed.

Lemma skip_ws_head (c : ascii) (s : string) :
  is_ws c = false → skip_ws (String c s) = String c s.
Proof. intros Hc. cbn [skip_ws]. rewrite Hc. reflexivity. Qed.

Lemma value_at_ws (fuel : nat) (w s : string) :
  all_ws w = true → value_at fuel (w +:+ s) = value_at fuel s.
Proof.
  intros Hw. destruct fuel; [reflexivity|]. cbn [value_at].
  rewrite skip_ws_ws by exact Hw. reflexivity.
Qed.

Lemma elements_at_ws (fuel : nat) (w s : string) :
  all_ws w = true → elements_at fuel (w +:+ s) = elements_at fuel s.
Proof.
  intros Hw. destruct fuel; [reflexivity|]. cbn [elements_at].
  rewrite value_at_ws by exact Hw. reflexivity.
Qed.

Lemma members_at_ws (fuel : nat) (w s : string) (acc : obj value) :
  all_ws w = true → members_at fuel (w +:+ s) acc = members_at fuel s acc.
Proof.
  intros Hw. destruct fuel; [reflexivity|]. cbn [members_at].
  rewrite skip_ws_ws by exact Hw. reflexivity.
Qed.

Lemma string_body_escape (c : ascii) (rest : string) :
  string_body (escape c +:+ rest) = cons_char c (string_body rest).
Proof.
  destruct c as [[] [] [] [] [] [] [] []]; reflexivity.
Qed.

Lemma string_body_quote (s rest : string) :
  string_body (escape_all s +:+ String dquote rest) = Some (s, rest).
Proof.
  induction s as [|c s IH].
  - reflexivity.
  - cbn [escape_all]. rewrite append_assoc, string_body_escape, IH. reflexivity.
Qed.

Lemma digits_all_but_last (rest : string) :
  ends_number rest = true → digits rest = (EmptyString, rest).
Proof.
  destruct rest as [|c rest]; [reflexivity|]. cbn.
  destruct (is_digit c); [discriminate|reflexivity].
Qed.

Lemma digits_uint (d : Decimal.uint) (rest : string) :
  ends_number rest = true →
  digits (NilEmpty.string_of_uint d +:+ rest) = (NilEmpty.string_of_uint d, rest).
Proof.
  intros Hrest. induction d; cbn [NilEmpty.string_of_uint];
    rewrite ?append_empty, ?append_String;
    [apply digits_all_but_last, Hrest|..];
    cbn [digits]; rewrite IHd; reflexivity.
Qed.

Lemma uint_text_head (d : Decimal.uint) :
  d ≠ Decimal.Nil →
  ∃ c t, NilEmpty.string_of_uint d = String c t ∧ is_digit c = true.
Proof.
  destruct d; [contradiction|..]; intros _; eexists _, _; split; reflexivity.
Qed.

Lemma integer_text (z : Z) : integer (NilZero.string_of_int (Z.to_int z)) = Some z.
Proof.
  unfold integer. rewrite NilZero.isi.
  - rewrite DecimalZ.of_to, String.eqb_refl. reflexivity.
  - destruct z; cbn; [discriminate|..]; intros [= Hnil];
      exact (Unsigned.to_uint_nonnil _ Hnil).
  - destruct z; cbn; [discriminate|..]; intros [= Hnil];
      exact (Unsigned.to_uint_nonnil _ Hnil).
Qed.

Lemma NilZero_text (d : Decimal.uint) :
  d ≠ Decimal.Nil → NilZero.string_of_uint d = NilEmpty.string_of_uint d.
Proof. destruct d; [contradiction|..]; reflexivity. Qed.

Lemma number_literal_unsigned (d : Decimal.uint) (z : Z) (rest : string) :
  d ≠ Decimal.Nil → ends_number rest = true →
  integer (NilEmpty.string_of_uint d) = Some z →
  number_literal (NilEmpty.string_of_uint d +:+ rest) = Some (VNum (Finite z), rest).
Proof.
  intros Hd Hrest Hinteger. unfold number_literal.
  assert (match NilEmpty.string_of_uint d +:+ rest with
          | String c s' =>
              if decide (c = "-"%char) then ("-", s')
              else (EmptyString, NilEmpty.string_of_uint d +:+ rest)
          | EmptyString => (EmptyString, NilEmpty.string_of_uint d +:+ rest)
          end = (EmptyString, NilEmpty.string_of_uint d +:+ rest)) as ->.
  { destruct (uint_text_head d Hd) as (c & t & -> & Hdigit). rewrite append_String.
    destruct (decide (c = "-"%char)) as [->|_]; [discriminate Hdigit|reflexivity]. }
  rewrite digits_uint by exact Hrest. rewrite Hrest, append_empty, Hinteger. reflexivity.
Qed.

Lemma number_literal_text (z : Z) (rest : string) :
  ends_number rest = true →
  number_literal (number (Finite z) +:+ rest) = Some (VNum (Finite z), rest).
Proof.
  intros Hrest. unfold number.
  pose proof (integer_text z) as Hinteger.
  destruct z as [|p|p]; cbn [Z.to_int NilZero.string_of_int] in *.
  - apply (number_literal_unsigned (Decimal.D0 Decimal.Nil)); [discriminate|assumption..].
  - rewrite NilZero_text in * by apply Unsigned.to_uint_nonnil.
    apply number_literal_unsigned; [apply Unsigned.to_uint_nonnil|assumption..].
  - rewrite NilZero_text in * by apply Unsigned.to_uint_nonnil.
    unfold number_literal. rewrite append_String.
    destruct (decide ("-"%char = "-"%char)) as [_|Hne]; [|destruct Hne; reflexivity].
    rewrite digits_uint by exact Hrest. rewrite Hrest.
    change ("-" +:+ NilEmpty.string_of_uint (Pos.to_uint p))
      with (String "-" (NilEmpty.string_of_uint (Pos.to_uint p))).
    rewrite Hinteger. reflexivity.
Qed.

Lemma all_ws_app (w1 w2 : string) :
  all_ws w1 = true → all_ws w2 = true → all_ws (w1 +:+ w2) = true.
Proof.
  intros H1 H2. induction w1 as [|c w1 IH]; [exact H2|].
  rewrite append_String. cbn [all_ws] in *.
  apply andb_true_iff in H1 as [Hc H1]. rewrite Hc, IH by exact H1. reflexivity.
Qed.

Lemma is_digit_plain (c : ascii) :
  is_digit c = true →
  is_ws c = false ∧ c ≠ "]"%char ∧ c ≠ "}"%char ∧ c ≠ "n"%char ∧ c ≠ "t"%char
  ∧ c ≠ "f"%char ∧ c ≠ dquote ∧ c ≠ "["%char ∧ c ≠ "{"%char.
Proof.
  destruct c as [[] [] [] [] [] [] [] []]; cbn; intros Hdigit; try discriminate Hdigit;
    repeat split; discriminate.
Qed.

Lemma text_at_starts (indent : string) (v : value) : starts_value (text_at indent v).
Proof.
  unfold starts_value, text_at.
  destruct v as [| |b|n|s|items|props]; cbn [stringify_at default].
  - eexists _, _. split; [reflexivity|]. repeat split; discriminate.
  - eexists _, _. split; [reflexivity|]. repeat split; discriminate.
  - destruct b; eexists _, _; (split; [reflexivity|]); repeat split; discriminate.
  - destruct n as [| |z]; cbn [number];
      try (eexists _, _; (split; [reflexivity|]); repeat split; discriminate).
    destruct z as [|p|p]; cbn [Z.to_int NilZero.string_of_int].
    + eexists _, _. split; [reflexivity|]. repeat split; discriminate.
    + rewrite NilZero_text by apply Unsigned.to_uint_nonnil.
      destruct (uint_text_head (Pos.to_uint p) (Unsigned.to_uint_nonnil p))
        as (c & t & -> & Hdigit).
      exists c, t. split; [reflexivity|].
      destruct (is_digit_plain c Hdigit) as (? & ? & ? & _). auto.
    + eexists _, _. split; [reflexivity|]. repeat split; discriminate.
  - eexists _, _. split; [reflexivity|]. repeat split; discriminate.
  - unfold block. destruct (map _ items);
      eexists _, _; (split; [reflexivity|]); repeat split; discriminate.
  - unfold block. destruct (omap _ props);
      eexists _, _; (split; [reflexivity|]); repeat split; discriminate.
Qed.

Lemma ends_number_comma (s : string) : ends_number (String ","%char s) = true.
Proof. reflexivity. Qed.

Lemma all_ws_inner (indent : string) :
  all_ws indent = true → all_ws (newline +:+ (indent +:+ "  ")) = true.
Proof. intros Hindent. apply all_ws_app; [reflexivity|]. apply all_ws_app; [exact Hindent|reflexivity]. Qed.

Lemma all_ws_outer (indent : string) :
  all_ws indent = true → all_ws (newline +:+ indent) = true.
Proof. intros Hindent. apply all_ws_app; [reflexivity|exact Hindent]. Qed.

Lemma concat_cons (sep t t' : string) (ts : list string) :
  String.concat sep (t :: t' :: ts) = t +:+ sep +:+ String.concat sep (t' :: ts).
Proof. reflexivity. Qed.

Lemma sep_text (inner rest : string) :
  ("," +:+ newline +:+ inner) +:+ rest = String ","%char ((newline +:+ inner) +:+ rest).
Proof. reflexivity. Qed.

Lemma elements_text (items : list value) :
  Forall reads_back items → forallb json_value items = true → items ≠ [] →
  ∀ inner closing rest fuel,
    all_ws inner = true → skip_ws closing = String "]"%char rest →
    ends_number closing = true →
    (list_sum (map (λ item, S (weight item)) items) ≤ fuel)%nat →
    elements_at fuel
      (String.concat ("," +:+ newline +:+ inner) (map (text_at inner) items) +:+ closing)
    = Some (items, rest).
Proof.
  induction items as [|x items IH]; [contradiction|].
  intros Hreads Hjson _ inner closing rest fuel Hinner Hclosing Hends Hfuel.
  apply Forall_cons in Hreads as [Hx Hreads].
  cbn [forallb] in Hjson. apply andb_true_iff in Hjson as [Hjx Hjson].
  cbn [map list_sum fold_right] in Hfuel.
  destruct fuel as [|fuel]; [lia|]. cbn [elements_at].
  destruct items as [|y items].
  - cbn [map String.concat].
    rewrite (Hx Hjx inner closing fuel Hinner Hends) by lia.
    rewrite Hclosing.
    rewrite decide_False by discriminate. rewrite decide_True by reflexivity. reflexivity.
  - cbn [map]. rewrite concat_cons.
    rewrite (append_assoc (text_at inner x)), (append_assoc ("," +:+ newline +:+ inner)).
    rewrite sep_text.
    rewrite (Hx Hjx inner _ fuel Hinner (ends_number_comma _)) by lia.
    rewrite skip_ws_head by reflexivity.
    rewrite decide_True by reflexivity.
    rewrite elements_at_ws by (apply all_ws_outer; exact Hinner).
    change (text_at inner y :: map (text_at inner) items)
      with (map (text_at inner) (y :: items)).
    rewrite (IH Hreads Hjson ltac:(discriminate) inner closing rest fuel Hinner Hclosing Hends)
      by (cbn [map list_sum fold_right] in *; lia).
    reflexivity.
Qed.

Lemma stringify_defined (indent : string) (v : value) :
  json_value v = true → stringify_at indent v = Some (text_at indent v).
Proof. unfold text_at. destruct v; cbn; [discriminate|reflexivity..]. Qed.

Lemma omap_members (inner : string) (props : list (string * value)) :
  forallb (λ p : string * value, json_value p.2) props = true →
  omap (λ p : string * value,
          (λ text, quote p.1 +:+ ": " +:+ text) <$> stringify_at inner p.2) props
  = map (member_text inner) props.
Proof.
  induction props as [|p props IH]; [reflexivity|]. cbn [forallb]. intros Hjson.
  apply andb_true_iff in Hjson as [Hp Hjson].
  cbn [omap list_omap map]. rewrite (stringify_defined inner p.2 Hp). cbn [fmap option_fmap option_map].
  rewrite <- (IH Hjson). reflexivity.
Qed.

Lemma member_shape (inner : string) (k : string) (v : value) (rest : string) :
  member_text inner (k, v) +:+ rest
  = String dquote
      (escape_all k +:+ String dquote (String ":"%char (String " "%char (text_at inner v +:+ rest)))).
Proof.
  unfold member_text, quote. cbn [fst snd].
  rewrite !append_String, !append_assoc. reflexivity.
Qed.

Lemma value_at_space (fuel : nat) (s : string) :
  value_at fuel (String " "%char s) = value_at fuel s.
Proof. exact (value_at_ws fuel " " s eq_refl). Qed.

Lemma members_text (props : list (string * value)) :
  Forall (λ p : string * value, reads_back p.2) props →
  forallb (λ p : string * value, json_value p.2) props = true → props ≠ [] →
  ∀ inner closing rest fuel acc,
    all_ws inner = true → skip_ws closing = String "}"%char rest →
    ends_number closing = true →
    (list_sum (map (λ p : string * value, S (weight p.2)) props) ≤ fuel)%nat →
    members_at fuel
      (String.concat ("," +:+ newline +:+ inner) (map (member_text inner) props) +:+ closing)
      acc
    = Some (fold_left (λ a (p : string * value), obj_set a p.1 p.2) props acc, rest).
Proof.
  induction props as [|[k v] props IH]; [contradiction|].
  intros Hreads Hjson _ inner closing rest fuel acc Hinner Hclosing Hends Hfuel.
  apply Forall_cons in Hreads as [Hv Hreads]. cbn [fst snd] in Hv.
  cbn [forallb] in Hjson. apply andb_true_iff in Hjson as [Hjv Hjson].
  cbn [fst snd] in Hjv.
  cbn [map list_sum fold_right fst snd] in Hfuel.
  destruct fuel as [|fuel]; [lia|]. cbn [members_at fold_left fst snd].
  destruct props as [|q props].
  - cbn [map String.concat]. rewrite member_shape.
    rewrite skip_ws_head by reflexivity. rewrite decide_True by reflexivity.
    rewrite string_body_quote. rewrite skip_ws_head by reflexivity.
    rewrite decide_True by reflexivity.
    rewrite value_at_space.
    rewrite (Hv Hjv inner closing fuel Hinner Hends) by lia.
    rewrite Hclosing.
    rewrite decide_False by discriminate. rewrite decide_True by reflexivity. reflexivity.
  - cbn [map]. rewrite concat_cons.
    rewrite (append_assoc (member_text inner (k, v))),
      (append_assoc ("," +:+ newline +:+ inner)).
    rewrite sep_text, member_shape.
    rewrite skip_ws_head by reflexivity. rewrite decide_True by reflexivity.
    rewrite string_body_quote. rewrite skip_ws_head by reflexivity.
    rewrite decide_True by reflexivity.
    rewrite value_at_space.
    rewrite (Hv Hjv inner _ fuel Hinner (ends_number_comma _)) by lia.
    rewrite skip_ws_head by reflexivity.
    rewrite decide_True by reflexivity.
    rewrite members_at_ws by (apply all_ws_outer; exact Hinner).
    change (member_text inner q :: map (member_text inner) props)
      with (map (member_text inner) (q :: props)).
    apply (IH Hreads Hjson ltac:(discriminate)); try assumption.
    cbn [map list_sum fold_right] in *. lia.
Qed.

Lemma block_text (opening closing indent rest : string) (members : list string) :
  members ≠ [] →
  block opening closing indent members +:+ rest
  = opening +:+ ((newline +:+ (indent +:+ "  "))
      +:+ (String.concat ("," +:+ newline +:+ (indent +:+ "  ")) members
           +:+ ((newline +:+ indent) +:+ (closing +:+ rest)))).
Proof.
  intros Hmembers. unfold block. destruct members; [contradiction|].
  rewrite !append_assoc. reflexivity.
Qed.

Lemma concat_starts (sep closing t : string) (ts : list string) :
  starts_value t → starts_value (String.concat sep (t :: ts) +:+ closing).
Proof.
  intros (c & r & -> & Hc). destruct ts as [|t' ts].
  - cbn [String.concat]. rewrite append_String. eexists _, _. split; [reflexivity|exact Hc].
  - rewrite concat_cons, !append_String. eexists _, _. split; [reflexivity|exact Hc].
Qed.

Lemma member_starts (inner : string) (p : string * value) :
  starts_value (member_text inner p).
Proof.
  destruct p as [k v]. rewrite <- (append_empty_r (member_text inner (k, v))), member_shape.
  eexists _, _. split; [reflexivity|]. repeat split; discriminate.
Qed.

Lemma closing_bracket (indent rest : string) (c : ascii) :
  all_ws indent = true → is_ws c = false →
  skip_ws ((newline +:+ indent) +:+ (String c EmptyString +:+ rest)) = String c rest
  ∧ ends_number ((newline +:+ indent) +:+ (String c EmptyString +:+ rest)) = true.
Proof.
  intros Hindent Hc. split; [|reflexivity].
  rewrite skip_ws_ws by (apply all_ws_outer; exact Hindent).
  apply skip_ws_head, Hc.
Qed.

(** Every JSON value is read back from its text. *)
Lemma value_reads_back (v : value) : reads_back v.
Proof.
  induction v as [| |b|n|s|items IH|props IH] using value_induction;
    intros Hjson indent rest fuel Hindent Hrest Hfuel;
    (destruct fuel as [|fuel]; [cbn [weight] in Hfuel; lia|]).
  - discriminate Hjson.
  - reflexivity.
  - destruct b; reflexivity.
  - destruct n as [| |z]; try discriminate Hjson.
    unfold text_at. cbn [stringify_at default from_option id].
    destruct (text_at_starts indent (VNum (Finite z))) as (c & t & Htext & Hc).
    unfold text_at in Htext. cbn [stringify_at default from_option id] in Htext.
    pose proof (number_literal_text z rest Hrest) as Hnumber.
    assert (is_number_start : c = "-"%char ∨ is_digit c = true).
    { revert Htext. unfold number. destruct z as [|p|p];
        cbn [Z.to_int NilZero.string_of_int].
      - intros [= <- _]. right. reflexivity.
      - rewrite NilZero_text by apply Unsigned.to_uint_nonnil.
        destruct (uint_text_head (Pos.to_uint p) (Unsigned.to_uint_nonnil p))
          as (c' & t' & -> & Hdigit). intros [= <- _]. right. exact Hdigit.
      - intros [= <- _]. left. reflexivity. }
    cbn [value_at]. revert Hnumber. rewrite Htext, append_String. intros Hnumber.
    rewrite skip_ws_head by apply Hc.
    assert (c ≠ "n"%char ∧ c ≠ "t"%char ∧ c ≠ "f"%char ∧ c ≠ dquote
            ∧ c ≠ "["%char ∧ c ≠ "{"%char) as (? & ? & ? & ? & ? & ?).
    { destruct is_number_start as [->|Hdigit]; [repeat split; discriminate|].
      destruct (is_digit_plain c Hdigit) as (_ & _ & _ & ? & ? & ? & ? & ? & ?).
      repeat split; assumption. }
    rewrite !decide_False by assumption. exact Hnumber.
  - unfold text_at. cbn [stringify_at default from_option id value_at]. unfold quote.
    rewrite append_String, append_assoc, append_String, append_empty.
    rewrite skip_ws_head by reflexivity.
    rewrite !decide_False by discriminate. rewrite decide_True by reflexivity.
    rewrite string_body_quote. reflexivity.
  - cbn [json_value] in Hjson. cbn [weight] in Hfuel.
    unfold text_at. cbn [stringify_at default from_option id].
    change (map (λ item, default "null" (stringify_at (indent +:+ "  ") item)) items)
      with (map (text_at (indent +:+ "  ")) items).
    destruct items as [|x items]; [reflexivity|].
    rewrite block_text by discriminate.
    cbn [value_at]. rewrite append_String, append_empty.
    rewrite skip_ws_head by reflexivity.
    rewrite !decide_False by discriminate. rewrite decide_True by reflexivity.
    rewrite skip_ws_ws by (apply all_ws_inner; exact Hindent).
    destruct (closing_bracket indent rest "]" Hindent eq_refl) as [Hclosing Hends].
    destruct (concat_starts ("," +:+ newline +:+ (indent +:+ "  "))
                ((newline +:+ indent) +:+ ("]" +:+ rest))
                (text_at (indent +:+ "  ") x) (map (text_at (indent +:+ "  ")) items)
                (text_at_starts _ x)) as (c & r & Hhead & Hc & Hnot & _).
    change (text_at (indent +:+ "  ") x :: map (text_at (indent +:+ "  ")) items)
      with (map (text_at (indent +:+ "  ")) (x :: items)) in Hhead.
    rewrite Hhead. rewrite skip_ws_head by exact Hc.
    rewrite decide_False by exact Hnot. rewrite <- Hhead.
    rewrite (elements_text (x :: items) IH Hjson ltac:(discriminate)
               (indent +:+ "  ") _ rest fuel); try assumption; try reflexivity.
    + apply all_ws_app; [exact Hindent|reflexivity].
    + lia.
  - cbn [json_value] in Hjson. apply andb_true_iff in Hjson as [Hkeys Hjson].
    apply bool_decide_eq_true in Hkeys. cbn [weight] in Hfuel.
    unfold text_at. cbn [stringify_at default from_option id].
    rewrite omap_members by exact Hjson.
    destruct props as [|[k x] props]; [reflexivity|].
    rewrite block_text by discriminate.
    cbn [value_at]. rewrite append_String, append_empty.
    rewrite skip_ws_head by reflexivity.
    rewrite !decide_False by discriminate. rewrite decide_True by reflexivity.
    rewrite skip_ws_ws by (apply all_ws_inner; exact Hindent).
    destruct (closing_bracket indent rest "}" Hindent eq_refl) as [Hclosing Hends].
    destruct (concat_starts ("," +:+ newline +:+ (indent +:+ "  "))
                ((newline +:+ indent) +:+ ("}" +:+ rest))
                (member_text (indent +:+ "  ") (k, x))
                (map (member_text (indent +:+ "  ")) props)
                (member_starts _ _)) as (c & r & Hhead & Hc & _ & Hnot).
    change (member_text (indent +:+ "  ") (k, x)
            :: map (member_text (indent +:+ "  ")) props)
      with (map (member_text (indent +:+ "  ")) ((k, x) :: props)) in Hhead.
    rewrite Hhead. rewrite skip_ws_head by exact Hc.
    rewrite decide_False by exact Hnot. rewrite <- Hhead.
    rewrite (members_text ((k, x) :: props) IH Hjson ltac:(discriminate)
               (indent +:+ "  ") _ rest fuel []); try assumption; try reflexivity.
    + rewrite fold_obj_set by exact Hkeys. reflexivity.
    + apply all_ws_app; [exact Hindent|reflexivity].
    + lia.
Qed.

Lemma concat_length (sep : string) (ts : list string) :
  (1 ≤ String.length sep)%nat →
  (list_sum (map (λ t, S (String.length t)) ts) ≤ S (String.length (String.concat sep ts)))%nat.
Proof.
  intros Hsep. induction ts as [|t ts IH]; [cbn; lia|].
  destruct ts as [|t' ts]; [cbn; lia|].
  rewrite concat_cons, !length_append.
  cbn [map list_sum fold_right] in *. lia.
Qed.

Lemma block_length (opening closing indent : string) (members : list string) :
  (String.length opening + list_sum (map (λ t, S (String.length t)) members)
   ≤ String.length (block opening closing indent members) + 0)%nat.
Proof.
  unfold block. destruct members as [|t ts].
  - rewrite length_append. cbn. lia.
  - pose proof (concat_length ("," +:+ newline +:+ (indent +:+ "  ")) (t :: ts)) as Hconcat.
    rewrite !length_append in *. cbn [String.length newline] in *.
    specialize (Hconcat ltac:(lia)). lia.
Qed.

Lemma list_sum_cons (n : nat) (ns : list nat) : list_sum (n :: ns) = n + list_sum ns.
Proof. reflexivity. Qed.

Lemma list_sum_le {A : Type} (f g : A → nat) (xs : list A) :
  Forall (λ x, f x ≤ g x)%nat xs → (list_sum (map f xs) ≤ list_sum (map g xs))%nat.
Proof.
  induction 1 as [|x xs Hx _ IH]; [reflexivity|].
  cbn beta in Hx. cbn [map]. rewrite !list_sum_cons. lia.
Qed.

(** The text of a JSON value is at least as long as the fuel it takes. *)
Lemma weight_le_length (v : value) :
  json_value v = true → ∀ indent, (weight v ≤ String.length (text_at indent v))%nat.
Proof.
  induction v as [| |b|n|s|items IH|props IH] using value_induction; intros Hjson indent.
  1-5: match goal with
       | |- (_ ≤ String.length (text_at _ ?v))%nat =>
           destruct (text_at_starts indent v) as (c & t & Heq & _); rewrite Heq; cbn; lia
       end.
  - cbn [json_value] in Hjson. unfold text_at. cbn [stringify_at default from_option id weight].
    change (map (λ item, default "null" (stringify_at (indent +:+ "  ") item)) items)
      with (map (text_at (indent +:+ "  ")) items).
    pose proof (block_length "[" "]" indent (map (text_at (indent +:+ "  ")) items)) as Hblock.
    rewrite map_map in Hblock. cbn [String.length] in Hblock.
    enough (list_sum (map (λ item, S (weight item)) items)
            ≤ list_sum (map (λ x, S (String.length (text_at (indent +:+ "  ") x))) items))%nat
      by lia.
    apply list_sum_le. rewrite forallb_forall in Hjson. rewrite Forall_forall in IH |- *.
    intros x Hx. apply le_n_S, IH; [exact Hx|]. apply Hjson, list_elem_of_In, Hx.
  - cbn [json_value] in Hjson. apply andb_true_iff in Hjson as [_ Hjson].
    unfold text_at. cbn [stringify_at default from_option id weight].
    rewrite omap_members by exact Hjson.
    pose proof (block_length "{" "}" indent (map (member_text (indent +:+ "  ")) props))
      as Hblock.
    rewrite map_map in Hblock. cbn [String.length] in Hblock.
    enough (list_sum (map (λ p : string * value, S (weight p.2)) props)
            ≤ list_sum (map (λ p, S (String.length (member_text (indent +:+ "  ") p))) props))%nat
      by lia.
    apply list_sum_le. rewrite forallb_forall in Hjson. rewrite Forall_forall in IH |- *.
    intros p Hp. apply le_n_S.
    transitivity (String.length (text_at (indent +:+ "  ") p.2)).
    + apply IH; [exact Hp|]. apply Hjson, list_elem_of_In, Hp.
    + unfold member_text. rewrite !length_append. lia.
Qed.

(** JSON.parse(JSON.stringify(v, null, 2)) is v, for every JSON value v. *)
Theorem parse_stringify (v : value) :
  json_value v = true →
  ∃ text, stringify v = Some text ∧ parse text = Some v.
Proof.
  intros Hjson. exists (text_at EmptyString v). split.
  - apply stringify_defined, Hjson.
  - unfold parse.
    rewrite <- (append_empty_r (text_at EmptyString v)) at 2.
    rewrite (value_reads_back v Hjson EmptyString EmptyString); try reflexivity.
    apply weight_le_length, Hjson.
Qed.

End JSONFacts.

(** ** The file system *)

Lemma length_append_one (s : string) (c : ascii) :
  String.length (s +:+ String c EmptyString) = S (String.length s).
Proof. rewrite JSONFacts.length_append. cbn. lia. Qed.

(** A directory above a path has a shorter name. *)
Lemma above_from_longer (done rest d : string) :
  d ∈ above_from done rest →
  (String.length done ≤ String.length d < String.length done + String.length rest)%nat.
Proof.
  revert done. induction rest as [|c rest IH]; intros done; cbn [above_from].
  - intros Hin. inversion Hin.
  - rewrite elem_of_app. intros [Hin|Hin].
    + destruct (bool_decide (c = "/"%char) && negb (String.eqb done EmptyString));
        [|inversion Hin].
      apply list_elem_of_singleton in Hin. subst d. cbn. lia.
    + apply IH in Hin. rewrite length_append_one in Hin. cbn. lia.
Qed.

Lemma above_not_self (p : string) : p ∉ above p.
Proof.
  intros Hin. apply above_from_longer in Hin. cbn in Hin. lia.
Qed.

Lemma make_directory_cases (dir : string) (fs : FS) (d : string) :
  match fs !! d with
  | Some Directory => make_directory dir fs d = Return fs
  | Some (File _) => ∃ e, make_directory dir fs d = Throw e
  | None => make_directory dir fs d = Return (<[d := Directory]> fs)
  end.
Proof.
  unfold make_directory. destruct (fs !! d) as [[content|]|]; [eexists| |]; reflexivity.
Qed.

(** What a recursive mkdir leaves behind: directories where it went, and
    everything that was there. *)
Lemma make_directories (dir : string) (dirs : list string) (fs fs' : FS) :
  for_of dirs (make_directory dir) fs = Return fs' →
  (∀ d, d ∈ dirs → fs' !! d = Some Directory)
  ∧ (∀ q, q ∉ dirs → fs' !! q = fs !! q)
  ∧ (∀ q node, fs !! q = Some node → fs' !! q = Some node).
Proof.
  revert fs. induction dirs as [|d dirs IH]; intros fs; cbn [for_of].
  - intros [= <-]. split; [intros d Hin; inversion Hin|]. split; auto.
  - pose proof (make_directory_cases dir fs d) as Hstep.
    destruct (fs !! d) as [[content|]|] eqn:Hd.
    + destruct Hstep as [e ->]. discriminate.
    + rewrite Hstep. cbn [mbind result_bind]. intros Hrest.
      destruct (IH _ Hrest) as (Hmade & Hframe & Hkept).
      split; [|split].
      * intros d' Hin. apply elem_of_cons in Hin as [->|Hin]; [|apply Hmade, Hin].
        apply Hkept, Hd.
      * intros q Hout. apply not_elem_of_cons in Hout as [_ Hout]. apply Hframe, Hout.
      * exact Hkept.
    + rewrite Hstep. cbn [mbind result_bind]. intros Hrest.
      destruct (IH _ Hrest) as (Hmade & Hframe & Hkept).
      split; [|split].
      * intros d' Hin. apply elem_of_cons in Hin as [->|Hin]; [|apply Hmade, Hin].
        apply Hkept, lookup_insert_eq.
      * intros q Hout. apply not_elem_of_cons in Hout as [Hne Hout].
        rewrite (Hframe _ Hout). apply lookup_insert_ne. congruence.
      * intros q node Hq. apply Hkept.
        rewrite lookup_insert_ne; [exact Hq|]. intros ->. congruence.
Qed.

Lemma make_directories_returns (dir : string) (dirs : list string) (fs : FS) :
  (∀ d content, d ∈ dirs → fs !! d ≠ Some (File content)) →
  ∃ fs', for_of dirs (make_directory dir) fs = Return fs'.
Proof.
  revert fs. induction dirs as [|d dirs IH]; intros fs Hfree; cbn [for_of].
  - eexists. reflexivity.
  - pose proof (make_directory_cases dir fs d) as Hstep.
    destruct (fs !! d) as [[content|]|] eqn:Hd.
    + destruct (Hfree d content); [left|exact Hd].
    + rewrite Hstep. cbn [mbind result_bind].
      apply IH. intros d' content Hin. apply Hfree. right. exact Hin.
    + rewrite Hstep. cbn [mbind result_bind].
      apply IH. intros d' content Hin.
      destruct (decide (d = d')) as [<-|Hne].
      * rewrite lookup_insert_eq. discriminate.
      * rewrite lookup_insert_ne by exact Hne. apply Hfree. right. exact Hin.
Qed.

Lemma make_directories_again (dir : string) (dirs : list string) (fs : FS) :
  (∀ d, d ∈ dirs → fs !! d = Some Directory) →
  for_of dirs (make_directory dir) fs = Return fs.
Proof.
  induction dirs as [|d dirs IH]; intros Hthere; cbn [for_of]; [reflexivity|].
  pose proof (make_directory_cases dir fs d) as Hstep.
  rewrite (Hthere d) in Hstep by left. rewrite Hstep. cbn [mbind result_bind].
  apply IH. intros d' Hin. apply Hthere. right. exact Hin.
Qed.

Lemma blocked_none (fs : FS) (dirs : list string) :
  blocked fs dirs = None ↔ ∀ d, d ∈ dirs → fs !! d = Some Directory.
Proof.
  induction dirs as [|d dirs IH]; cbn [blocked].
  - split; [intros _ d Hin; inversion Hin|reflexivity].
  - destruct (fs !! d) as [[content|]|] eqn:Hd.
    + split; [discriminate|]. intros Hall. specialize (Hall d ltac:(left)). congruence.
    + rewrite IH. split.
      * intros Hall d' Hin. apply elem_of_cons in Hin as [->|Hin]; [exact Hd|apply Hall, Hin].
      * intros Hall d' Hin. apply Hall. right. exact Hin.
    + split; [discriminate|]. intros Hall. specialize (Hall d ltac:(left)). congruence.
Qed.

(** ** The state store *)

Section Store.
Context `{platform : Platform}.

(** What a writeState that returns has done. *)
Lemma writeState_written (fs fs' : FS) (state : value) (statePath : string) :
  writeState fs state statePath = Return fs' →
  ∃ fs1 text,
    fs_mkdirSync fs (path_dirname (path_resolve statePath)) = Return fs1
    ∧ JSON_stringify state = Some text
    ∧ (∀ d, d ∈ above (path_resolve statePath) → fs1 !! d = Some Directory)
    ∧ fs1 !! path_resolve statePath ≠ Some Directory
    ∧ fs' = <[path_resolve statePath := File text]> fs1.
Proof.
  unfold writeState. intros Hwrite.
  destruct (fs_mkdirSync fs (path_dirname (path_resolve statePath))) as [fs1|e];
    cbn [mbind result_bind] in Hwrite; [|discriminate].
  unfold fs_writeFileSync in Hwrite.
  destruct (JSON_stringify state) as [text|]; [|discriminate].
  destruct (blocked fs1 (above (path_resolve statePath))) eqn:Hway; [discriminate|].
  exists fs1, text. split; [reflexivity|]. split; [reflexivity|].
  split; [apply blocked_none, Hway|].
  destruct (fs1 !! path_resolve statePath) as [[content|]|];
    try discriminate; injection Hwrite as <-; split; try discriminate; reflexivity.
Qed.

(** After a writeState that succeeds, loadState reads the text
    JSON.stringify gave for the state and returns what JSON.parse makes of
    it. *)
Lemma loadState_after_writeState (fs fs' : FS) (state : value) (statePath : string) :
  writeState fs state statePath = Return fs' →
  ∃ text,
    JSON_stringify state = Some text
    ∧ fs' !! path_resolve statePath = Some (File text)
    ∧ loadState fs' statePath
      = match JSON_parse text with
        | Some read => Return read
        | None => Throw (InvalidStateFile (path_resolve statePath))
        end.
Proof.
  intros Hwrite.
  destruct (writeState_written _ _ _ _ Hwrite) as (fs1 & text & _ & Htext & _ & _ & ->).
  exists text. split; [exact Htext|].
  assert ((<[path_resolve statePath := File text]> fs1) !! path_resolve statePath
          = Some (File text)) as Hfile by apply lookup_insert_eq.
  split; [exact Hfile|].
  unfold loadState, fs_existsSync, fs_readFileSync. rewrite Hfile.
  rewrite bool_decide_eq_true_2 by eauto. reflexivity.
Qed.

Lemma writeState_returns (fs : FS) (state : value) (statePath : string) (text : string) :
  JSON_stringify state = Some text → writable fs statePath →
  ∃ fs', writeState fs state statePath = Return fs'.
Proof.
  intros Htext (Hholds & Hfree & Hfile). unfold writeState, fs_mkdirSync.
  rewrite <- Hholds.
  destruct (make_directories_returns (path_dirname (path_resolve statePath))
              (above (path_resolve statePath)) fs) as [fs1 Hmade].
  { intros d content Hin. apply Hfree, Hin. }
  rewrite Hmade. cbn [mbind result_bind].
  destruct (make_directories _ _ _ _ Hmade) as (Hdirs & Hframe & _).
  unfold fs_writeFileSync. rewrite Htext.
  rewrite (proj2 (blocked_none fs1 _) Hdirs).
  rewrite (Hframe _ (above_not_self _)).
  destruct (fs !! path_resolve statePath) as [[content|]|] eqn:Hthere;
    [eexists; reflexivity|destruct (Hfile eq_refl)|eexists; reflexivity].
Qed.

(** C6, amended. Let JSON.parse give back every JSON value from its
    JSON.stringify text, and let s be a JSON value: no undefined inside,
    finite numbers, distinct property names.  Then after any writeState(s, p)
    that succeeds loadState(p) returns s; and writeState(s, p) succeeds
    where path.dirname names the directory that holds the file, no
    directory on the way to it is a file, and the file is not a
    directory. *)
Theorem writeState_then_loadState (fs : FS) (state : value) (statePath : string) :
  JSON_round_trips → json_value state = true →
  (writable fs statePath → ∃ fs', writeState fs state statePath = Return fs')
  ∧ ∀ fs', writeState fs state statePath = Return fs' →
           loadState fs' statePath = Return state.
Proof.
  intros Hjson Hstate. destruct (Hjson state Hstate) as (text & Htext & Hparse). split.
  - apply (writeState_returns fs state statePath text Htext).
  - intros fs' Hwrite.
    destruct (loadState_after_writeState fs fs' state statePath Hwrite)
      as (text' & Htext' & _ & ->).
    rewrite Htext in Htext'. injection Htext' as <-. rewrite Hparse. reflexivity.
Qed.

End Store.

Lemma demo_JSON_round_trips : JSON_round_trips (platform := demo).
Proof. intros v Hv. apply JSONFacts.parse_stringify, Hv. Qed.

Lemma writeState_then_loadState_witness :
  (∃ fs', writeState (platform := demo) ∅ state_on_disk DEFAULT_STATE_PATH = Return fs')
  ∧ loadState (platform := demo)
      (disk_after (writeState (platform := demo) ∅ state_on_disk DEFAULT_STATE_PATH))
      DEFAULT_STATE_PATH
    = Return state_on_disk.
Proof.
  destruct (writeState_then_loadState (platform := demo) ∅ state_on_disk
              DEFAULT_STATE_PATH demo_JSON_round_trips eq_refl) as [Hwrites Hreads].
  split.
  - apply Hwrites. split; [|split].
    + reflexivity.
    + intros d content _. rewrite lookup_empty. discriminate.
    + rewrite lookup_empty. discriminate.
  - apply Hreads. vm_compute. reflexivity.
Defined.

(** C6, as stated, fails on the code.  The state updateState builds from a
    missing schema has [checksum: undefined] in its evidence; JSON.stringify
    leaves that property out, and what loadState returns after writeState has
    no checksum property: it is not the state that was written. *)
Lemma loadState_drops_undefined :
  updateState (display := demo_display) state_on_disk [schema_missing] (VStr "sha256:1c")
    "2026-02-02T08:00:00.000Z"
    = Return state_to_write
  ∧ loadState (platform := demo)
      (disk_after (writeState (platform := demo) ∅ state_to_write DEFAULT_STATE_PATH))
      DEFAULT_STATE_PATH
    = Return state_read_back
  ∧ (∃ fs, writeState (platform := demo) ∅ state_to_write DEFAULT_STATE_PATH = Return fs)
  ∧ state_read_back ≠ state_to_write.
Proof.
  split; [reflexivity|]. split; [vm_compute; reflexivity|].
  split; [eexists; vm_compute; reflexivity|].
  discriminate.
Qed.

(** ** resolveIntentName, outcome by outcome *)

Section Outcomes.
Context `{platform : Platform} `{display : Display}.

Lemma found_known (declared : obj value) (name : string) :
  found declared name = true → name ∈ declared.*1 ∨ name ∈ Object_prototype.
Proof.
  intros Hfound. apply found_cases in Hfound as [(body & Hget & _)|[_ Hin]].
  - left. apply obj_get_is_Some. rewrite Hget. eexists. reflexivity.
  - right. exact Hin.
Qed.


End Outcomes.


(** ** buildPlan, item by item *)

Section Items.
Context `{platform : Platform} `{display : Display}.


End Items.


(** ** buildGraph, edge by edge *)

Section Edges.
Context `{platform : Platform} `{display : Display}.

Lemma requires_fold (name : string) (items : list value)
    (st : list GraphEdge * gset string) :
  fold_left (λ st required, addEdge st name required "requires") items st
  = fold_left add_edge
      ((λ required, {| from := name; to := required; reason := "requires" |}) <$> items) st.
Proof.
  revert st. induction items as [|required items IH]; intros st; [reflexivity|].
  cbn [fold_left fmap list_fmap]. apply IH.
Qed.

Lemma consumes_fold (name : string) (bindings : obj value)
    (st : list GraphEdge * gset string) :
  fold_left (graph_binding name) bindings st
  = fold_left add_edge
      (omap (λ consumed : string * value,
               (λ provider, {| from := name; to := VStr provider;
                               reason := "consumes " +:+ consumed.1 |})
                 <$> provider_of consumed.2) bindings) st.
Proof.
  revert st. induction bindings as [|[varName binding] bindings IH]; intros st;
    [reflexivity|].
  cbn [fold_left omap list_omap fst snd]. rewrite IH. unfold provider_of, graph_binding.
  destruct (if truthy binding then get binding "from" else binding); try reflexivity.
  destruct (includes s "."); reflexivity.
Qed.

(** The outer loop body gets through a service that is ready, passing
    addEdge the edges it declares, in order; it throws on any other. *)
Lemma graph_service_candidates (st : list GraphEdge * gset string) (entry : string * value) :
  if graph_ready entry
  then graph_service st entry = Return (fold_left add_edge (candidates_of entry) st)
  else ∃ e, graph_service st entry = Throw e.
Proof.
  destruct entry as [name service].
  unfold graph_ready, graph_service, candidates_of, required_of, requires_of, read_of.
  cbn [fst snd].
  destruct (nullish service); cbn [negb andb mbind result_bind]; [eexists; reflexivity|].
  destruct (or_else (if truthy (get service "requires")
                     then get (get service "requires") "services"
                     else get service "requires") (VArr [])) as [| | | | s|items|props];
    cbn [iterate mbind result_bind]; try (eexists; reflexivity).
  - rewrite (bool_decide_eq_true_2 _ (mk_is_Some _ _ eq_refl)).
    rewrite fold_left_app, <- requires_fold, <- consumes_fold. reflexivity.
  - rewrite (bool_decide_eq_true_2 _ (mk_is_Some _ _ eq_refl)).
    rewrite fold_left_app, <- requires_fold, <- consumes_fold. reflexivity.
Qed.

Lemma graph_services_candidates (entries : obj value) (st : list GraphEdge * gset string) :
  if forallb graph_ready entries
  then for_of entries graph_service st
       = Return (fold_left add_edge (flat_map candidates_of entries) st)
  else ∃ e, for_of entries graph_service st = Throw e.
Proof.
  revert st. induction entries as [|entry entries IH]; intros st; [reflexivity|].
  cbn [forallb for_of flat_map].
  pose proof (graph_service_candidates st entry) as Hentry.
  destruct (graph_ready entry); cbn [andb].
  - rewrite Hentry. cbn [mbind result_bind]. rewrite fold_left_app. apply IH.
  - destruct Hentry as [e ->]. exists e. reflexivity.
Qed.

(** buildGraph on a manifest: the edges the services declare go through
    addEdge, in order, when every service is ready. *)
Lemma buildGraph_candidates (manifest : value) :
  if negb (nullish manifest) && forallb graph_ready (service_entries manifest)
  then buildGraph manifest
       = Return (fold_left add_edge (edge_candidates manifest) ([], ∅)).1
  else ∃ e, buildGraph manifest = Throw e.
Proof.
  unfold buildGraph, read_of, edge_candidates, service_entries.
  destruct (nullish manifest); cbn [negb andb mbind result_bind]; [eexists; reflexivity|].
  pose proof (graph_services_candidates
                (Object_entries (or_else (get manifest "services") (VObj []))) ([], ∅))
    as Hloop.
  destruct (forallb graph_ready _).
  - rewrite Hloop. reflexivity.
  - destruct Hloop as [e ->]. exists e. reflexivity.
Qed.

(** addEdge only appends, and only edges it is given. *)
Lemma add_edges_sublist (edges : list GraphEdge) (st : list GraphEdge * gset string) :
  ∃ added, (fold_left add_edge edges st).1 = st.1 ++ added ∧ added `sublist_of` edges.
Proof.
  revert st. induction edges as [|edge edges IH]; intros st.
  - exists []. rewrite app_nil_r. split; reflexivity.
  - cbn [fold_left]. destruct (IH (add_edge st edge)) as (added & -> & Hsub).
    destruct st as [kept seen]. unfold add_edge, addEdge. cbn [fst snd].
    destruct (decide (edge_key (from edge) (to edge) (reason edge) ∈ seen)); cbn [fst].
    + exists added. split; [reflexivity|]. apply sublist_cons, Hsub.
    + exists (edge :: added). rewrite <- app_assoc. destruct edge. split; [reflexivity|].
      apply sublist_skip, Hsub.
Qed.


(** The source of an edge can be read off its key when it has no ">". *)
Lemma arrow_inj (f1 f2 r1 r2 : string) :
  includes f1 ">" = false → includes f2 ">" = false →
  f1 +:+ "->" +:+ r1 = f2 +:+ "->" +:+ r2 → f1 = f2 ∧ r1 = r2.
Proof.
  revert f2. induction f1 as [|a f1 IH]; intros [|b f2]; cbn [includes];
    repeat first [rewrite append_empty | rewrite append_String].
  - intros _ _ [= Heq]. auto.
  - destruct (decide (b = ">"%char)) as [->|Hb]; [discriminate|].
    intros _ Hf2 [= <- Heq]. exfalso.
    destruct f2 as [|c f2]; repeat first [rewrite append_empty in Heq
                                         | rewrite append_String in Heq].
    + discriminate Heq.
    + injection Heq as <- _. cbn [includes] in Hf2.
      destruct (decide (">"%char = ">"%char)); [discriminate|congruence].
  - destruct (decide (a = ">"%char)) as [->|Ha]; [discriminate|].
    intros Hf1 _ [= -> Heq]. exfalso.
    destruct f1 as [|c f1]; repeat first [rewrite append_empty in Heq
                                         | rewrite append_String in Heq].
    + discriminate Heq.
    + injection Heq as -> _. cbn [includes] in Hf1.
      destruct (decide (">"%char = ">"%char)); [discriminate|congruence].
  - destruct (decide (a = ">"%char)); [discriminate|].
    destruct (decide (b = ">"%char)); [discriminate|].
    intros H1 H2 [= -> Heq]. destruct (IH f2 H1 H2 Heq) as [-> ->]. auto.
Qed.

Lemma key_of_edge_inj (e1 e2 : GraphEdge) :
  plain_names e1 → plain_names e2 → key_of_edge e1 = key_of_edge e2 → e1 = e2.
Proof.
  destruct e1 as [f1 t1 r1], e2 as [f2 t2 r2].
  unfold plain_names, key_of_edge, edge_key. cbn [from to reason].
  intros [Hf1 (s1 & -> & Ht1)] [Hf2 (s2 & -> & Ht2)] Hkey.
  rewrite !ToString_string in Hkey.
  apply arrow_inj in Hkey as [-> Hrest]; [|assumption..].
  apply (key_of_inj s1 s2 r1 r2 Ht1 Ht2) in Hrest. injection Hrest as -> ->. reflexivity.
Qed.

(** Where keys tell edges apart, addEdge drops an edge only when the edge
    itself is there already. *)
Lemma add_edges_complete (edges : list GraphEdge) (st : list GraphEdge * gset string) :
  seen_tracks_edges st →
  Forall plain_names (st.1 ++ edges) →
  ∀ edge, edge ∈ st.1 ++ edges → edge ∈ (fold_left add_edge edges st).1.
Proof.
  revert st. induction edges as [|next edges IH]; intros st Htracks Hplain edge Hin.
  - rewrite app_nil_r in Hin. exact Hin.
  - cbn [fold_left].
    assert (seen_tracks_edges (add_edge st next)) as Htracks'
      by apply addEdge_tracks, Htracks.
    assert (∀ e, e ∈ st.1 ++ next :: edges → e ∈ (add_edge st next).1 ++ edges) as Hkept.
    { intros e He. destruct st as [kept seen]. unfold add_edge, addEdge. cbn [fst snd] in *.
      destruct (decide (edge_key (from next) (to next) (reason next) ∈ seen)) as [Hseen|Hnew];
        cbn [fst].
      - apply elem_of_app in He as [He|He]; [apply elem_of_app; left; exact He|].
        apply elem_of_cons in He as [->|He]; [|apply elem_of_app; right; exact He].
        apply elem_of_app. left.
        destruct Htracks as [Hkeys _]. cbn [fst snd] in Hkeys.
        apply Hkeys, list_elem_of_fmap in Hseen as (same & Hkey & Hsame).
        rewrite Forall_forall in Hplain.
        assert (next = same) as ->; [|exact Hsame].
        apply key_of_edge_inj; [| |exact Hkey].
        + apply Hplain, elem_of_app. right. left.
        + apply Hplain, elem_of_app. left. exact Hsame.
      - rewrite <- app_assoc. destruct next. exact He. }
    apply IH; [exact Htracks'| |apply Hkept, Hin].
    rewrite Forall_forall in Hplain |- *. intros e He. apply Hplain.
    destruct st as [kept seen]. unfold add_edge, addEdge in He. cbn [fst snd] in *.
    destruct (decide (edge_key (from next) (to next) (reason next) ∈ seen)); cbn [fst] in He.
    + apply elem_of_app in He as [He|He]; apply elem_of_app; [left|right; right]; exact He.
    + rewrite <- app_assoc in He. destruct next. exact He.
Qed.

(** X4. On a manifest that is not null and whose services are all ready,
    when no edge a service declares has a ">" in its source, and each has a
    string without ":" as its target, buildGraph returns exactly the
    declared edges: every (from, to, reason) a service declares is in the
    graph, and nothing else is. *)
Theorem buildGraph_keeps_every_edge (manifest : value) :
  nullish manifest = false →
  forallb graph_ready (service_entries manifest) = true →
  Forall plain_names (edge_candidates manifest) →
  ∃ edges,
    buildGraph manifest = Return edges
    ∧ ∀ edge, edge ∈ edges ↔ edge ∈ edge_candidates manifest.
Proof.
  intros Hmanifest Hready Hplain.
  pose proof (buildGraph_candidates manifest) as Hgraph.
  rewrite Hmanifest, Hready in Hgraph. cbn [negb andb] in Hgraph.
  eexists. split; [exact Hgraph|]. intros edge. split.
  - destruct (add_edges_sublist (edge_candidates manifest) ([], ∅)) as (added & -> & Hsub).
    cbn [fst app]. intros Hin. exact (elem_of_sublist _ _ _ Hin Hsub).
  - intros Hin. apply add_edges_complete; [|exact Hplain|exact Hin].
    split; [|constructor]. intros key. cbn. rewrite elem_of_empty, elem_of_nil. tauto.
Qed.

End Edges.

Lemma buildGraph_keeps_every_edge_witness :
  ∃ edges,
    buildGraph (platform := demo) (display := demo_display) manifest_document
    = Return edges
    ∧ ∀ edge, edge ∈ edges
              ↔ edge ∈ edge_candidates (platform := demo) manifest_document.
Proof.
  apply (buildGraph_keeps_every_edge (platform := demo) (display := demo_display)
           manifest_document); [reflexivity|reflexivity|].
  repeat constructor; eexists; (split; [reflexivity|reflexivity]).
Defined.

(** ** observeState, type by type *)

Section Observers.
Context `{platform : Platform}.

(** Reading a path: whether it exists and its checksum depend on what is
    at that path only. *)
Lemma fs_existsSync_at (fs fs' : FS) (p : string) :
  fs !! p = fs' !! p → fs_existsSync fs p = fs_existsSync fs' p.
Proof. unfold fs_existsSync. intros ->. reflexivity. Qed.

Lemma hashFile_at (fs fs' : FS) (p : string) :
  fs !! p = fs' !! p → hashFile fs p = hashFile fs' p.
Proof. unfold hashFile, fs_readFileSync. intros ->. reflexivity. Qed.

Lemma observe_in_reads_one_path (item : PlanItem) (resolvedRoot : string) :
  ∃ p, ∀ fs fs' : FS,
    fs !! p = fs' !! p →
    observe_in fs item resolvedRoot = observe_in fs' item resolvedRoot.
Proof.
  unfold observe_in.
  destruct (is_str (type item) "package.deps").
  { destruct (read_of (config item) "lockfile") as [declared|e]; cbn [mbind result_bind];
      [|exists EmptyString; reflexivity].
    destruct (path_arg (or_else declared (VStr "package-lock.json"))) as [lockfile|e];
      cbn [mbind result_bind].
    - eexists. intros fs fs' Hsame.
      rewrite (fs_existsSync_at fs fs' _ Hsame), (hashFile_at fs fs' _ Hsame). reflexivity.
    - exists EmptyString. reflexivity. }
  destruct (is_str (type item) "db.schema").
  { destruct (read_of (config item) "source") as [source|e]; cbn [mbind result_bind];
      [|exists EmptyString; reflexivity].
    destruct (truthy source); cbn [negb]; [|exists EmptyString; reflexivity].
    destruct (path_arg source) as [source'|e];
      cbn [mbind result_bind]; [|exists EmptyString; reflexivity].
    eexists. intros fs fs' Hsame.
    rewrite (fs_existsSync_at fs fs' _ Hsame), (hashFile_at fs fs' _ Hsame). reflexivity. }
  exists EmptyString. reflexivity.
Qed.

(** X5. Whatever the item and the project root, observeState looks at
    the file system at one path at most: two file systems that hold the same
    thing at that path give the same observation, or the same exception. *)
Theorem observeState_reads_one_path (item : PlanItem) (projectRoot : string) :
  ∃ p, ∀ fs fs' : FS,
    fs !! p = fs' !! p →
    observeState fs item projectRoot = observeState fs' item projectRoot.
Proof.
  unfold observeState.
  destruct (read_of (service item) "root") as [declaredRoot|e]; cbn [mbind result_bind];
    [|exists EmptyString; reflexivity].
  destruct (path_arg (or_else declaredRoot (VStr "."))) as [serviceRoot|e];
    cbn [mbind result_bind]; [|exists EmptyString; reflexivity].
  apply observe_in_reads_one_path.
Qed.

(** X6. For a PlanItem of type package.deps whose service and config are
    not null or undefined and whose service has no root or a string as its
    root, the lockfile is the configured one, "package-lock.json" when none
    is configured; with the root of the service resolved under the project
    root ("." when it is unset), the observation is "missing" when nothing
    is at root/lockfile and "healthy" with the checksum of the content when
    a file is there; observeState throws when a directory is there, and
    when the configured lockfile is not a string.  It never answers
    "unknown". *)
Theorem observeState_package_deps (fs : FS) (item : PlanItem) (projectRoot r : string) :
  is_str (type item) "package.deps" = true →
  nullish (service item) = false →
  nullish (config item) = false →
  service_root item = VStr r →
  let lockfile := or_else (get (config item) "lockfile") (VStr "package-lock.json") in
  let resolvedRoot := path_resolve2 projectRoot r in
  (truthy (get (config item) "lockfile") = false → lockfile = VStr "package-lock.json")
  ∧ (∀ s, lockfile = VStr s →
     let lockfilePath := path_join resolvedRoot s in
     match fs !! lockfilePath with
     | None =>
         observeState fs item projectRoot
           = Return {| status := "missing";
                       evidence := [("lockfile", VStr lockfilePath);
                                    ("exists", VBool false)] |}
     | Some (File content) =>
         observeState fs item projectRoot
           = Return {| status := "healthy";
                       evidence := [("lockfile", VStr lockfilePath);
                                    ("checksum", VStr ("sha256:" +:+ sha256_hex content))] |}
     | Some Directory =>
         observeState fs item projectRoot = Throw (SystemError "EISDIR" lockfilePath)
     end)
  ∧ ((∀ s, lockfile ≠ VStr s) →
     ∃ message, observeState fs item projectRoot = Throw (TypeError message))
  ∧ (∀ observation, observeState fs item projectRoot = Return observation →
     status observation = "missing" ∨ status observation = "healthy").
Proof.
  intros Htype Hservice Hconfig Hroot. cbv zeta.
  rewrite (observeState_at_root _ _ _ _ Hservice Hroot).
  rewrite (observe_in_deps _ _ _ Htype Hconfig).
  split; [|split; [|split]].
  - intros Hfalsy. unfold or_else. rewrite Hfalsy. reflexivity.
  - intros s Hs. rewrite Hs. cbn [path_arg mbind result_bind].
    destruct (fs !! _) as [[content|]|]; reflexivity.
  - intros Hnot.
    destruct (or_else (get (config item) "lockfile") (VStr "package-lock.json"))
      as [| | | |s| |]; try (eexists; reflexivity).
    destruct (Hnot s eq_refl).
  - intros observation.
    destruct (path_arg _) as [lockfile|e]; cbn [mbind result_bind]; [|discriminate].
    destruct (fs !! _) as [[content|]|]; [|discriminate|]; intros [= <-]; auto.
Qed.



End Observers.

Lemma observeState_package_deps_witness :
  observeState (platform := demo) disk deps_item "/work" = Return (observation deps_healthy)
  ∧ observeState (platform := demo) ∅ deps_item "/work"
    = Return (observation deps_missing).
Proof.
  destruct (observeState_package_deps (platform := demo) disk deps_item "/work"
              "services/api" eq_refl eq_refl eq_refl eq_refl) as (_ & Hdisk & _).
  destruct (observeState_package_deps (platform := demo) ∅ deps_item "/work"
              "services/api" eq_refl eq_refl eq_refl eq_refl) as (_ & Hempty & _).
  split.
  - exact (Hdisk "pnpm-lock.yaml" eq_refl).
  - exact (Hempty "pnpm-lock.yaml" eq_refl).
Defined.



(** ** validatePlan, on any plan *)

Section AnyPlan.
Context `{platform : Platform}.

Lemma validate_from (fs : FS) (projectRoot : string) (plan : list PlanItem)
    (results0 : list Validated) :
  match for_of plan (validate_item fs projectRoot) results0 with
  | Return results =>
      ∃ added, results = results0 ++ added
               ∧ item <$> added = plan
               ∧ Forall (λ r, observeState fs (item r) projectRoot = Return (observation r))
                   added
  | Throw e =>
      ∃ before thrower after,
        plan = before ++ thrower :: after
        ∧ Forall (λ i, ∃ o, observeState fs i projectRoot = Return o) before
        ∧ observeState fs thrower projectRoot = Throw e
  end.
Proof.
  revert results0. induction plan as [|first plan IH]; intros results0.
  - cbn. exists []. rewrite app_nil_r. repeat split. constructor.
  - cbn [for_of]. rewrite validate_item_unfold.
    destruct (observeState fs first projectRoot) as [o|e] eqn:Hfirst;
      cbn [mbind result_bind].
    + specialize (IH (results0 ++ [{| item := first; observation := o |}])).
      destruct (for_of plan _ _) as [results|e].
      * destruct IH as (added & -> & Hitems & Hobs).
        exists ({| item := first; observation := o |} :: added).
        rewrite <- app_assoc. split; [reflexivity|]. split.
        -- cbn. rewrite Hitems. reflexivity.
        -- constructor; [exact Hfirst|exact Hobs].
      * destruct IH as (before & thrower & after & -> & Hbefore & Hthrow).
        exists (first :: before), thrower, after. split; [reflexivity|].
        split; [|exact Hthrow]. constructor; [eexists; exact Hfirst|exact Hbefore].
    + exists [], first, plan. split; [reflexivity|]. split; [constructor|exact Hfirst].
Qed.

(** X9. validatePlan observes the items of any plan in order and stops
    at the first observation that throws: it returns one result per item,
    in plan order, when every observation returns, and otherwise throws
    what the first failing item threw, the items before it having been
    observed and their results dropped. *)
Theorem validatePlan_stops_at_first_throw (fs : FS) (plan : list PlanItem)
    (projectRoot : string) :
  match validatePlan fs plan projectRoot with
  | Return results =>
      item <$> results = plan
      ∧ Forall (λ r, observeState fs (item r) projectRoot = Return (observation r)) results
  | Throw e =>
      ∃ before thrower after,
        plan = before ++ thrower :: after
        ∧ Forall (λ i, ∃ o, observeState fs i projectRoot = Return o) before
        ∧ observeState fs thrower projectRoot = Throw e
  end.
Proof.
  unfold validatePlan. pose proof (validate_from fs projectRoot plan []) as H.
  destruct (for_of plan _ _) as [results|e]; [|exact H].
  destruct H as (added & -> & Hitems & Hobs). cbn [app]. split; assumption.
Qed.

Lemma observeState_status (fs : FS) (item : PlanItem) (projectRoot : string)
    (observation : Observation) :
  observeState fs item projectRoot = Return observation →
  status observation = "healthy" ∨ status observation = "missing"
  ∨ status observation = "unknown".
Proof.
  destruct (nullish (service item)) eqn:Hservice;
    [rewrite (observeState_no_service _ _ _ Hservice); discriminate|].
  rewrite (observeState_rooted _ _ _ Hservice).
  destruct (path_arg (service_root item)) as [r|e]; cbn [mbind result_bind]; [|discriminate].
  intros Hrun.
  apply (proj2 (observe_in_outcome fs item (path_resolve2 projectRoot r))) in Hrun.
  repeat (apply elem_of_cons in Hrun as [->|Hrun]; [auto|]).
  inversion Hrun.
Qed.

(** X10. For the results validatePlan returns, the summary counts exactly
    the statuses by name: unknown is the number of results whose status is
    "unknown" (no other status falls into that bucket), total is the number
    of plan items, and the three counters add up to it. *)
Theorem summarizeResults_of_validatePlan (fs : FS) (plan : list PlanItem)
    (projectRoot : string) (results : list Validated) :
  validatePlan fs plan projectRoot = Return results →
  let summary := summarizeResults results in
  total summary = Some (length plan)
  ∧ unknown summary = count_status (λ s, String.eqb s "unknown") results
  ∧ healthy summary + missing summary + unknown summary = length plan.
Proof.
  intros Hrun. cbv zeta.
  pose proof (validate_from fs projectRoot plan []) as H. unfold validatePlan in Hrun.
  rewrite Hrun in H. destruct H as (added & -> & Hitems & Hobs). cbn [app] in *.
  assert (length added = length plan) as Hlength by (rewrite <- Hitems, length_fmap; reflexivity).
  unfold summarizeResults. cbn [healthy missing unknown total].
  destruct (summarize_fold added
              {| healthy := 0; missing := 0; unknown := 0; total := None |})
    as (-> & -> & ->).
  cbn [healthy missing unknown Nat.add]. rewrite Hlength.
  split; [reflexivity|]. split; [|rewrite <- Hlength; apply count_status_partition].
  clear Hitems Hlength Hrun. induction Hobs as [|r added Hr Hobs IH]; [reflexivity|].
  rewrite !(count_status_cons _ r added), IH. f_equal.
  unfold count_status, is_other, is_healthy, is_missing. cbn [List.filter].
  destruct (observeState_status _ _ _ _ Hr) as [->|[->| ->]]; reflexivity.
Qed.

End AnyPlan.

Lemma summarizeResults_of_validatePlan_witness :
  total (summarizeResults [deps_healthy; schema_healthy]) = Some 2
  ∧ unknown (summarizeResults [deps_healthy; schema_healthy]) = 0
  ∧ healthy (summarizeResults [deps_healthy; schema_healthy])
    + missing (summarizeResults [deps_healthy; schema_healthy])
    + unknown (summarizeResults [deps_healthy; schema_healthy]) = 2.
Proof.
  apply (summarizeResults_of_validatePlan (platform := demo) disk
           [deps_item; schema_item] "/work" [deps_healthy; schema_healthy]).
  vm_compute. reflexivity.
Defined.

(** ** updateState at the edges *)

Section Edge.
Context `{display : Display}.

(** X11. On a previous state that is null or undefined (a state file that
    holds the JSON text null, say) updateState throws a TypeError as soon
    as there is one result, reading [observations] of it; with no result it
    never reads the previous state and returns the empty map. *)
Theorem updateState_nullish_state (existingState : value) (results : list Validated)
    (manifestHash : value) (now : string) :
  nullish existingState = true →
  match results with
  | [] =>
      updateState existingState results manifestHash now
        = Return (VObj [("manifestHash", manifestHash); ("observations", VObj [])])
  | _ :: _ =>
      ∃ message, updateState existingState results manifestHash now
                 = Throw (TypeError message)
  end.
Proof.
  intros Hnull. destruct results as [|first results]; [reflexivity|].
  unfold updateState. cbn [for_of]. unfold store_result, read_of.
  destruct existingState; try discriminate Hnull; eexists; reflexivity.
Qed.

Lemma carried_unapplied (existingState : value) (key : string) :
  unapplied existingState → carried existingState key = VNull.
Proof.
  intros Hunapplied. specialize (Hunapplied key). unfold previous_record in Hunapplied.
  unfold carried.
  destruct (truthy (get existingState "observations")) eqn:Hknown.
  - destruct (truthy (get (get existingState "observations") key)) eqn:Hprevious;
      [apply Hunapplied; reflexivity|reflexivity].
  - reflexivity.
Qed.

(** X12. updateState never applies anything: when the previous state is
    not null or undefined and none of its records has a lastAppliedAt other
    than null, updateState returns, and no record of the state it returns
    has one, whatever the results.  The state loadState gives when there is
    no state file has no record at all, and so is such a state. *)
Theorem updateState_keeps_unapplied (existingState : value) (results : list Validated)
    (manifestHash : value) (now : string) :
  nullish existingState = false →
  unapplied existingState →
  ∃ next, updateState existingState results manifestHash now = Return next
          ∧ nullish next = false
          ∧ unapplied next.
Proof.
  intros Hobject Hunapplied. unfold updateState.
  rewrite store_loop_returns by exact Hobject. cbn [mbind result_bind mret result_ret].
  set (observations :=
         fold_left (λ o entry, obj_set o (state_key entry)
                                 (record_of existingState now entry)) results []).
  exists (VObj [("manifestHash", manifestHash); ("observations", VObj observations)]).
  split; [reflexivity|]. split; [reflexivity|].
  intros key. unfold previous_record.
  change (get (VObj [("manifestHash", manifestHash); ("observations", VObj observations)])
            "observations") with (VObj observations).
  change (get (VObj observations) key) with (default VUndefined (obj_get observations key)).
  unfold observations. rewrite stored_lookup.
  destruct (last_with_key results key) as [entry|].
  - intros _. apply carried_unapplied, Hunapplied.
  - discriminate.
Qed.

End Edge.

Lemma updateState_nullish_state_witness :
  (∃ message, updateState (display := demo_display) VNull [deps_healthy]
                (VStr "sha256:1c") "2026-02-02T08:00:00.000Z"
              = Throw (TypeError message))
  ∧ updateState (display := demo_display) VNull [] (VStr "sha256:1c")
      "2026-02-02T08:00:00.000Z"
    = Return (VObj [("manifestHash", VStr "sha256:1c"); ("observations", VObj [])]).
Proof.
  split.
  - exact (updateState_nullish_state (display := demo_display) VNull [deps_healthy]
             (VStr "sha256:1c") "2026-02-02T08:00:00.000Z" eq_refl).
  - exact (updateState_nullish_state (display := demo_display) VNull []
             (VStr "sha256:1c") "2026-02-02T08:00:00.000Z" eq_refl).
Defined.

Lemma updateState_keeps_unapplied_witness :
  ∃ next,
    updateState (display := demo_display)
      (VObj [("manifestHash", VNull); ("observations", VObj [])])
      [deps_healthy; schema_missing] (VStr "sha256:1c") "2026-02-02T08:00:00.000Z"
      = Return next
    ∧ nullish next = false
    ∧ unapplied next.
Proof.
  apply (updateState_keeps_unapplied (display := demo_display)
           (VObj [("manifestHash", VNull); ("observations", VObj [])])
           [deps_healthy; schema_missing] (VStr "sha256:1c") "2026-02-02T08:00:00.000Z"
           eq_refl).
  intros key. cbn. discriminate.
Defined.

(** ** writeState and the file system *)

Section Writes.
Context `{platform : Platform}.

(** What a writeState that returns leaves on the way to the state file. *)
Lemma writeState_way (fs fs' : FS) (state : value) (statePath : string) :
  writeState fs state statePath = Return fs' →
  let file := path_resolve statePath in
  let dir := path_dirname file in
  ∃ fs1 text,
    JSON_stringify state = Some text
    ∧ fs' = <[file := File text]> fs1
    ∧ (file ∉ above dir ++ [dir])
    ∧ (∀ d, d ∈ (above dir ++ [dir]) → fs1 !! d = Some Directory)
    ∧ (∀ d, d ∈ above file → fs1 !! d = Some Directory)
    ∧ (∀ q, q ∉ (above dir ++ [dir]) → fs1 !! q = fs !! q)
    ∧ (∀ q node, fs !! q = Some node → fs1 !! q = Some node).
Proof.
  cbv zeta. intros Hwrite.
  destruct (writeState_written _ _ _ _ Hwrite)
    as (fs1 & text & Hmade & Htext & Hway & Hfile & ->).
  destruct (make_directories _ _ _ _ Hmade) as (Hdirs & Hframe & Hkept).
  exists fs1, text. split; [exact Htext|]. split; [reflexivity|].
  split; [|auto]. intros Hin. apply Hfile, Hdirs, Hin.
Qed.

(** X13. A writeState that succeeds changes the file system on the way to
    the state file only: the state file then holds the JSON text of the
    state, the directory path.dirname gives for it and every directory
    above that one are directories, whatever was at a path other than the
    state file is still there, and every path off that way holds what it
    held. *)
Theorem writeState_changes_its_way_only (fs fs' : FS) (state : value)
    (statePath : string) :
  writeState fs state statePath = Return fs' →
  let file := path_resolve statePath in
  let dir := path_dirname file in
  (∀ q, q ≠ file → q ∉ (above dir ++ [dir]) → fs' !! q = fs !! q)
  ∧ (∀ q node, q ≠ file → fs !! q = Some node → fs' !! q = Some node)
  ∧ (∃ text, JSON_stringify state = Some text ∧ fs' !! file = Some (File text))
  ∧ (∀ d, d ∈ (above dir ++ [dir]) → fs' !! d = Some Directory).
Proof.
  cbv zeta. intros Hwrite.
  destruct (writeState_way _ _ _ _ Hwrite)
    as (fs1 & text & Htext & -> & Hfile & Hdirs & _ & Hframe & Hkept).
  split; [|split; [|split]].
  - intros q Hq Hoff. rewrite lookup_insert_ne by congruence. apply Hframe, Hoff.
  - intros q node Hq Hthere. rewrite lookup_insert_ne by congruence. apply Hkept, Hthere.
  - exists text. split; [exact Htext|apply lookup_insert_eq].
  - intros d Hin. rewrite lookup_insert_ne by (intros <-; exact (Hfile Hin)).
    apply Hdirs, Hin.
Qed.

(** X14. Where writeState has succeeded once it succeeds again: a second
    writeState to the same path, of any state that has a JSON text, returns
    and replaces the content of the state file, and nothing else. *)
Theorem writeState_can_be_repeated (fs fs1 : FS) (state state2 : value)
    (statePath text2 : string) :
  writeState fs state statePath = Return fs1 →
  JSON_stringify state2 = Some text2 →
  writeState fs1 state2 statePath = Return (<[path_resolve statePath := File text2]> fs1).
Proof.
  intros Hwrite Htext2.
  destruct (writeState_way _ _ _ _ Hwrite)
    as (fs0 & text & Htext & -> & Hfile & Hdirs & Hway & _ & _).
  unfold writeState, fs_mkdirSync.
  rewrite make_directories_again.
  2:{ intros d Hin. rewrite lookup_insert_ne by (intros <-; exact (Hfile Hin)).
      apply Hdirs, Hin. }
  cbn [mbind result_bind]. unfold fs_writeFileSync. rewrite Htext2.
  rewrite (proj2 (blocked_none _ _)).
  2:{ intros d Hin.
      rewrite lookup_insert_ne by (intros <-; exact (above_not_self _ Hin)).
      apply Hway, Hin. }
  rewrite lookup_insert_eq. reflexivity.
Qed.

End Writes.

Lemma writeState_changes_its_way_only_witness :
  disk_after (writeState (platform := demo) disk state_on_disk DEFAULT_STATE_PATH)
    !! "/work/services/api/pnpm-lock.yaml"
  = disk !! "/work/services/api/pnpm-lock.yaml"
  ∧ disk_after (writeState (platform := demo) disk state_on_disk DEFAULT_STATE_PATH)
      !! "/work/.nexus"
    = Some Directory.
Proof.
  destruct (writeState_changes_its_way_only (platform := demo) disk
              (disk_after (writeState (platform := demo) disk state_on_disk
                             DEFAULT_STATE_PATH))
              state_on_disk DEFAULT_STATE_PATH) as (Hothers & _ & _ & Hdir).
  - vm_compute. reflexivity.
  - split.
    + apply Hothers; [vm_compute; discriminate|].
      vm_compute. intros Hin.
      repeat (apply elem_of_cons in Hin as [Habsurd|Hin]; [discriminate Habsurd|]).
      inversion Hin.
    + apply Hdir. vm_compute. right. left.
Defined.

Lemma writeState_can_be_repeated_witness :
  ∃ text,
    MiniJSON.stringify state_read_back = Some text
    ∧ writeState (platform := demo)
        (disk_after (writeState (platform := demo) ∅ state_on_disk DEFAULT_STATE_PATH))
        state_read_back DEFAULT_STATE_PATH
      = Return (<["/work/.nexus/state.json" := File text]>
                  (disk_after (writeState (platform := demo) ∅ state_on_disk
                                 DEFAULT_STATE_PATH))).
Proof.
  destruct (MiniJSON.stringify state_read_back) as [text|] eqn:Htext;
    [|vm_compute in Htext; discriminate].
  exists text. split; [reflexivity|].
  apply (writeState_can_be_repeated (platform := demo) ∅ _ state_on_disk state_read_back
           DEFAULT_STATE_PATH text).
  - vm_compute. reflexivity.
  - exact Htext.
Defined.

(** ** What JSON keeps *)

Lemma kept_defined (v : value) : v ≠ VUndefined → kept v ≠ VUndefined.
Proof. destruct v as [| | |[| |]| | |]; cbn; congruence. Qed.

(** JSON.stringify writes a value and what JSON keeps of it the same. *)
Lemma stringify_at_kept (v : value) :
  ∀ indent, MiniJSON.stringify_at indent v = MiniJSON.stringify_at indent (kept v).
Proof.
  induction v as [| | |n| |items IH|props IH] using value_induction; intros indent;
    try reflexivity.
  - destruct n; reflexivity.
  - cbn [kept MiniJSON.stringify_at]. do 2 f_equal. rewrite map_map.
    apply map_ext_Forall. eapply Forall_impl; [exact IH|].
    intros item Hitem. cbn beta in Hitem.
    destruct item; try reflexivity; rewrite <- Hitem; reflexivity.
  - cbn [kept MiniJSON.stringify_at]. do 2 f_equal.
    induction IH as [|[k x] props Hx _ IHprops]; [reflexivity|].
    cbn [fst snd] in Hx.
    assert (x = VUndefined
            ∨ omap (λ p : string * value,
                      match p.2 with
                      | VUndefined => None
                      | _ => Some (p.1, kept p.2)
                      end) ((k, x) :: props)
              = (k, kept x)
                :: omap (λ p : string * value,
                           match p.2 with
                           | VUndefined => None
                           | _ => Some (p.1, kept p.2)
                           end) props) as [->|Hhead]
      by (destruct x; first [left; reflexivity|right; reflexivity]).
    + cbn [omap list_omap fst snd MiniJSON.stringify_at fmap option_fmap option_map].
      exact IHprops.
    + rewrite Hhead. cbn [omap list_omap fst snd]. rewrite <- Hx, IHprops. reflexivity.
Qed.

Lemma json_value_kept (v : value) :
  v ≠ VUndefined → distinct_keys v = true → json_value (kept v) = true.
Proof.
  induction v as [| | |n| |items IH|props IH] using value_induction; intros Hdefined Hkeys;
    try reflexivity.
  - congruence.
  - destruct n; reflexivity.
  - cbn [kept json_value]. cbn [distinct_keys] in Hkeys.
    rewrite forallb_forall in Hkeys. apply forallb_forall. intros item Hin.
    apply in_map_iff in Hin as (x & <- & Hx).
    rewrite Forall_forall in IH.
    destruct x; try reflexivity;
      (apply IH; [apply list_elem_of_In, Hx|discriminate|apply Hkeys, Hx]).
  - cbn [kept json_value]. cbn [distinct_keys] in Hkeys.
    apply andb_true_iff in Hkeys as [Hnodup Hkeys]. apply bool_decide_eq_true in Hnodup.
    apply andb_true_iff. split.
    + apply bool_decide_eq_true. eapply sublist_NoDup; [exact Hnodup|].
      clear. induction props as [|[k x] props IHprops]; [constructor|].
      cbn [omap list_omap fst snd fmap list_fmap].
      destruct x; cbn [fmap list_fmap fst];
        first [apply sublist_cons, IHprops | apply sublist_skip, IHprops].
    + rewrite forallb_forall in Hkeys. apply forallb_forall. intros [k y] Hin.
      apply list_elem_of_In, list_elem_of_omap in Hin as ([k' x] & Hx & Hkept).
      cbn [fst snd] in Hkept. rewrite Forall_forall in IH. cbn [snd].
      destruct x; try discriminate Hkept; injection Hkept as <- <-;
        (apply (IH _ Hx); [discriminate|apply (Hkeys _ (proj1 (list_elem_of_In _ _) Hx))]).
Qed.

Lemma demo_JSON_reads_kept : JSON_reads_kept (platform := demo).
Proof.
  intros v Hdefined Hkeys.
  destruct (JSONFacts.parse_stringify (kept v) (json_value_kept v Hdefined Hkeys))
    as (text & Htext & Hparse).
  exists text. split; [|exact Hparse].
  cbn [JSON_stringify demo]. unfold MiniJSON.stringify in *.
  rewrite stringify_at_kept. exact Htext.
Qed.

Section KeptStore.
Context `{platform : Platform}.

(** X15. Let JSON.parse read from the text of JSON.stringify what JSON
    keeps of a value, for the values whose objects have distinct property
    names.  Then after a writeState that succeeds, of any such state but
    undefined, loadState returns what JSON keeps of that state: the state
    without the properties whose value is undefined (the checksum of a
    missing schema, the from of an unset env.inherit), with null for the
    undefined items of arrays and the numbers that are not finite. *)
Theorem loadState_returns_what_JSON_keeps (fs fs' : FS) (state : value)
    (statePath : string) :
  JSON_reads_kept → state ≠ VUndefined → distinct_keys state = true →
  writeState fs state statePath = Return fs' →
  loadState fs' statePath = Return (kept state).
Proof.
  intros Hjson Hdefined Hkeys Hwrite.
  destruct (Hjson state Hdefined Hkeys) as (text & Htext & Hparse).
  destruct (loadState_after_writeState fs fs' state statePath Hwrite)
    as (text' & Htext' & _ & ->).
  rewrite Htext in Htext'. injection Htext' as <-. rewrite Hparse. reflexivity.
Qed.

End KeptStore.

Lemma loadState_returns_what_JSON_keeps_witness :
  loadState (platform := demo)
    (disk_after (writeState (platform := demo) ∅ state_to_write DEFAULT_STATE_PATH))
    DEFAULT_STATE_PATH
  = Return state_read_back.
Proof.
  apply (loadState_returns_what_JSON_keeps (platform := demo) ∅ _ state_to_write
           DEFAULT_STATE_PATH demo_JSON_reads_kept).
  - discriminate.
  - vm_compute. reflexivity.
  - vm_compute. reflexivity.
Defined.

(** Reading a property of what JSON keeps of an object. *)
Lemma get_kept (props : list (string * value)) (k : string) :
  NoDup props.*1 →
  get (kept (VObj props)) k
  = match get (VObj props) k with
    | VUndefined => VUndefined
    | x => kept x
    end.
Proof.
  cbn [kept get]. induction props as [|[k' x] props IH]; intros Hnodup; [reflexivity|].
  cbn [fmap list_fmap fst] in Hnodup. apply NoDup_cons in Hnodup as [Hfresh Hnodup].
  cbn [omap list_omap fst snd obj_get].
  destruct (decide (k' = k)) as [->|Hne].
  - cbn [default from_option id].
    assert (obj_get (omap (λ p : string * value,
                             match p.2 with
                             | VUndefined => None
                             | _ => Some (p.1, kept p.2)
                             end) props) k = None) as Hgone.
    { destruct (obj_get _ k) eqn:Hthere; [|reflexivity]. exfalso. apply Hfresh.
      assert (is_Some (obj_get (omap (λ p : string * value,
                                        match p.2 with
                                        | VUndefined => None
                                        | _ => Some (p.1, kept p.2)
                                        end) props) k)) as Hsome by eauto.
      apply obj_get_is_Some in Hsome.
      apply list_elem_of_fmap in Hsome as ([k1 y] & -> & Hin).
      apply list_elem_of_omap in Hin as ([k2 z] & Hin & Hkept). cbn [fst snd] in Hkept.
      apply list_elem_of_fmap. exists (k2, z). split; [|exact Hin].
      destruct z; try discriminate Hkept; injection Hkept as <- _; reflexivity. }
    destruct x; cbn [obj_get]; rewrite ?Hgone;
      try (destruct (decide (k = k)); [reflexivity|congruence]).
  - rewrite <- (IH Hnodup).
    destruct x; cbn [obj_get]; try (destruct (decide (k' = k)); [congruence|reflexivity]).
Qed.

Section Stored.
Context `{platform : Platform} `{display : Display}.

(** X16. What a later run reads of an update.  Let JSON.parse read from
    the text of JSON.stringify what JSON keeps of a value, and let the
    objects of the updated state have distinct property names.  After
    updateState with a manifest hash and a writeState of its result that
    succeeds, loadState returns a state whose manifestHash is that hash, so
    that status does not call it stale, and whose record under the key of
    each result has the status of the last result with that key. *)
Theorem loadState_after_update (fs fs' : FS) (existingState next : value)
    (results : list Validated) (manifestHash now statePath : string) :
  JSON_reads_kept →
  updateState existingState results (VStr manifestHash) now = Return next →
  distinct_keys next = true →
  writeState fs next statePath = Return fs' →
  ∃ read,
    loadState fs' statePath = Return read
    ∧ get read "manifestHash" = VStr manifestHash
    ∧ ∀ entry, entry ∈ results →
        ∃ last, last_with_key results (state_key entry) = Some last
                ∧ get (previous_record read (state_key entry)) "status"
                  = VStr (status (observation last)).
Proof.
  intros Hjson Hupdate Hkeys Hwrite.
  assert (results = [] ∨ nullish existingState = false) as Hobject.
  { destruct results as [|first results]; [left; reflexivity|right].
    destruct existingState; try reflexivity; discriminate Hupdate. }
  assert (∃ observations,
            next = VObj [("manifestHash", VStr manifestHash);
                         ("observations", VObj observations)]
            ∧ ∀ key, obj_get observations key
                     = match last_with_key results key with
                       | Some entry => Some (record_of existingState now entry)
                       | None => None
                       end) as (observations & -> & Hrecords).
  { destruct Hobject as [->|Hobject].
    - unfold updateState in Hupdate. cbn [for_of mbind result_bind mret result_ret] in Hupdate.
      simplify_eq. exists []. split; reflexivity.
    - unfold updateState in Hupdate. rewrite store_loop_returns in Hupdate by exact Hobject.
      cbn [mbind result_bind mret result_ret] in Hupdate. simplify_eq.
      eexists. split; [reflexivity|].
      intros key. rewrite stored_lookup. reflexivity. }
  exists (kept (VObj [("manifestHash", VStr manifestHash);
                      ("observations", VObj observations)])).
  assert (VObj [("manifestHash", VStr manifestHash); ("observations", VObj observations)]
          ≠ VUndefined) as Hdefined by discriminate.
  destruct (Hjson _ Hdefined Hkeys) as (text & Htext & Hparse).
  destruct (loadState_after_writeState fs fs' _ statePath Hwrite)
    as (text' & Htext' & _ & Hload).
  rewrite Htext in Htext'. injection Htext' as <-. rewrite Hparse in Hload.
  split; [exact Hload|]. split; [reflexivity|].
  intros entry Hentry.
  assert (is_Some (last_with_key results (state_key entry))) as [last Hlast].
  { apply last_with_key_Some, list_elem_of_fmap. exists entry. auto. }
  exists last. split; [exact Hlast|].
  unfold previous_record.
  change (get (kept (VObj [("manifestHash", VStr manifestHash);
                           ("observations", VObj observations)])) "observations")
    with (kept (VObj observations)).
  cbn [distinct_keys forallb snd] in Hkeys.
  apply andb_true_iff in Hkeys as [_ Hkeys]. apply andb_true_iff in Hkeys as [_ Hkeys].
  apply andb_true_iff in Hkeys as [Hkeys _]. apply andb_true_iff in Hkeys as [Hnodup _].
  apply bool_decide_eq_true in Hnodup.
  rewrite (get_kept observations _ Hnodup). cbn [get]. rewrite Hrecords, Hlast.
  reflexivity.
Qed.

End Stored.

Lemma loadState_after_update_witness :
  ∃ read,
    loadState (platform := demo)
      (disk_after (writeState (platform := demo) ∅ state_to_write DEFAULT_STATE_PATH))
      DEFAULT_STATE_PATH = Return read
    ∧ get read "manifestHash" = VStr "sha256:1c"
    ∧ ∀ entry, entry ∈ [schema_missing] →
        ∃ last, last_with_key (display := demo_display) [schema_missing]
                  (state_key (display := demo_display) entry) = Some last
                ∧ get (previous_record read (state_key (display := demo_display) entry))
                    "status"
                  = VStr (status (observation last)).
Proof.
  apply (loadState_after_update (platform := demo) (display := demo_display) ∅ _ state_on_disk state_to_write
           [schema_missing] "sha256:1c" "2026-02-02T08:00:00.000Z" DEFAULT_STATE_PATH
           demo_JSON_reads_kept).
  - reflexivity.
  - vm_compute. reflexivity.
  - vm_compute. reflexivity.
Defined.

(** ** loadManifest *)

Section Loading.
Context `{platform : Platform} `{yaml : Yaml}.

(** X17. loadManifest returns exactly when the path is a string, a file
    is at the resolved path, js-yaml loads its text, and the document is an
    object (not null, a scalar or an array) whose services and intents are
    both truthy.  What it returns is that document, the resolved path, the
    directory of the resolved path as project root, and "sha256:" followed
    by the digest of the text as manifest hash. *)
Theorem loadManifest_returns_iff (fs : FS) (manifestPath : value) (loaded : Loaded.t) :
  loadManifest fs manifestPath = Return loaded
  ↔ ∃ path raw props,
      manifestPath = VStr path
      ∧ fs !! path_resolve path = Some (File raw)
      ∧ yaml_load raw = Return (VObj props)
      ∧ truthy (get (VObj props) "services") = true
      ∧ truthy (get (VObj props) "intents") = true
      ∧ loaded = {| Loaded.manifest := VObj props;
                    Loaded.manifestPath := path_resolve path;
                    Loaded.projectRoot := path_dirname (path_resolve path);
                    Loaded.manifestHash := "sha256:" +:+ sha256_hex raw |}.
Proof.
  unfold loadManifest, hashString. split.
  - destruct manifestPath as [| | | |path| |]; try discriminate.
    cbn [path_arg mbind result_bind]. unfold fs_existsSync, fs_readFileSync.
    destruct (fs !! path_resolve path) as [[raw|]|] eqn:Hfile.
    + rewrite bool_decide_eq_true_2 by eauto. cbn [negb mbind result_bind].
      destruct (yaml_load raw) as [document|e] eqn:Hyaml; cbn [mbind result_bind];
        [|discriminate].
      destruct document as [| |b|n|s|items|props]; try discriminate.
      * destruct (truthy (VBool b)); discriminate.
      * destruct (truthy (VNum n)); discriminate.
      * destruct (truthy (VStr s)); discriminate.
      * cbn [truthy typeof negb orb].
        destruct (truthy (get (VObj props) "services")) eqn:Hservices; [|discriminate].
        destruct (truthy (get (VObj props) "intents")) eqn:Hintents; [|discriminate].
        cbn [negb orb]. intros [= <-]. exists path, raw, props. repeat split; first [reflexivity|assumption].
    + rewrite bool_decide_eq_true_2 by eauto. discriminate.
    + rewrite bool_decide_eq_false_2 by (intros [? ?]; discriminate). discriminate.
  - intros (path & raw & props & -> & Hfile & Hyaml & Hservices & Hintents & ->).
    cbn [path_arg mbind result_bind]. unfold fs_existsSync, fs_readFileSync.
    rewrite Hfile, bool_decide_eq_true_2 by eauto. cbn [negb mbind result_bind].
    rewrite Hyaml. cbn [mbind result_bind truthy typeof negb orb].
    rewrite Hservices, Hintents. reflexivity.
Qed.

End Loading.

(** ** parseArgs *)

(** Induction on a command line as parseArgs walks it: one argument at a
    time, or a flag and its value. *)
Lemma argv_ind (P : list string → Prop) :
  P [] → (∀ arg, P [arg]) →
  (∀ arg next rest, P rest → P (next :: rest) → P (arg :: next :: rest)) →
  ∀ argv, P argv.
Proof.
  intros Hnil Hone Hstep argv.
  enough (P argv ∧ ∀ arg, P (arg :: argv)) as [H _] by exact H.
  induction argv as [|next rest [IH1 IH2]]; [split; [exact Hnil|exact Hone]|].
  split; [apply IH2|]. intros arg. apply Hstep; [exact IH1|apply IH2].
Qed.

Lemma parse_from_nil (args : Args.t) : parse_from args [] = args.
Proof. reflexivity. Qed.

Lemma parse_from_cons (args : Args.t) (arg : string) (rest : list string) :
  parse_from args (arg :: rest)
  = if String.eqb arg "--help" || String.eqb arg "-h" then
      parse_from (set_help args) rest
    else if String.eqb arg "--json" then
      parse_from (set_json args) rest
    else if String.eqb arg "--manifest" || String.eqb arg "-m" then
      match rest with
      | next :: rest' => parse_from (set_manifest args (VStr next)) rest'
      | [] => set_manifest args VUndefined
      end
    else if startsWith arg "--manifest=" then
      parse_from (set_manifest args (at_index (split arg "=") 1)) rest
    else if String.eqb arg "--intent" || String.eqb arg "-i" then
      match rest with
      | next :: rest' => parse_from (set_intent args (VStr next)) rest'
      | [] => set_intent args VUndefined
      end
    else if startsWith arg "--intent=" then
      parse_from (set_intent args (at_index (split arg "=") 1)) rest
    else
      parse_from (push_positional args arg) rest.
Proof. reflexivity. Qed.

(** The seven branches of the loop body, in the order of the source. *)
Ltac parse_step arg :=
  rewrite !(parse_from_cons _ arg), ?parse_from_nil;
  destruct (String.eqb arg "--help" || String.eqb arg "-h") eqn:Hhelp;
  [|destruct (String.eqb arg "--json") eqn:Hjson;
    [|destruct (String.eqb arg "--manifest" || String.eqb arg "-m") eqn:Hmanifest;
      [|destruct (startsWith arg "--manifest=") eqn:Hmanifest_eq;
        [|destruct (String.eqb arg "--intent" || String.eqb arg "-i") eqn:Hintent;
          [|destruct (startsWith arg "--intent=") eqn:Hintent_eq]]]]].

Lemma is_option_false (arg : string) :
  String.eqb arg "--help" || String.eqb arg "-h" = false →
  String.eqb arg "--json" = false →
  String.eqb arg "--manifest" || String.eqb arg "-m" = false →
  startsWith arg "--manifest=" = false →
  String.eqb arg "--intent" || String.eqb arg "-i" = false →
  startsWith arg "--intent=" = false →
  is_option arg = false ∧ takes_value arg = false.
Proof.
  intros Hhelp Hjson Hmanifest Hmanifest_eq Hintent Hintent_eq.
  apply orb_false_elim in Hhelp as [H1 H2].
  apply orb_false_elim in Hmanifest as [H3 H4].
  apply orb_false_elim in Hintent as [H5 H6].
  unfold is_option, takes_value.
  rewrite H1, H2, H3, H4, H5, H6, Hjson, Hmanifest_eq, Hintent_eq. split; reflexivity.
Qed.

Lemma takes_value_manifest (arg : string) :
  String.eqb arg "--manifest" || String.eqb arg "-m" = true → takes_value arg = true.
Proof.
  unfold takes_value. intros H.
  destruct (String.eqb arg "--manifest"); [reflexivity|].
  destruct (String.eqb arg "-m"); [|discriminate]. cbn. apply orb_true_r || reflexivity.
Qed.

Lemma eqb_or (arg a b : string) :
  String.eqb arg a || String.eqb arg b = true → arg = a ∨ arg = b.
Proof.
  intros H. apply orb_true_iff in H as [H|H]; apply String.eqb_eq in H; auto.
Qed.

(** Which branches read a value. *)
Lemma takes_value_help (arg : string) :
  String.eqb arg "--help" || String.eqb arg "-h" = true → takes_value arg = false.
Proof. intros H. destruct (eqb_or _ _ _ H) as [->| ->]; reflexivity. Qed.

Lemma takes_value_json (arg : string) :
  String.eqb arg "--json" = true → takes_value arg = false.
Proof. intros H. apply String.eqb_eq in H. subst. reflexivity. Qed.

Lemma takes_value_intent (arg : string) :
  String.eqb arg "--intent" || String.eqb arg "-i" = true → takes_value arg = true.
Proof. intros H. destruct (eqb_or _ _ _ H) as [->| ->]; reflexivity. Qed.

Lemma takes_value_prefixed (arg : string) :
  String.eqb arg "--manifest" || String.eqb arg "-m" = false →
  String.eqb arg "--intent" || String.eqb arg "-i" = false →
  takes_value arg = false.
Proof.
  intros H1 H2. apply orb_false_elim in H1 as [? ?]. apply orb_false_elim in H2 as [? ?].
  unfold takes_value. repeat match goal with H : _ = false |- _ => rewrite H end.
  reflexivity.
Qed.

Lemma takes_value_starts (arg : string) :
  startsWith arg "--manifest=" = true ∨ startsWith arg "--intent=" = true →
  takes_value arg = false.
Proof.
  intros H. unfold takes_value.
  repeat match goal with
         | |- context [String.eqb arg ?flag] =>
             destruct (String.eqb_spec arg flag) as [->|_];
             [destruct H as [H|H]; vm_compute in H; discriminate|]
         end.
  reflexivity.
Qed.

(** parseArgs reads a command line piece by piece, wherever a piece does
    not end inside a flag and its value. *)
Lemma parse_from_app (args : Args.t) (xs ys : list string) :
  dangling xs = false →
  parse_from args (xs ++ ys) = parse_from (parse_from args xs) ys.
Proof.
  revert args. induction xs as [|arg|arg next rest IH1 IH2] using argv_ind; intros args.
  - reflexivity.
  - cbn [dangling app]. intros Hdangling. parse_step arg; try reflexivity.
    + rewrite (takes_value_manifest arg Hmanifest) in Hdangling. discriminate.
    + rewrite (takes_value_intent arg Hintent) in Hdangling. discriminate.
  - cbn [dangling app]. intros Hdangling. parse_step arg.
    + rewrite (takes_value_help arg Hhelp) in Hdangling. apply (IH2 _ Hdangling).
    + rewrite (takes_value_json arg Hjson) in Hdangling. apply (IH2 _ Hdangling).
    + rewrite (takes_value_manifest arg Hmanifest) in Hdangling. apply (IH1 _ Hdangling).
    + rewrite (takes_value_starts arg (or_introl Hmanifest_eq)) in Hdangling.
      apply (IH2 _ Hdangling).
    + rewrite (takes_value_intent arg Hintent) in Hdangling. apply (IH1 _ Hdangling).
    + rewrite (takes_value_starts arg (or_intror Hintent_eq)) in Hdangling.
      apply (IH2 _ Hdangling).
    + rewrite (takes_value_prefixed arg Hmanifest Hintent) in Hdangling.
      apply (IH2 _ Hdangling).
Qed.

Lemma parse_from_positional (args : Args.t) (argv : list string) :
  ∃ extra, Args.positional (parse_from args argv) = Args.positional args ++ extra
           ∧ extra `sublist_of` argv
           ∧ Forall (λ arg, is_option arg = false) extra.
Proof.
  revert args. induction argv as [|arg|arg next rest IH1 IH2] using argv_ind; intros args.
  - exists []. rewrite app_nil_r. repeat split; constructor.
  - parse_step arg;
      try (exists []; rewrite app_nil_r; repeat split;
           [apply sublist_nil_l|constructor]).
    exists [arg]. split; [reflexivity|]. split; [reflexivity|].
    constructor; [|constructor].
    apply (is_option_false arg); assumption.
  - parse_step arg;
      [destruct (IH2 (set_help args)) as (extra & Heq & Hsub & Hall)
      |destruct (IH2 (set_json args)) as (extra & Heq & Hsub & Hall)
      |destruct (IH1 (set_manifest args (VStr next))) as (extra & Heq & Hsub & Hall)
      |destruct (IH2 (set_manifest args (at_index (split arg "=") 1)))
         as (extra & Heq & Hsub & Hall)
      |destruct (IH1 (set_intent args (VStr next))) as (extra & Heq & Hsub & Hall)
      |destruct (IH2 (set_intent args (at_index (split arg "=") 1)))
         as (extra & Heq & Hsub & Hall)
      |destruct (IH2 (push_positional args arg)) as (extra & Heq & Hsub & Hall)];
      try (exists extra; rewrite Heq; repeat split;
           [first [apply sublist_cons; exact Hsub
                  |apply sublist_cons, sublist_cons; exact Hsub]|exact Hall]).
    exists (arg :: extra). rewrite Heq. cbn [push_positional Args.positional].
    rewrite <- app_assoc. repeat split; [apply sublist_skip, Hsub|].
    constructor; [|exact Hall]. apply (is_option_false arg); assumption.
Qed.

(** X18. The positional arguments parseArgs collects are arguments of the
    command line, in the order they were given, and none of them is an
    option: the command is never "--help", "-m" or the like. *)
Theorem parseArgs_positional (argv : list string) :
  Args.positional (parseArgs argv) `sublist_of` argv
  ∧ Forall (λ arg, is_option arg = false) (Args.positional (parseArgs argv)).
Proof.
  unfold parseArgs.
  destruct (parse_from_positional
              {| Args.positional := []; Args.manifest := VNull; Args.intent := VNull;
                 Args.json := false; Args.help := false |} argv)
    as (extra & -> & Hsub & Hall).
  split; [exact Hsub|exact Hall].
Qed.

Lemma is_option_help (arg : string) :
  String.eqb arg "--help" || String.eqb arg "-h" = true → is_option arg = true.
Proof. intros H. destruct (eqb_or _ _ _ H) as [->| ->]; reflexivity. Qed.

Lemma is_option_json (arg : string) : String.eqb arg "--json" = true → is_option arg = true.
Proof. intros H. apply String.eqb_eq in H. subst. reflexivity. Qed.

Lemma is_option_starts (arg : string) :
  startsWith arg "--manifest=" = true ∨ startsWith arg "--intent=" = true →
  is_option arg = true.
Proof.
  unfold is_option. intros [H|H]; rewrite H; rewrite ?orb_true_r; reflexivity.
Qed.

Lemma parse_from_without_values (args : Args.t) (argv : list string) :
  Forall (λ arg, takes_value arg = false) argv →
  Args.positional (parse_from args argv)
    = Args.positional args ++ List.filter (λ arg, negb (is_option arg)) argv
  ∧ Args.help (parse_from args argv)
    = Args.help args || existsb (λ arg, String.eqb arg "--help" || String.eqb arg "-h") argv
  ∧ Args.json (parse_from args argv)
    = Args.json args || existsb (λ arg, String.eqb arg "--json") argv.
Proof.
  revert args. induction argv as [|arg rest IH]; intros args Hplain.
  - cbn. rewrite app_nil_r, !orb_false_r. auto.
  - apply Forall_cons in Hplain as [Harg Hrest]. cbn [List.filter existsb].
    parse_step arg.
    + destruct (IH (set_help args) Hrest) as (-> & -> & ->).
      destruct (eqb_or _ _ _ Hhelp) as [->| ->]; cbn; rewrite ?orb_true_r; auto.
    + destruct (IH (set_json args) Hrest) as (-> & -> & ->).
      apply String.eqb_eq in Hjson. subst arg. cbn. rewrite ?orb_true_r; auto.
    + rewrite (takes_value_manifest arg Hmanifest) in Harg. discriminate.
    + destruct (IH (set_manifest args (at_index (split arg "=") 1)) Hrest) as (-> & -> & ->).
      rewrite (is_option_starts arg (or_introl Hmanifest_eq)). cbn. auto.
    + rewrite (takes_value_intent arg Hintent) in Harg. discriminate.
    + destruct (IH (set_intent args (at_index (split arg "=") 1)) Hrest) as (-> & -> & ->).
      rewrite (is_option_starts arg (or_intror Hintent_eq)). cbn. auto.
    + destruct (IH (push_positional args arg) Hrest) as (-> & -> & ->).
      destruct (is_option_false arg Hhelp Hjson Hmanifest Hmanifest_eq Hintent Hintent_eq)
        as [-> _].
      cbn. rewrite <- app_assoc. auto.
Qed.

(** X19. On a command line without a flag that reads a value (--manifest,
    -m, --intent, -i), the positional arguments are exactly the arguments
    that are not options, in order; help is set iff --help or -h occurs, and
    json iff --json occurs. *)
Theorem parseArgs_without_values (argv : list string) :
  Forall (λ arg, takes_value arg = false) argv →
  Args.positional (parseArgs argv) = List.filter (λ arg, negb (is_option arg)) argv
  ∧ Args.help (parseArgs argv)
    = existsb (λ arg, String.eqb arg "--help" || String.eqb arg "-h") argv
  ∧ Args.json (parseArgs argv) = existsb (λ arg, String.eqb arg "--json") argv.
Proof.
  intros Hplain. unfold parseArgs.
  destruct (parse_from_without_values
              {| Args.positional := []; Args.manifest := VNull; Args.intent := VNull;
                 Args.json := false; Args.help := false |} argv Hplain)
    as (-> & -> & ->).
  auto.
Qed.

Lemma parseArgs_without_values_witness :
  Args.positional (parseArgs ["--json"; "status"; "--intent=dev"; "extra"])
    = ["status"; "extra"]
  ∧ Args.help (parseArgs ["--json"; "status"; "--intent=dev"; "extra"]) = false
  ∧ Args.json (parseArgs ["--json"; "status"; "--intent=dev"; "extra"]) = true.
Proof.
  apply (parseArgs_without_values ["--json"; "status"; "--intent=dev"; "extra"]).
  repeat constructor.
Defined.

Lemma parse_from_sources (args : Args.t) (argv : list string) :
  (Args.help (parse_from args argv) = true →
   Args.help args = true ∨ "--help" ∈ argv ∨ "-h" ∈ argv)
  ∧ (Args.json (parse_from args argv) = true → Args.json args = true ∨ "--json" ∈ argv)
  ∧ (Args.manifest (parse_from args argv) = Args.manifest args
     ∨ ∃ arg, arg ∈ argv ∧ gives_manifest arg)
  ∧ (Args.intent (parse_from args argv) = Args.intent args
     ∨ ∃ arg, arg ∈ argv ∧ gives_intent arg).
Proof.
  revert args. induction argv as [|arg|arg next rest IH1 IH2] using argv_ind; intros args.
  - cbn. auto.
  - parse_step arg; cbn [set_help set_json set_manifest set_intent push_positional
                         Args.help Args.json Args.manifest Args.intent].
    + destruct (eqb_or _ _ _ Hhelp) as [->| ->]; repeat split; auto;
        intros _; right; [left|right]; left.
    + apply String.eqb_eq in Hjson. subst. repeat split; auto. intros _. right. left.
    + repeat split; auto. right. exists arg. split; [left|].
      destruct (eqb_or _ _ _ Hmanifest); [left|right; left]; assumption.
    + repeat split; auto. right. exists arg. split; [left|]. right. right. assumption.
    + repeat split; auto. right. exists arg. split; [left|].
      destruct (eqb_or _ _ _ Hintent); [left|right; left]; assumption.
    + repeat split; auto. right. exists arg. split; [left|]. right. right. assumption.
    + repeat split; auto.
  - assert (∀ P : string → Prop,
              (∃ a, a ∈ next :: rest ∧ P a) → ∃ a, a ∈ arg :: next :: rest ∧ P a) as Hlater.
    { intros P (a & Hin & Ha). exists a. split; [right; exact Hin|exact Ha]. }
    assert (∀ P : string → Prop,
              (∃ a, a ∈ rest ∧ P a) → ∃ a, a ∈ arg :: next :: rest ∧ P a) as Hlater2.
    { intros P (a & Hin & Ha). exists a. split; [right; right; exact Hin|exact Ha]. }
    assert (∀ P : string → Prop, P arg → ∃ a, a ∈ arg :: next :: rest ∧ P a) as Hhere.
    { intros P Ha. exists arg. split; [left|exact Ha]. }
    parse_step arg.
    + destruct (IH2 (set_help args)) as (Hh & Hj & Hm & Hi).
      cbn [set_help Args.help Args.json Args.manifest Args.intent] in Hh, Hj, Hm, Hi.
      split; [|split; [|split]].
      * intros _. right. destruct (eqb_or _ _ _ Hhelp) as [->| ->]; [left|right]; left.
      * intros H. destruct (Hj H) as [?|?]; [left; assumption|right; right; assumption].
      * destruct Hm as [?|?]; [left; assumption|right; apply Hlater; assumption].
      * destruct Hi as [?|?]; [left; assumption|right; apply Hlater; assumption].
    + destruct (IH2 (set_json args)) as (Hh & Hj & Hm & Hi).
      cbn [set_json Args.help Args.json Args.manifest Args.intent] in Hh, Hj, Hm, Hi.
      split; [|split; [|split]].
      * intros H. destruct (Hh H) as [?|[?|?]];
          [left; assumption|right; left; right; assumption|right; right; right; assumption].
      * intros _. right. apply String.eqb_eq in Hjson. subst. left.
      * destruct Hm as [?|?]; [left; assumption|right; apply Hlater; assumption].
      * destruct Hi as [?|?]; [left; assumption|right; apply Hlater; assumption].
    + destruct (IH1 (set_manifest args (VStr next))) as (Hh & Hj & Hm & Hi).
      cbn [set_manifest Args.help Args.json Args.manifest Args.intent] in Hh, Hj, Hm, Hi.
      split; [|split; [|split]].
      * intros H. destruct (Hh H) as [?|[?|?]];
          [left; assumption|right; left; right; right; assumption
          |right; right; right; right; assumption].
      * intros H. destruct (Hj H) as [?|?];
          [left; assumption|right; right; right; assumption].
      * right. apply Hhere.
        destruct (eqb_or _ _ _ Hmanifest); [left|right; left]; assumption.
      * destruct Hi as [?|?]; [left; assumption|right; apply Hlater2; assumption].
    + destruct (IH2 (set_manifest args (at_index (split arg "=") 1))) as (Hh & Hj & Hm & Hi).
      cbn [set_manifest Args.help Args.json Args.manifest Args.intent] in Hh, Hj, Hm, Hi.
      split; [|split; [|split]].
      * intros H. destruct (Hh H) as [?|[?|?]];
          [left; assumption|right; left; right; assumption|right; right; right; assumption].
      * intros H. destruct (Hj H) as [?|?]; [left; assumption|right; right; assumption].
      * right. apply Hhere. right. right. assumption.
      * destruct Hi as [?|?]; [left; assumption|right; apply Hlater; assumption].
    + destruct (IH1 (set_intent args (VStr next))) as (Hh & Hj & Hm & Hi).
      cbn [set_intent Args.help Args.json Args.manifest Args.intent] in Hh, Hj, Hm, Hi.
      split; [|split; [|split]].
      * intros H. destruct (Hh H) as [?|[?|?]];
          [left; assumption|right; left; right; right; assumption
          |right; right; right; right; assumption].
      * intros H. destruct (Hj H) as [?|?];
          [left; assumption|right; right; right; assumption].
      * destruct Hm as [?|?]; [left; assumption|right; apply Hlater2; assumption].
      * right. apply Hhere.
        destruct (eqb_or _ _ _ Hintent); [left|right; left]; assumption.
    + destruct (IH2 (set_intent args (at_index (split arg "=") 1))) as (Hh & Hj & Hm & Hi).
      cbn [set_intent Args.help Args.json Args.manifest Args.intent] in Hh, Hj, Hm, Hi.
      split; [|split; [|split]].
      * intros H. destruct (Hh H) as [?|[?|?]];
          [left; assumption|right; left; right; assumption|right; right; right; assumption].
      * intros H. destruct (Hj H) as [?|?]; [left; assumption|right; right; assumption].
      * destruct Hm as [?|?]; [left; assumption|right; apply Hlater; assumption].
      * right. apply Hhere. right. right. assumption.
    + destruct (IH2 (push_positional args arg)) as (Hh & Hj & Hm & Hi).
      cbn [push_positional Args.help Args.json Args.manifest Args.intent] in Hh, Hj, Hm, Hi.
      split; [|split; [|split]].
      * intros H. destruct (Hh H) as [?|[?|?]];
          [left; assumption|right; left; right; assumption|right; right; right; assumption].
      * intros H. destruct (Hj H) as [?|?]; [left; assumption|right; right; assumption].
      * destruct Hm as [?|?]; [left; assumption|right; apply Hlater; assumption].
      * destruct Hi as [?|?]; [left; assumption|right; apply Hlater; assumption].
Qed.

(** X20. parseArgs sets nothing the command line does not ask for: help is
    set only if --help or -h is an argument, json only if --json is one, and
    the manifest and intent options stay null unless an argument gives
    them. *)
Theorem parseArgs_sets_what_is_given (argv : list string) :
  (Args.help (parseArgs argv) = true → "--help" ∈ argv ∨ "-h" ∈ argv)
  ∧ (Args.json (parseArgs argv) = true → "--json" ∈ argv)
  ∧ (Args.manifest (parseArgs argv) ≠ VNull → ∃ arg, arg ∈ argv ∧ gives_manifest arg)
  ∧ (Args.intent (parseArgs argv) ≠ VNull → ∃ arg, arg ∈ argv ∧ gives_intent arg).
Proof.
  unfold parseArgs.
  destruct (parse_from_sources
              {| Args.positional := []; Args.manifest := VNull; Args.intent := VNull;
                 Args.json := false; Args.help := false |} argv) as (Hh & Hj & Hm & Hi).
  cbn [Args.help Args.json Args.manifest Args.intent] in Hh, Hj, Hm, Hi.
  split; [|split; [|split]].
  - intros H. destruct (Hh H) as [?|?]; [discriminate|assumption].
  - intros H. destruct (Hj H) as [?|?]; [discriminate|assumption].
  - intros H. destruct Hm as [?|?]; [contradiction|assumption].
  - intros H. destruct Hi as [?|?]; [contradiction|assumption].
Qed.

(** The pieces of [s.split(c)]: the first is the text before the first
    separator. *)
Lemma split_pieces (s : string) (c : ascii) :
  ∃ pieces, split s c = split_first s c :: pieces.
Proof.
  induction s as [|a s [pieces IH]]; cbn [split split_first].
  - exists []. reflexivity.
  - destruct (decide (a = c)); [eexists; reflexivity|].
    rewrite IH. eexists; reflexivity.
Qed.

Lemma split_after (before after : string) (c : ascii) :
  includes before c = false →
  split (before +:+ String c after) c = before :: split after c.
Proof.
  induction before as [|a before IH]; cbn [includes];
    repeat first [rewrite append_empty | rewrite append_String]; cbn [split].
  - intros _. destruct (decide (c = c)); [reflexivity|congruence].
  - destruct (decide (a = c)); [discriminate|]. intros Hfree.
    rewrite (IH Hfree). reflexivity.
Qed.

(** The value of an option given as [--name=value]: what is between the
    first "=" and the next one. *)
Lemma option_value (name value : string) :
  includes name "=" = false →
  at_index (split (name +:+ String "=" value) "=") 1 = VStr (split_first value "=").
Proof.
  intros Hname. rewrite (split_after _ _ _ Hname).
  destruct (split_pieces value "=") as [pieces ->]. reflexivity.
Qed.

Lemma starts_with_app (s prefix : string) :
  startsWith s prefix = true → ∃ rest, s = prefix +:+ rest.
Proof.
  unfold startsWith. revert s. induction prefix as [|a prefix IH]; intros s.
  - exists s. reflexivity.
  - destruct s as [|b s]; cbn [String.prefix]; [discriminate|].
    destruct (ascii_dec a b) as [->|]; [|discriminate].
    intros H. destruct (IH s H) as [rest ->]. exists rest. reflexivity.
Qed.

Lemma option_value_string (arg name : string) :
  includes name "=" = false →
  startsWith arg (name +:+ "=") = true →
  ∃ value, arg = name +:+ String "=" value
           ∧ at_index (split arg "=") 1 = VStr (split_first value "=").
Proof.
  intros Hname Hstarts. destruct (starts_with_app _ _ Hstarts) as [value ->].
  exists value.
  assert ((name +:+ "=") +:+ value = name +:+ String "=" value) as ->.
  { clear. induction name as [|a name IH];
      repeat first [rewrite append_empty | rewrite append_String]; [reflexivity|].
    rewrite IH. reflexivity. }
  split; [reflexivity|]. apply option_value, Hname.
Qed.

Lemma starts_with_prefix (prefix rest : string) : startsWith (prefix +:+ rest) prefix = true.
Proof.
  unfold startsWith. induction prefix as [|a prefix IH];
    repeat first [rewrite append_empty | rewrite append_String].
  - destruct rest; reflexivity.
  - cbn [String.prefix]. destruct (ascii_dec a a); [exact IH|congruence].
Qed.

Lemma parse_manifest_equals (args : Args.t) (v : string) :
  parse_from args ["--manifest=" +:+ v] = set_manifest args (VStr (split_first v "=")).
Proof.
  rewrite parse_from_cons, parse_from_nil, (starts_with_prefix "--manifest=" v).
  change ("--manifest=" +:+ v) with ("--manifest" +:+ String "=" v).
  rewrite (option_value "--manifest" v eq_refl). reflexivity.
Qed.

Lemma parse_intent_equals (args : Args.t) (v : string) :
  parse_from args ["--intent=" +:+ v] = set_intent args (VStr (split_first v "=")).
Proof.
  rewrite parse_from_cons, parse_from_nil, (starts_with_prefix "--intent=" v).
  change ("--intent=" +:+ v) with ("--intent" +:+ String "=" v).
  rewrite (option_value "--intent" v eq_refl).
  assert (startsWith ("--intent" +:+ String "=" v) "--manifest=" = false) as ->
    by reflexivity.
  reflexivity.
Qed.

(** X21. After a command line that does not end inside a flag and its
    value, the last manifest option decides: [--manifest v] and [-m v] give
    v, whatever v is; [--manifest=v] gives v only up to its first "=";
    and a flag with nothing after it leaves the option undefined.  The
    intent option is read the same way. *)
Theorem parseArgs_last_option (before : list string) (v : string) :
  dangling before = false →
  Args.manifest (parseArgs (before ++ ["--manifest"; v])) = VStr v
  ∧ Args.manifest (parseArgs (before ++ ["-m"; v])) = VStr v
  ∧ Args.manifest (parseArgs (before ++ ["--manifest=" +:+ v])) = VStr (split_first v "=")
  ∧ Args.manifest (parseArgs (before ++ ["--manifest"])) = VUndefined
  ∧ Args.manifest (parseArgs (before ++ ["-m"])) = VUndefined
  ∧ Args.intent (parseArgs (before ++ ["--intent"; v])) = VStr v
  ∧ Args.intent (parseArgs (before ++ ["-i"; v])) = VStr v
  ∧ Args.intent (parseArgs (before ++ ["--intent=" +:+ v])) = VStr (split_first v "=")
  ∧ Args.intent (parseArgs (before ++ ["--intent"])) = VUndefined
  ∧ Args.intent (parseArgs (before ++ ["-i"])) = VUndefined.
Proof.
  intros Hcomplete. unfold parseArgs.
  rewrite !(parse_from_app _ before _ Hcomplete).
  rewrite parse_manifest_equals, parse_intent_equals.
  repeat split; reflexivity.
Qed.

Lemma parseArgs_last_option_witness :
  Args.manifest (parseArgs ["status"; "-m"; "old.yaml"; "--manifest=env=prod.yaml"])
    = VStr "env"
  ∧ Args.manifest (parseArgs ["status"; "-m"; "old.yaml"; "-m"]) = VUndefined.
Proof.
  destruct (parseArgs_last_option ["status"; "-m"; "old.yaml"] "env=prod.yaml" eq_refl)
    as (_ & _ & Hequals & _ & Hlast & _).
  split; [exact Hequals|exact Hlast].
Defined.

(** What an option holds: what it held before, a string, or undefined when
    the command line ends with its flag. *)
Lemma parse_from_options (args : Args.t) (argv : list string) :
  (Args.manifest (parse_from args argv) = Args.manifest args
   ∨ (∃ s, Args.manifest (parse_from args argv) = VStr s)
   ∨ (Args.manifest (parse_from args argv) = VUndefined
      ∧ ∃ before flag, argv = before ++ [flag] ∧ (flag = "--manifest" ∨ flag = "-m")))
  ∧ (Args.intent (parse_from args argv) = Args.intent args
     ∨ (∃ s, Args.intent (parse_from args argv) = VStr s)
     ∨ (Args.intent (parse_from args argv) = VUndefined
        ∧ ∃ before flag, argv = before ++ [flag] ∧ (flag = "--intent" ∨ flag = "-i"))).
Proof.
  assert (∀ (P : string → Prop) (skipped rest : list string),
            (∃ before flag, rest = before ++ [flag] ∧ P flag) →
            ∃ before flag, skipped ++ rest = before ++ [flag] ∧ P flag) as Hlater.
  { intros P skipped rest (before & flag & -> & Hflag).
    exists (skipped ++ before), flag. rewrite <- app_assoc. auto. }
  assert (∀ (shape : Args.t → value) (args' : Args.t) (result : value) (P : string → Prop)
            (skipped rest : list string),
            (result = shape args'
             ∨ (∃ s, result = VStr s)
             ∨ (result = VUndefined ∧ ∃ before flag, rest = before ++ [flag] ∧ P flag)) →
            ∀ was, shape args' = was ∨ (∃ s, shape args' = VStr s) →
            result = was
            ∨ (∃ s, result = VStr s)
            ∨ (result = VUndefined
               ∧ ∃ before flag, skipped ++ rest = before ++ [flag] ∧ P flag)) as Hstep.
  { intros shape args' result P skipped rest [Hsame|[Hstring|[Hundefined Hflag]]] was Hwas.
    - rewrite Hsame. destruct Hwas as [?|?]; [left; assumption|right; left; assumption].
    - right. left. exact Hstring.
    - right. right. split; [exact Hundefined|apply Hlater, Hflag]. }
  revert args. induction argv as [|arg|arg next rest IH1 IH2] using argv_ind; intros args.
  - cbn. auto.
  - parse_step arg; cbn [set_help set_json set_manifest set_intent push_positional
                         Args.manifest Args.intent]; try (split; left; reflexivity).
    + split; [|left; reflexivity]. right. right. split; [reflexivity|].
      exists [], arg. split; [reflexivity|]. apply eqb_or, Hmanifest.
    + split; [|left; reflexivity]. right. left.
      destruct (option_value_string arg "--manifest" eq_refl Hmanifest_eq) as (v & _ & ->).
      eexists; reflexivity.
    + split; [left; reflexivity|]. right. right. split; [reflexivity|].
      exists [], arg. split; [reflexivity|]. apply eqb_or, Hintent.
    + split; [left; reflexivity|]. right. left.
      destruct (option_value_string arg "--intent" eq_refl Hintent_eq) as (v & _ & ->).
      eexists; reflexivity.
  - parse_step arg.
    + destruct (IH2 (set_help args)) as [Hm Hi]. split.
      * apply (Hstep Args.manifest (set_help args) _ _ [arg] _ Hm). left. reflexivity.
      * apply (Hstep Args.intent (set_help args) _ _ [arg] _ Hi). left. reflexivity.
    + destruct (IH2 (set_json args)) as [Hm Hi]. split.
      * apply (Hstep Args.manifest (set_json args) _ _ [arg] _ Hm). left. reflexivity.
      * apply (Hstep Args.intent (set_json args) _ _ [arg] _ Hi). left. reflexivity.
    + destruct (IH1 (set_manifest args (VStr next))) as [Hm Hi]. split.
      * apply (Hstep Args.manifest (set_manifest args (VStr next)) _ _ [arg; next] _ Hm).
        right. eexists; reflexivity.
      * apply (Hstep Args.intent (set_manifest args (VStr next)) _ _ [arg; next] _ Hi).
        left. reflexivity.
    + destruct (IH2 (set_manifest args (at_index (split arg "=") 1))) as [Hm Hi]. split.
      * apply (Hstep Args.manifest (set_manifest args (at_index (split arg "=") 1))
                 _ _ [arg] _ Hm).
        right.
        destruct (option_value_string arg "--manifest" eq_refl Hmanifest_eq) as (v & _ & ->).
        eexists; reflexivity.
      * apply (Hstep Args.intent (set_manifest args (at_index (split arg "=") 1))
                 _ _ [arg] _ Hi). left. reflexivity.
    + destruct (IH1 (set_intent args (VStr next))) as [Hm Hi]. split.
      * apply (Hstep Args.manifest (set_intent args (VStr next)) _ _ [arg; next] _ Hm).
        left. reflexivity.
      * apply (Hstep Args.intent (set_intent args (VStr next)) _ _ [arg; next] _ Hi).
        right. eexists; reflexivity.
    + destruct (IH2 (set_intent args (at_index (split arg "=") 1))) as [Hm Hi]. split.
      * apply (Hstep Args.manifest (set_intent args (at_index (split arg "=") 1))
                 _ _ [arg] _ Hm). left. reflexivity.
      * apply (Hstep Args.intent (set_intent args (at_index (split arg "=") 1))
                 _ _ [arg] _ Hi).
        right.
        destruct (option_value_string arg "--intent" eq_refl Hintent_eq) as (v & _ & ->).
        eexists; reflexivity.
    + destruct (IH2 (push_positional args arg)) as [Hm Hi]. split.
      * apply (Hstep Args.manifest (push_positional args arg) _ _ [arg] _ Hm).
        left. reflexivity.
      * apply (Hstep Args.intent (push_positional args arg) _ _ [arg] _ Hi).
        left. reflexivity.
Qed.

(** X22. The manifest option parseArgs returns is null (not given), a
    string, or undefined, and it is undefined only when the command line
    ends with --manifest or -m; likewise for the intent option. *)
Theorem parseArgs_option_values (argv : list string) :
  (Args.manifest (parseArgs argv) = VNull
   ∨ (∃ s, Args.manifest (parseArgs argv) = VStr s)
   ∨ (Args.manifest (parseArgs argv) = VUndefined
      ∧ ∃ before flag, argv = before ++ [flag] ∧ (flag = "--manifest" ∨ flag = "-m")))
  ∧ (Args.intent (parseArgs argv) = VNull
     ∨ (∃ s, Args.intent (parseArgs argv) = VStr s)
     ∨ (Args.intent (parseArgs argv) = VUndefined
        ∧ ∃ before flag, argv = before ++ [flag] ∧ (flag = "--intent" ∨ flag = "-i"))).
Proof.
  exact (parse_from_options
           {| Args.positional := []; Args.manifest := VNull; Args.intent := VNull;
              Args.json := false; Args.help := false |} argv).
Qed.

(** ** resolveManifestPath *)

Lemma manifest_option_shape (argv : list string) :
  Args.manifest (parseArgs argv) = VNull
  ∨ (∃ s, Args.manifest (parseArgs argv) = VStr s)
  ∨ Args.manifest (parseArgs argv) = VUndefined.
Proof.
  destruct (parse_from_options
              {| Args.positional := []; Args.manifest := VNull; Args.intent := VNull;
                 Args.json := false; Args.help := false |} argv)
    as [[Hnull|[Hstring|[Hundefined _]]] _]; auto.
Qed.

(** X23. Whatever the command line and the environment, the manifest path
    the handlers pass to loadManifest is a non-empty string: the manifest
    option when it is one, else NEXUS_MANIFEST when it is set and not empty,
    else "nexus.yaml".  An empty or undefined option falls through. *)
Theorem resolveManifestPath_is_a_path (env : gmap string string) (argv : list string) :
  ∃ s, resolveManifestPath env (parseArgs argv) = VStr s
       ∧ s ≠ EmptyString
       ∧ s = match Args.manifest (parseArgs argv) with
             | VStr option => str_or (Some option) (str_or (env !! "NEXUS_MANIFEST") "nexus.yaml")
             | _ => str_or (env !! "NEXUS_MANIFEST") "nexus.yaml"
             end.
Proof.
  unfold resolveManifestPath, env_var.
  assert (∀ fallback : string, fallback ≠ EmptyString →
            ∀ o : option string, str_or o fallback ≠ EmptyString) as Hstr.
  { intros fallback Hfallback [s|]; cbn; [|exact Hfallback].
    destruct (String.eqb_spec s EmptyString); [exact Hfallback|assumption]. }
  assert (or_else (match env !! "NEXUS_MANIFEST" with
                   | Some s => VStr s
                   | None => VUndefined
                   end) (VStr "nexus.yaml")
          = VStr (str_or (env !! "NEXUS_MANIFEST") "nexus.yaml")) as Henv.
  { destruct (env !! "NEXUS_MANIFEST") as [s|]; [|reflexivity].
    unfold or_else. cbn. destruct (String.eqb s EmptyString); reflexivity. }
  destruct (manifest_option_shape argv) as [Hnull|[[option Hoption]|Hundefined]].
  - rewrite Hnull. unfold or_else at 2. cbn [truthy]. rewrite Henv.
    eexists. split; [reflexivity|]. split; [|reflexivity].
    apply Hstr. discriminate.
  - rewrite Hoption. unfold or_else at 2. cbn [truthy str_or].
    destruct (String.eqb option EmptyString) eqn:Hempty; cbn [negb].
    + rewrite Henv. eexists. split; [reflexivity|]. split; [|reflexivity].
      apply Hstr. discriminate.
    + unfold or_else. cbn [truthy]. rewrite Hempty. cbn [negb].
      eexists. split; [reflexivity|]. split; [|reflexivity].
      intros ->. discriminate.
  - rewrite Hundefined. unfold or_else at 2. cbn [truthy]. rewrite Henv.
    eexists. split; [reflexivity|]. split; [|reflexivity].
    apply Hstr. discriminate.
Qed.

(** ** listPendingTypes *)

Section PendingTypes.
Context `{platform : Platform} `{display : Display}.

Lemma same_value_strings (s : string) (names : list string) :
  existsb (same_value (VStr s)) (VStr <$> names) = bool_decide (s ∈ names).
Proof.
  induction names as [|name names IH].
  - cbn. rewrite bool_decide_eq_false_2; [reflexivity|apply not_elem_of_nil].
  - rewrite fmap_cons. cbn [existsb]. rewrite IH.
    change (same_value (VStr s) (VStr name)) with (String.eqb s name).
    destruct (String.eqb_spec s name) as [->|Hne]; cbn [orb].
    + rewrite bool_decide_eq_true_2; [reflexivity|left].
    + apply bool_decide_ext. rewrite elem_of_cons. tauto.
Qed.

(** The Set of the types seen so far, for results whose types are strings. *)
Lemma pending_types_fold (results : list Validated) (names : list string) :
  Forall (λ result, ∃ s, type (item result) = VStr s) results →
  NoDup names →
  ∃ names',
    fold_left (λ types result,
      if negb (String.eqb (status (observation result)) "healthy")
      then Set_add types (type (item result))
      else types) results (VStr <$> names) = VStr <$> names'
    ∧ NoDup names'
    ∧ ∀ name, name ∈ names' ↔
        name ∈ names
        ∨ ∃ result, result ∈ results ∧ status (observation result) ≠ "healthy"
                    ∧ type (item result) = VStr name.
Proof.
  revert names. induction results as [|result results IH]; intros names Hstrings Hnodup.
  - exists names. split; [reflexivity|]. split; [exact Hnodup|].
    intros name. split; [auto|]. intros [?|(result & Hin & _)]; [assumption|].
    inversion Hin.
  - apply Forall_cons in Hstrings as [[s Hs] Hstrings]. cbn [fold_left].
    assert (∀ names1 : list string,
              (∀ name, name ∈ names1 ↔
                 name ∈ names ∨ (status (observation result) ≠ "healthy" ∧ name = s)) →
              ∀ names' : list string, (∀ name, name ∈ names' ↔
                 name ∈ names1
                 ∨ ∃ r, r ∈ results ∧ status (observation r) ≠ "healthy"
                        ∧ type (item r) = VStr name) →
              ∀ name, name ∈ names' ↔
                 name ∈ names
                 ∨ ∃ r, r ∈ result :: results ∧ status (observation r) ≠ "healthy"
                        ∧ type (item r) = VStr name) as Hmerge.
    { intros names1 H1 names' H' name. rewrite H', H1. split.
      - intros [[?|[Hpending ->]]|(r & Hin & Hr)]; [left; assumption| |].
        + right. exists result. split; [left|]. split; assumption.
        + right. exists r. split; [right; exact Hin|exact Hr].
      - intros [?|(r & Hin & Hpending & Hr)]; [left; left; assumption|].
        apply elem_of_cons in Hin as [->|Hin].
        + left. right. split; [exact Hpending|]. congruence.
        + right. exists r. auto. }
    destruct (String.eqb_spec (status (observation result)) "healthy") as [Hhealthy|Hpending];
      cbn [negb].
    + destruct (IH names Hstrings Hnodup) as (names' & Hfold & Hnodup' & Hmem).
      exists names'. split; [exact Hfold|]. split; [exact Hnodup'|].
      apply (Hmerge names); [|exact Hmem].
      intros name. split; [auto|]. intros [?|[Habsurd _]]; [assumption|contradiction].
    + rewrite Hs. unfold Set_add. rewrite same_value_strings.
      destruct (decide (s ∈ names)) as [Hin|Hout].
      * rewrite bool_decide_eq_true_2 by exact Hin.
        destruct (IH names Hstrings Hnodup) as (names' & Hfold & Hnodup' & Hmem).
        exists names'. split; [exact Hfold|]. split; [exact Hnodup'|].
        apply (Hmerge names); [|exact Hmem].
        intros name. split; [auto|]. intros [?|[_ ->]]; assumption.
      * rewrite bool_decide_eq_false_2 by exact Hout.
        change ((VStr <$> names) ++ [VStr s]) with ((VStr <$> names) ++ (VStr <$> [s])).
        rewrite <- fmap_app.
        assert (NoDup (names ++ [s])) as Hnodup1.
        { apply NoDup_app. split; [exact Hnodup|]. split; [|apply NoDup_singleton].
          intros x Hx Hx'. apply list_elem_of_singleton in Hx'. subst. contradiction. }
        destruct (IH (names ++ [s]) Hstrings Hnodup1) as (names' & Hfold & Hnodup' & Hmem).
        exists names'. split; [exact Hfold|]. split; [exact Hnodup'|].
        apply (Hmerge (names ++ [s])); [|exact Hmem].
        intros name. rewrite elem_of_app, list_elem_of_singleton. tauto.
Qed.

Lemma units_before_asym (us vs : list N) :
  units_before us vs = true → units_before vs us = false.
Proof.
  revert vs. induction us as [|u us IH]; intros [|v vs]; cbn [units_before];
    try reflexivity; try discriminate.
  destruct (N.ltb_spec u v), (N.ltb_spec v u); try reflexivity; try discriminate; try lia.
  apply IH.
Qed.

Lemma units_before_between (us vs ws : list N) :
  units_before us ws = true → units_before us vs = true ∨ units_before vs ws = true.
Proof.
  revert vs ws. induction us as [|u us IH]; intros [|v vs] [|w ws]; cbn [units_before];
    try discriminate; auto.
  destruct (N.ltb_spec u w), (N.ltb_spec w u), (N.ltb_spec u v), (N.ltb_spec v u),
    (N.ltb_spec v w), (N.ltb_spec w v); try discriminate; auto; lia.
Qed.

Lemma not_after_trans (a b c : string) : not_after a b → not_after b c → not_after a c.
Proof.
  unfold not_after. intros Hab Hbc.
  destruct (units_before (code_units c) (code_units a)) eqn:Hca; [|reflexivity].
  destruct (units_before_between _ (code_units b) _ Hca); congruence.
Qed.

(** Inserting a string into a sorted list of strings. *)
Lemma insert_sorted_strings (s : string) (names : list string) :
  ∃ names', insert_sorted (VStr s) (VStr <$> names) = VStr <$> names'
            ∧ names' ≡ₚ s :: names
            ∧ (Sorted not_after names → Sorted not_after names')
            ∧ (∀ a, HdRel not_after a names → not_after a s → HdRel not_after a names').
Proof.
  induction names as [|name names (names' & Hinsert & Hperm & Hsorted & Hhead)].
  - exists [s]. split; [reflexivity|]. split; [reflexivity|]. split.
    + intros _. repeat constructor.
    + intros a _ Ha. constructor. exact Ha.
  - cbn [fmap list_fmap insert_sorted sorts_after]. rewrite !ToString_string.
    destruct (units_before (code_units s) (code_units name)) eqn:Hlt.
    + exists (s :: name :: names). split; [reflexivity|]. split; [reflexivity|]. split.
      * intros Hs. constructor; [exact Hs|]. constructor. apply units_before_asym, Hlt.
      * intros a _ Ha. constructor. exact Ha.
    + exists (name :: names'). split; [cbn; rewrite <- Hinsert; reflexivity|]. split.
      * rewrite Hperm. apply perm_swap.
      * split.
        -- intros Hs. apply Sorted_inv in Hs as [Hs Hhd].
           constructor; [apply Hsorted, Hs|]. apply Hhead; [exact Hhd|exact Hlt].
        -- intros a Ha _. apply HdRel_inv in Ha. constructor. exact Ha.
Qed.

Lemma sort_strings (names sorted : list string) :
  Sorted not_after sorted →
  ∃ sorted',
    fold_left (λ sorted x, insert_sorted x sorted) (VStr <$> names) (VStr <$> sorted)
      = VStr <$> sorted'
    ∧ sorted' ≡ₚ sorted ++ names
    ∧ Sorted not_after sorted'.
Proof.
  revert sorted. induction names as [|name names IH]; intros sorted Hsorted.
  - exists sorted. rewrite app_nil_r. auto.
  - cbn [fmap list_fmap fold_left].
    destruct (insert_sorted_strings name sorted) as (sorted1 & -> & Hperm & Hs & _).
    destruct (IH sorted1 (Hs Hsorted)) as (sorted' & Hfold & Hperm' & Hsorted').
    exists sorted'. split; [exact Hfold|]. split; [|exact Hsorted'].
    rewrite Hperm', Hperm. rewrite <- Permutation_middle. reflexivity.
Qed.

(** X24. When the types of the results are strings, listPendingTypes
    returns the types of the results that are not healthy, each once, in
    ascending order of their UTF-16 code units: no type of the list is
    after a later one, where a string is after another when it has the
    greater unit at the first place they differ, or is the longer one when
    one starts with the other. *)
Theorem listPendingTypes_sorted_types (results : list Validated) :
  Forall (λ result, ∃ s, type (item result) = VStr s) results →
  ∃ names,
    listPendingTypes results = VStr <$> names
    ∧ NoDup names
    ∧ StronglySorted not_after names
    ∧ ∀ name, name ∈ names ↔
        ∃ result, result ∈ results ∧ status (observation result) ≠ "healthy"
                  ∧ type (item result) = VStr name.
Proof.
  intros Hstrings. unfold listPendingTypes, Array_sort.
  destruct (pending_types_fold results [] Hstrings (NoDup_nil_2 (A:=string)))
    as (names & Hfold & Hnodup & Hmem).
  cbn [fmap list_fmap] in Hfold. rewrite Hfold.
  destruct (sort_strings names [] (Sorted_nil _)) as (sorted & Hsort & Hperm & Hsorted).
  cbn [fmap list_fmap app] in Hsort, Hperm. rewrite Hsort.
  exists sorted. split; [reflexivity|]. split; [rewrite Hperm; exact Hnodup|].
  split; [apply (Sorted_StronglySorted not_after_trans), Hsorted|].
  intros name. rewrite Hperm, Hmem. split.
  - intros [Hin|?]; [inversion Hin|assumption].
  - auto.
Qed.

Lemma insert_sorted_length (x : value) (sorted : list value) :
  length (insert_sorted x sorted) = S (length sorted).
Proof.
  induction sorted as [|y sorted IH]; [reflexivity|]. cbn [insert_sorted].
  destruct (sorts_after y x); cbn [length]; [reflexivity|]. rewrite IH. reflexivity.
Qed.

Lemma Array_sort_length (xs : list value) : length (Array_sort xs) = length xs.
Proof.
  unfold Array_sort.
  enough (∀ sorted, length (fold_left (λ sorted x, insert_sorted x sorted) xs sorted)
                    = length sorted + length xs) as H by apply (H []).
  induction xs as [|x xs IH]; intros sorted; cbn [fold_left length]; [lia|].
  rewrite IH, insert_sorted_length. lia.
Qed.

Lemma pending_types_empty (results : list Validated) (types : list value) :
  fold_left (λ types result,
    if negb (String.eqb (status (observation result)) "healthy")
    then Set_add types (type (item result))
    else types) results types = []
  ↔ types = [] ∧ count_status is_healthy results = length results.
Proof.
  revert types. induction results as [|result results IH]; intros types.
  - cbn. tauto.
  - cbn [fold_left length]. rewrite IH, (count_status_cons _ result results).
    assert (count_status is_healthy results ≤ length results)%nat as Hle.
    { unfold count_status. apply List.filter_length_le. }
    assert (count_status is_healthy [result]
            = if String.eqb (status (observation result)) "healthy" then 1 else 0) as ->.
    { unfold count_status, is_healthy. cbn [List.filter].
      destruct (String.eqb (status (observation result)) "healthy"); reflexivity. }
    destruct (String.eqb (status (observation result)) "healthy"); cbn [negb length].
    + split; intros [-> H]; (split; [reflexivity|lia]).
    + split.
      * intros [Hadd _]. exfalso. unfold Set_add in Hadd.
        destruct (existsb _ types) eqn:Hseen.
        -- subst types. discriminate Hseen.
        -- destruct types; discriminate Hadd.
      * intros [_ H]. lia.
Qed.

(** X25. listPendingTypes returns no type exactly when summarizeResults
    counts nothing as missing or unknown: the list of pending types that
    handleLifecycle prints is never empty. *)
Theorem listPendingTypes_empty_iff_none_pending (results : list Validated) :
  listPendingTypes results = []
  ↔ missing (summarizeResults results) + unknown (summarizeResults results) = 0.
Proof.
  assert (listPendingTypes results = []
          ↔ count_status is_healthy results = length results) as ->.
  { unfold listPendingTypes. split.
    - intros Hsorted. apply (pending_types_empty results []).
      apply length_zero_iff_nil. rewrite <- (Array_sort_length _), Hsorted. reflexivity.
    - intros Hall.
      assert (fold_left (λ types result,
                if negb (String.eqb (status (observation result)) "healthy")
                then Set_add types (type (item result))
                else types) results [] = []) as ->
        by (apply pending_types_empty; auto).
      reflexivity. }
  unfold summarizeResults. cbn [missing unknown].
  destruct (summarize_fold results
              {| healthy := 0; missing := 0; unknown := 0; total := None |})
    as (_ & -> & ->).
  cbn [missing unknown]. pose proof (count_status_partition results). lia.
Qed.

End PendingTypes.

Lemma listPendingTypes_sorted_types_witness :
  ∃ names,
    listPendingTypes (platform := demo) (display := demo_display)
      [schema_missing; deps_healthy; deps_missing; schema_missing] = VStr <$> names
    ∧ NoDup names
    ∧ StronglySorted (not_after (platform := demo)) names
    ∧ ∀ name, name ∈ names ↔
        ∃ result, result ∈ [schema_missing; deps_healthy; deps_missing; schema_missing]
                  ∧ status (observation result) ≠ "healthy"
                  ∧ type (item result) = VStr name.
Proof.
  apply (listPendingTypes_sorted_types (platform := demo) (display := demo_display)
           [schema_missing; deps_healthy; deps_missing; schema_missing]).
  repeat constructor; eexists; reflexivity.
Defined.

(** ** The handlers *)

Lemma console_log_same (line : string) (p : Process) : same_but_stdout p (console_log line p).
Proof. repeat split. Qed.

Lemma same_but_stdout_refl (p : Process) : same_but_stdout p p.
Proof. repeat split. Qed.

Lemma same_but_stdout_trans (p p' p'' : Process) :
  same_but_stdout p p' → same_but_stdout p' p'' → same_but_stdout p p''.
Proof.
  unfold same_but_stdout. intros (H1 & H2 & H3 & H4) (H1' & H2' & H3' & H4').
  repeat split; congruence.
Qed.

Lemma console_logs_same {A : Type} (line : A → string) (xs : list A) (p : Process) :
  same_but_stdout p (fold_left (λ p x, console_log (line x) p) xs p).
Proof.
  revert p. induction xs as [|x xs IH]; intros p; [apply same_but_stdout_refl|].
  cbn [fold_left]. eapply same_but_stdout_trans; [apply console_log_same|apply IH].
Qed.

Lemma stdout_console_logs {A : Type} (line : A → string) (xs : list A) (p : Process) :
  stdout (fold_left (λ p x, console_log (line x) p) xs p) = stdout p ++ map line xs.
Proof.
  revert p. induction xs as [|x xs IH]; intros p; cbn [fold_left map].
  - rewrite app_nil_r. reflexivity.
  - rewrite IH. cbn [console_log stdout]. rewrite <- app_assoc. reflexivity.
Qed.

Lemma files_console_logs {A : Type} (line : A → string) (xs : list A) (p : Process) :
  files (fold_left (λ p x, console_log (line x) p) xs p) = files p.
Proof. apply (console_logs_same line xs p). Qed.

Lemma exitCode_console_logs {A : Type} (line : A → string) (xs : list A) (p : Process) :
  exitCode (fold_left (λ p x, console_log (line x) p) xs p) = exitCode p.
Proof. apply (console_logs_same line xs p). Qed.

Lemma printHelp_same (p : Process) : same_but_stdout p (printHelp p).
Proof. unfold printHelp. apply (console_logs_same (λ line, line)). Qed.

Lemma printSummary_same (summary : Summary) (p : Process) :
  same_but_stdout p (printSummary summary p).
Proof. apply console_log_same. Qed.

Lemma pending_all_healthy (results : list Validated) :
  (0 <? missing (summarizeResults results) + unknown (summarizeResults results))%nat
  = negb (all_healthy results).
Proof.
  unfold summarizeResults. cbn [missing unknown].
  destruct (summarize_fold results
              {| healthy := 0; missing := 0; unknown := 0; total := None |})
    as (_ & -> & ->).
  cbn [missing unknown Nat.add]. unfold all_healthy.
  induction results as [|r results IH]; [reflexivity|].
  rewrite !(count_status_cons _ r results). cbn [forallb].
  assert (count_status is_missing [r] + count_status is_other [r]
          = if String.eqb (status (observation r)) "healthy" then 0 else 1) as Hone.
  { unfold count_status, is_other, is_healthy, is_missing. cbn [List.filter].
    destruct (String.eqb (status (observation r)) "healthy") eqn:Hhealthy.
    - apply String.eqb_eq in Hhealthy. rewrite Hhealthy. reflexivity.
    - destruct (String.eqb (status (observation r)) "missing"); reflexivity. }
  destruct (String.eqb (status (observation r)) "healthy"); cbn [andb negb].
  - rewrite <- IH. f_equal. lia.
  - apply Nat.ltb_lt. lia.
Qed.

Section Handlers.
Context `{platform : Platform} `{yaml : Yaml} `{display : Display}.

Lemma printResults_same (results : list Validated) (p : Process) :
  same_but_stdout p (printResults results p).
Proof.
  unfold printResults. destruct results as [|r results]; [apply console_log_same|].
  apply (console_logs_same
           (λ result, (serviceName (item result) +:+ ":" +:+ ToString (stateId (item result)))
                      +:+ " [" +:+ ToString (type (item result)) +:+ "] -> "
                      +:+ status (observation result))).
Qed.

Lemma printJson_same (payload : value) (p : Process) :
  same_but_stdout p (printJson payload p).
Proof. apply console_log_same. Qed.

(** X26. What a dev or sync run that returns has done: it loaded the
    manifest, resolved the intent, built and validated the plan, read the
    stored state, and wrote the updated state to .nexus/state.json, all
    before printing.  It sets the exit code to 1 exactly when it prints
    text and some result is not healthy; with --json the exit code is left
    as it was, whatever the results. *)
Theorem handleLifecycle_returns (args : Args.t) (mode : string) (p p' : Process) :
  handleLifecycle args mode p = Return p' →
  ∃ loaded intentName plan results state next,
    loadManifest (files p) (resolveManifestPath (env p) args) = Return loaded
    ∧ resolveIntentName (Loaded.manifest loaded) (Args.intent args)
      = Return intentName
    ∧ buildPlan (Loaded.manifest loaded) intentName = Return plan
    ∧ validatePlan (files p) plan (Loaded.projectRoot loaded) = Return results
    ∧ loadState (files p) DEFAULT_STATE_PATH = Return state
    ∧ updateState state results (VStr (Loaded.manifestHash loaded)) (clock p) = Return next
    ∧ writeState (files p) next DEFAULT_STATE_PATH = Return (files p')
    ∧ exitCode p' = (if Args.json args || all_healthy results then exitCode p else Some 1%Z)
    ∧ env p' = env p ∧ clock p' = clock p.
Proof.
  unfold handleLifecycle.
  destruct (loadManifest _ _) as [loaded|?] eqn:Hloaded; [|discriminate].
  cbn [mbind result_bind].
  destruct (resolveIntentName _ _) as [intentName|?] eqn:Hintent; [|discriminate].
  cbn [mbind result_bind].
  destruct (buildPlan _ _) as [plan|?] eqn:Hplan; [|discriminate]. cbn [mbind result_bind].
  destruct (validatePlan _ _ _) as [results|?] eqn:Hresults; [|discriminate].
  cbn [mbind result_bind].
  destruct (loadState _ _) as [state|?] eqn:Hstate; [|discriminate]. cbn [mbind result_bind].
  destruct (updateState _ _ _ _) as [next|?] eqn:Hnext; [|discriminate].
  cbn [mbind result_bind].
  destruct (writeState _ _ _) as [written|?] eqn:Hwritten; [|discriminate].
  cbn [mbind result_bind].
  intros Hrun. exists loaded, intentName, plan, results, state, next.
  do 6 (split; [first [reflexivity|assumption]|]).
  destruct (Args.json args); cbn [orb] in *.
  - injection Hrun as <-. split; [exact Hwritten|]. repeat split.
  - rewrite pending_all_healthy in Hrun. injection Hrun as <-.
    cbn [console_log files env clock exitCode].
    destruct (all_healthy results); cbn [negb].
    + destruct (printSummary_same (summarizeResults results)
                  (console_log ("Resolved " +:+ decimal (length results) +:+ " states.")
                     (console_log ("Nexus " +:+ mode +:+ " (intent: "
                                     +:+ ToString intentName +:+ ")")
                        (set_files written p)))) as (-> & -> & -> & ->).
      split; [exact Hwritten|]. repeat split.
    + cbn [set_exitCode console_log files env clock exitCode].
      destruct (console_logs_same (λ type, "- " +:+ ToString type)
                  (listPendingTypes results)
                  (console_log "No reconcilers registered for:"
                     (console_log ""
                        (printSummary (summarizeResults results)
                           (console_log ("Resolved " +:+ decimal (length results)
                                         +:+ " states.")
                              (console_log ("Nexus " +:+ mode +:+ " (intent: "
                                            +:+ ToString intentName +:+ ")")
                                 (set_files written p)))))))
        as (-> & -> & -> & _).
      split; [exact Hwritten|]. repeat split.
Qed.

Lemma handleStatus_same (args : Args.t) (p p' : Process) :
  handleStatus args p = Return p' → same_but_stdout p p'.
Proof.
  unfold handleStatus.
  repeat (match goal with
          | |- context [mbind _ ?m] => destruct m; [|discriminate]
          end; cbn [mbind result_bind]).
  destruct (Args.json args); intros [= <-]; [apply printJson_same|].
  repeat match goal with |- context [if ?b then _ else _] => destruct b end;
    repeat (eapply same_but_stdout_trans;
            [|first [apply printSummary_same|apply console_log_same
                    |apply printResults_same]]);
    apply same_but_stdout_refl.
Qed.

Lemma handleGraph_same (args : Args.t) (p p' : Process) :
  handleGraph args p = Return p' → same_but_stdout p p'.
Proof.
  unfold handleGraph.
  destruct (loadManifest _ _) as [loaded|?]; [|discriminate]. cbn [mbind result_bind].
  destruct (buildGraph _) as [[|edge edges]|?]; [| |discriminate];
    cbn [mbind result_bind];
    (destruct (Args.json args); [intros [= <-]; apply printJson_same|]); intros [= <-].
  - eapply same_but_stdout_trans; apply console_log_same.
  - repeat (eapply same_but_stdout_trans;
            [|first [apply console_log_same
                    |apply (console_logs_same
                              (λ edge, from edge +:+ " -> " +:+ ToString (to edge)
                                       +:+ " (" +:+ reason edge +:+ ")"))]]).
    apply same_but_stdout_refl.
Qed.

(** X27. Only dev and sync change anything but the console: a run of
    any other command that returns (help, status, graph) leaves the file
    system, and with it the stored state, as it was, and does not set the
    exit code. *)
Theorem run_writes_only_for_dev_and_sync (argv : list string) (p p' : Process) :
  run argv p = Return p' →
  command_of argv ≠ "dev" → command_of argv ≠ "sync" →
  same_but_stdout p p'.
Proof.
  unfold run, command_of. intros Hrun Hdev Hsync.
  destruct (Args.help (parseArgs argv)
            || String.eqb (str_or (head (Args.positional (parseArgs argv))) "help") "help"
            || String.eqb (str_or (head (Args.positional (parseArgs argv))) "help") "--help").
  { injection Hrun as <-. apply printHelp_same. }
  destruct (String.eqb _ "status"); [exact (handleStatus_same _ _ _ Hrun)|].
  destruct (String.eqb _ "graph"); [exact (handleGraph_same _ _ _ Hrun)|].
  apply String.eqb_neq in Hdev, Hsync. rewrite Hdev, Hsync in Hrun. discriminate.
Qed.

Lemma help_stays (args : Args.t) (argv : list string) :
  Args.help args = true → Args.help (parse_from args argv) = true.
Proof.
  revert args. induction argv as [|arg|arg next rest IH1 IH2] using argv_ind;
    intros args Hset.
  - exact Hset.
  - parse_step arg; first [exact Hset|reflexivity].
  - parse_step arg; first [apply IH1|apply IH2]; first [exact Hset|reflexivity].
Qed.

(** X28. Help wins: a command line that starts with --help, -h or help,
    and the empty command line, print the help text and nothing else,
    whatever follows; no manifest is read.  A single argument that is
    neither an option nor a command is refused as an unknown command. *)
Theorem run_help_and_unknown (rest : list string) (p : Process) :
  run ("--help" :: rest) p = Return (printHelp p)
  ∧ run ("-h" :: rest) p = Return (printHelp p)
  ∧ run ("help" :: rest) p = Return (printHelp p)
  ∧ run [] p = Return (printHelp p)
  ∧ ∀ command,
      is_option command = false →
      command ∉ [EmptyString; "help"; "status"; "graph"; "dev"; "sync"] →
      run [command] p = Throw (UnknownCommand command).
Proof.
  split; [|split; [|split; [|split]]].
  - unfold run, parseArgs. rewrite parse_from_cons.
    change (String.eqb "--help" "--help" || String.eqb "--help" "-h") with true.
    cbn match. rewrite help_stays by reflexivity. reflexivity.
  - unfold run, parseArgs. rewrite parse_from_cons.
    change (String.eqb "-h" "--help" || String.eqb "-h" "-h") with true.
    cbn match. rewrite help_stays by reflexivity. reflexivity.
  - unfold run, parseArgs.
    change (parse_from _ ("help" :: rest))
      with (parse_from (push_positional
                          {| Args.positional := []; Args.manifest := VNull;
                             Args.intent := VNull; Args.json := false;
                             Args.help := false |} "help") rest).
    destruct (parse_from_positional
                (push_positional
                   {| Args.positional := []; Args.manifest := VNull;
                      Args.intent := VNull; Args.json := false;
                      Args.help := false |} "help") rest) as (extra & -> & _).
    cbn [push_positional Args.positional app head str_or].
    rewrite orb_true_r. reflexivity.
  - reflexivity.
  - intros command Hplain Hcommand. unfold run, parseArgs.
    assert (parse_from {| Args.positional := []; Args.manifest := VNull;
                          Args.intent := VNull; Args.json := false;
                          Args.help := false |} [command]
            = {| Args.positional := [command]; Args.manifest := VNull;
                 Args.intent := VNull; Args.json := false; Args.help := false |}) as ->.
    { unfold is_option, takes_value in Hplain.
      repeat match goal with
             | H : _ || _ = false |- _ => apply orb_false_elim in H as [? ?]
             end.
      rewrite parse_from_cons, parse_from_nil.
      repeat match goal with H : _ = false |- _ => rewrite H end.
      reflexivity. }
    cbn [Args.help Args.positional head str_or orb].
    assert (∀ known, known ∈ [EmptyString; "help"; "status"; "graph"; "dev"; "sync"] →
                     String.eqb command known = false) as Hne.
    { intros known Hknown. apply String.eqb_neq. intros ->. contradiction. }
    rewrite (Hne EmptyString) by (repeat constructor).
    rewrite (Hne "help"), (Hne "status"), (Hne "graph"), (Hne "dev"), (Hne "sync")
      by (repeat constructor).
    assert (String.eqb command "--help" = false) as ->.
    { apply String.eqb_neq. intros ->. discriminate Hplain. }
    reflexivity.
Qed.

(** X29. sync is dev under another name: on the same arguments and
    process the two modes throw the same exception, or leave the same file
    system, the same exit code and as many lines on the console. *)
Theorem dev_and_sync_agree (args : Args.t) (p : Process) :
  match handleLifecycle args "dev" p, handleLifecycle args "sync" p with
  | Return dev, Return sync =>
      files dev = files sync ∧ exitCode dev = exitCode sync
      ∧ length (stdout dev) = length (stdout sync)
  | Throw e, Throw e' => e = e'
  | _, _ => False
  end.
Proof.
  unfold handleLifecycle.
  repeat (match goal with
          | |- context [mbind _ ?m] => destruct m; [|reflexivity]
          end; cbn [mbind result_bind]).
  destruct (Args.json args);
    [|match goal with |- context [if ?b then _ else _] => destruct b end];
    unfold printJson, printSummary;
    cbn [set_exitCode set_files console_log files exitCode stdout];
    rewrite ?(stdout_console_logs (λ type, "- " +:+ ToString type)),
      ?(files_console_logs (λ type, "- " +:+ ToString type)),
      ?(exitCode_console_logs (λ type, "- " +:+ ToString type));
    cbn [set_exitCode set_files console_log files exitCode stdout];
    rewrite ?length_app; cbn [length]; repeat split; reflexivity.
Qed.

End Handlers.

Lemma handleLifecycle_returns_witness :
  ∃ loaded intentName plan results state next,
    loadManifest (platform := demo) (yaml := demo_yaml) (files (at_rest project))
      (resolveManifestPath (env (at_rest project)) (parseArgs ["dev"])) = Return loaded
    ∧ resolveIntentName (platform := demo) (display := demo_display)
        (Loaded.manifest loaded) (Args.intent (parseArgs ["dev"])) = Return intentName
    ∧ buildPlan (platform := demo) (display := demo_display) (Loaded.manifest loaded)
        intentName = Return plan
    ∧ validatePlan (platform := demo) (files (at_rest project)) plan
        (Loaded.projectRoot loaded) = Return results
    ∧ loadState (platform := demo) (files (at_rest project)) DEFAULT_STATE_PATH
      = Return state
    ∧ updateState (display := demo_display) state results
        (VStr (Loaded.manifestHash loaded)) (clock (at_rest project)) = Return next
    ∧ writeState (platform := demo) (files (at_rest project)) next DEFAULT_STATE_PATH
      = Return (files (after (run (platform := demo) (yaml := demo_yaml)
                                (display := demo_display) ["dev"]
                                (at_rest project))))
    ∧ exitCode (after (run (platform := demo) (yaml := demo_yaml)
                         (display := demo_display) ["dev"]
                         (at_rest project)))
      = (if Args.json (parseArgs ["dev"]) || all_healthy results
         then exitCode (at_rest project) else Some 1%Z)
    ∧ env (after (run (platform := demo) (yaml := demo_yaml) (display := demo_display)
                    ["dev"] (at_rest project))) = env (at_rest project)
    ∧ clock (after (run (platform := demo) (yaml := demo_yaml) (display := demo_display)
                      ["dev"] (at_rest project))) = clock (at_rest project).
Proof.
  apply (handleLifecycle_returns (platform := demo) (yaml := demo_yaml)
           (display := demo_display) (parseArgs ["dev"]) "dev").
  vm_compute. reflexivity.
Defined.

Lemma run_writes_only_for_dev_and_sync_witness :
  same_but_stdout (at_rest project)
    (after (run (platform := demo) (yaml := demo_yaml) (display := demo_display)
              ["status"; "--json"] (at_rest project))).
Proof.
  apply (run_writes_only_for_dev_and_sync (platform := demo) (yaml := demo_yaml)
           (display := demo_display) ["status"; "--json"]).
  - vm_compute. reflexivity.
  - vm_compute. discriminate.
  - vm_compute. discriminate.
Defined.
